(** * PowerDetector: a shallow embedding of [powerdetector.py]

    The detector of [02_Intro_Deep_Learning_Part1/powerdetector.py] computes
    the instantaneous power of a complex buffer, low-pass filters and
    decimates it, cuts the result into segments, counts the samples of each
    segment above a linear threshold and returns the segments of the input
    whose count is large enough.

    Conventions of the embedding:
    - Python integers are [Z]; array lengths are [nat].
    - [float32]/[float64]/[complex64] values are idealised as real numbers
      [R] and pairs of reals: rounding is not modelled, except in the module
      [F32], which computes line 107 in single precision.
    - A raised exception is the [Err] case of [result]; a method that
      mutates [self] returns the new object next to its value.
    - numpy/cupy/cusignal routines called by the source are modelled by
      their documented behaviour in the modules [Np] and [Cusignal]. *)

From Stdlib Require Import Reals Lra Lia ZArith List Bool.
From Stdlib Require String Ascii DecimalString DecimalN SpecFloat.
Import ListNotations.

Open Scope R_scope.

(** ** Python exceptions and the error monad *)

Inductive exn : Type :=
| AssertionError
| ZeroDivisionError
| ValueError
| IndexError.

Inductive result (A : Type) : Type :=
| Ok (a : A)
| Err (e : exn).

Arguments Ok {A} a.
Arguments Err {A} e.

Definition bind {A B : Type} (m : result A) (k : A -> result B) : result B :=
  match m with
  | Ok a => k a
  | Err e => Err e
  end.

Notation "x <- m ;; k" := (bind m (fun x => k))
  (at level 61, m at next level, right associativity).

Definition is_ok {A : Type} (m : result A) : Prop :=
  exists a, m = Ok a.

Definition raises {A : Type} (m : result A) : Prop :=
  exists e, m = Err e.

(** Comparisons of reals as booleans. *)

Definition Rgtb (x y : R) : bool := if Rgt_dec x y then true else false.
Definition Rleb (x y : R) : bool := if Rle_dec x y then true else false.

(** ** numpy / cupy arrays *)

Module Np.

(** [cp.zeros(n)]: a negative dimension raises [ValueError]. *)
Definition zeros {A : Type} (zero : A) (n : Z) : result (list A) :=
  if (n <? 0)%Z then Err ValueError else Ok (repeat zero (Z.to_nat n)).

(** [int(a / b)] on Python integers: true division, then truncation towards
    zero; division by zero raises. *)
Definition int_div (a b : Z) : result Z :=
  if (b =? 0)%Z then Err ZeroDivisionError else Ok (Z.quot a b).

(** Rows of [k] consecutive elements. *)
Fixpoint chunks {A : Type} (k rows : nat) (l : list A) : list (list A) :=
  match rows with
  | O => []
  | S r => firstn k l :: chunks k r (skipn k l)
  end.

(** [a.reshape(-1, k)] of a one-dimensional array: [k] must be positive and
    divide the size. *)
Definition reshape {A : Type} (l : list A) (k : Z) : result (list (list A)) :=
  if (k <=? 0)%Z then Err ValueError
  else if (Z.of_nat (length l) mod k =? 0)%Z
       then Ok (chunks (Z.to_nat k) (length l / Z.to_nat k) l)
       else Err ValueError.

(** [dst[:] = src]: the shapes must agree, or [src] has one element, which is
    broadcast. The result is the new content of [dst]. *)
Definition assign_slice {A : Type} (dst src : list A) : result (list A) :=
  if (length src =? length dst)%nat then Ok src
  else match src with
       | [v] => Ok (repeat v (length dst))
       | _ => Err ValueError
       end.

(** Rows kept by a boolean mask. *)
Fixpoint compress {A : Type} (mask : list bool) (rows : list A) : list A :=
  match mask, rows with
  | b :: m, r :: rs => if b then r :: compress m rs else compress m rs
  | _, _ => []
  end.

(** [a[mask]] along the first axis: the mask must have one entry per row. *)
Definition bool_index {A : Type} (rows : list A) (mask : list bool)
  : result (list A) :=
  if (length mask =? length rows)%nat then Ok (compress mask rows)
  else Err IndexError.

(** [cp.sum(m, axis=1)] of a boolean matrix: the number of [True] per row. *)
Definition count_true (row : list bool) : Z :=
  Z.of_nat (length (filter (fun b => b) row)).

Definition sum_axis1 (m : list (list bool)) : list Z := map count_true m.

(** Sum of a real array. *)
Definition sum (l : list R) : R := fold_right Rplus 0 l.

(** [np.arange(0, n)]. *)
Definition arange (n : Z) : list Z := map Z.of_nat (seq 0 (Z.to_nat n)).

(** [np.sinc]. *)
Definition sinc (x : R) : R :=
  if Req_dec_T x 0 then 1 else sin (PI * x) / (PI * x).

End Np.

(** ** cusignal routines used by the detector

    These are library routines; they are modelled from their documented
    behaviour. The modified Bessel function [i0] of the Kaiser window is a
    parameter of the development. *)

Module Cusignal.

Section Design.

Variable i0 : R -> R.

(** Elementwise product of two arrays of the same length. *)
Definition mul (a b : list R) : list R :=
  map (fun p => fst p * snd p) (combine a b).

(** [get_window(('kaiser', beta), M, fftbins=False)]: the symmetric Kaiser
    window of [M] points. *)
Definition kaiser (M : Z) (beta : R) : result (list R) :=
  if (M <? 0)%Z then Err ValueError
  else if (M <=? 1)%Z then Ok (repeat 1 (Z.to_nat M))
  else
    let alpha := (IZR M - 1) / 2 in
    Ok (map (fun n => i0 (beta * sqrt (1 - ((IZR n - alpha) / alpha) ^ 2))
                      / i0 beta)
            (Np.arange M)).

(** [firwin(numtaps, cutoff, window=('kaiser', beta))] with its defaults
    [pass_zero=True], [scale=True] and a Nyquist frequency of 1: one pass
    band [[0, cutoff]], windowed, scaled to unit gain at frequency 0. *)
Definition firwin (numtaps : Z) (cutoff beta : R) : result (list R) :=
  if Rleb cutoff 0 then Err ValueError
  else if Rleb 1 cutoff then Err ValueError
  else
    let left := 0 in
    let right := cutoff in
    let alpha := 0.5 * (IZR numtaps - 1) in
    let m := map (fun n => IZR n - alpha) (Np.arange numtaps) in
    let h := map (fun mi => right * Np.sinc (right * mi)
                            - left * Np.sinc (left * mi)) m in
    win <- kaiser numtaps beta ;;
    let h := mul h win in
    let scale_frequency := 0 in
    let c := map (fun mi => cos (PI * mi * scale_frequency)) m in
    let s := Np.sum (mul h c) in
    Ok (map (fun v => v / s) h).

End Design.

(** A sample of the zero-extended signal. *)
Definition at_index (x : list R) (k : Z) : R :=
  if (k <? 0)%Z then 0 else nth (Z.to_nat k) x 0.

(** One output of the FIR filter: tap [i] meets the sample at [c - i]. *)
Fixpoint fir_sum (h x : list R) (c : Z) : R :=
  match h with
  | [] => 0
  | t :: h' => t * at_index x c + fir_sum h' x (c - 1)
  end.

(** [resample_poly(x, 1, q, window=h)]: the filter is centred on every
    [q]-th sample (no delay), the signal is extended by zeros, and
    [ceil(len(x) / q)] outputs are kept. With [q = 1] the input is returned
    as it is. *)
Definition resample_poly (x : list R) (q : Z) (h : list R) : result (list R) :=
  if (q <? 1)%Z then Err ValueError
  else if (q =? 1)%Z then Ok x
  else
    let half_len := ((Z.of_nat (length h) - 1) / 2)%Z in
    let n := Z.of_nat (length x) in
    let n_out := (n / q + (if (n mod q =? 0)%Z then 0 else 1))%Z in
    Ok (map (fun j => fir_sum h x (j * q + half_len)) (Np.arange n_out)).

(** [cusignal.decimate(x, q, n=h, zero_phase=True)] with an array [n]: the
    array holds the FIR coefficients. *)
Definition decimate (x : list R) (q : Z) (h : list R) : result (list R) :=
  resample_poly x q h.

End Cusignal.

(** ** The detector *)

(** A complex sample: in-phase and quadrature parts. *)
Definition complex : Type := (R * R)%type.

Definition Cabs (z : complex) : R := sqrt (fst z * fst z + snd z * snd z).

Definition Czero : complex := (0, 0).

Record PowerDetector : Type := mkPowerDetector {
  _seg_len : Z;
  _dec : Z;
  _win : list R;
  _seg_len_dec : Z;
  _thresh : R;
  _samp_above_thresh : Z;
  _x_power_dec : list R;
  _seg_det_index : list bool
}.

Section Detector.

Variable i0 : R -> R.

(** [PowerDetector._create_fir_filter_window] (the taps are the reals of
    the design: the cast to [float32] of line 88 rounds each of them). *)
Definition _create_fir_filter_window (dec : Z) : result (list R) :=
  let ntaps := (2 * dec + 1)%Z in
  if (dec =? 0)%Z then Err ZeroDivisionError
  else
    let cut := 1 / IZR dec in
    Cusignal.firwin i0 ntaps cut 0.5.

(** The instantaneous power [cp.power(cp.abs(x), 2)]. *)
Definition power (x : list complex) : list R := map (fun z => Cabs z ^ 2) x.

(** Lines 117 and 120: the flag of every row of the decimated matrix. *)
Definition seg_det (thresh : R) (samp_above_thresh : Z) (mat : list (list R))
  : list bool :=
  let x_det_dec_mat := map (map (fun v => Rgtb v thresh)) mat in
  map (fun s => (s >? samp_above_thresh)%Z) (Np.sum_axis1 x_det_dec_mat).

(** [PowerDetector.detect] *)
Definition detect (self : PowerDetector) (x : list complex)
  : result (PowerDetector * list (list complex)) :=
  let x_power := power x in
  d <- Cusignal.decimate x_power (_dec self) (_win self) ;;
  x_power_dec <- Np.assign_slice (_x_power_dec self) d ;;
  x_power_dec_mat <- Np.reshape x_power_dec (_seg_len_dec self) ;;
  let flags := seg_det (_thresh self) (_samp_above_thresh self) x_power_dec_mat in
  seg_det_index <- Np.assign_slice (_seg_det_index self) flags ;;
  x_mat <- Np.reshape x (_seg_len self) ;;
  y <- Np.bool_index x_mat seg_det_index ;;
  Ok (mkPowerDetector (_seg_len self) (_dec self) (_win self)
        (_seg_len_dec self) (_thresh self) (_samp_above_thresh self)
        x_power_dec seg_det_index, y).

(** The assertion of line 64. *)
Definition check_samp_above_thresh (seg_len dec samp_above_thresh : Z)
  : result unit :=
  if (dec =? 0)%Z then Err ZeroDivisionError
  else if Rleb (IZR samp_above_thresh) (IZR seg_len / IZR dec) then Ok tt
       else Err AssertionError.

(** What [__init__] does once the assertion has passed. (The threshold is
    the real [10 ^ (thresh_db / 10)]: the float of line 70 overflows above
    3082 dB, where Python raises, and is 0 below -3240 dB.) *)
Definition init_body (buff : list complex) (seg_len dec : Z) (thresh_db : R)
  (samp_above_thresh : Z) : result PowerDetector :=
  win <- _create_fir_filter_window dec ;;
  seg_len_dec <- Np.int_div seg_len dec ;;
  let thresh := Rpower 10 (thresh_db / 10) in
  n_dec <- Np.int_div (Z.of_nat (length buff)) dec ;;
  x_power_dec <- Np.zeros 0 n_dec ;;
  n_seg <- Np.int_div (Z.of_nat (length buff)) seg_len ;;
  seg_det_index <- Np.zeros false n_seg ;;
  r <- detect (mkPowerDetector seg_len dec win seg_len_dec thresh
                 samp_above_thresh x_power_dec seg_det_index) buff ;;
  Ok (fst r).

(** [PowerDetector.__init__] *)
Definition __init__ (buff : list complex) (seg_len dec : Z) (thresh_db : R)
  (samp_above_thresh : Z) : result PowerDetector :=
  _ <- check_samp_above_thresh seg_len dec samp_above_thresh ;;
  init_body buff seg_len dec thresh_db samp_above_thresh.

(** The kernel as the specification words it: the ideal low-pass response
    with cutoff [1 / dec] of the Nyquist frequency on [2 * dec + 1] taps
    centred on tap [dec], under the Kaiser window of shape 0.5, scaled to
    unit gain. *)
Definition lowpass_tap (dec n : Z) : R :=
  let c := 1 / IZR dec in
  let t := IZR n - IZR dec in
  c * Np.sinc (c * t) * (i0 (0.5 * sqrt (1 - (t / IZR dec) ^ 2)) / i0 0.5).

Definition kaiser_lowpass (dec : Z) : list R :=
  let h := map (lowpass_tap dec) (Np.arange (2 * dec + 1)) in
  map (fun v => v / Np.sum h) h.

(** The properties [amp_sq] and [det_index]. *)
Definition amp_sq (self : PowerDetector) : list R := _x_power_dec self.
Definition det_index (self : PowerDetector) : list bool := _seg_det_index self.

End Detector.

(** ** Notions used by the statements *)

(** The number of samples of a row strictly greater than the threshold. *)
Definition count_above (thresh : R) (row : list R) : Z :=
  Np.count_true (map (fun v => Rgtb v thresh) row).

(** The number of flagged segments. *)
Definition num_flagged (self : PowerDetector) : Z :=
  Np.count_true (det_index self).

(** Two detectors with the same configuration, up to the threshold, and
    working buffers of the same sizes. *)
Definition same_shape (a b : PowerDetector) : Prop :=
  _seg_len a = _seg_len b /\ _dec a = _dec b /\ _win a = _win b /\
  _seg_len_dec a = _seg_len_dec b /\
  _samp_above_thresh a = _samp_above_thresh b /\
  length (_x_power_dec a) = length (_x_power_dec b) /\
  length (_seg_det_index a) = length (_seg_det_index b).

(** [a] flags no position that [b] does not flag. *)
Definition flags_within (a b : list bool) : Prop :=
  Forall2 (fun fa fb => fa = true -> fb = true) a b.

(** The detector on which [__init__] runs its first [detect]. *)
Definition fresh (buff : list complex) (seg_len dec : Z) (win : list R)
  (thresh_db : R) (samp : Z) : PowerDetector :=
  mkPowerDetector seg_len dec win (Z.quot seg_len dec)
    (Rpower 10 (thresh_db / 10)) samp
    (repeat 0 (Z.to_nat (Z.quot (Z.of_nat (length buff)) dec)))
    (repeat false (Z.to_nat (Z.quot (Z.of_nat (length buff)) seg_len))).

(** The detectors a program can hold: built by [__init__] from a buffer and
    a configuration, then used for any number of [detect] calls. *)
Inductive reachable (i0 : R -> R) (buff : list complex) (seg_len dec : Z)
  (thresh_db : R) (samp_above_thresh : Z) : PowerDetector -> Prop :=
| reach_init : forall d,
    __init__ i0 buff seg_len dec thresh_db samp_above_thresh = Ok d ->
    reachable i0 buff seg_len dec thresh_db samp_above_thresh d
| reach_detect : forall d x d' y,
    reachable i0 buff seg_len dec thresh_db samp_above_thresh d ->
    detect d x = Ok (d', y) ->
    reachable i0 buff seg_len dec thresh_db samp_above_thresh d'.

(** The rows of [rows] at the positions where [mask] holds, by increasing
    position. *)
Definition rows_where {A : Type} (mask : list bool) (rows : list (list A))
  : list (list A) :=
  map (fun i => nth i rows [])
      (filter (fun i => nth i mask false) (seq 0 (length rows))).

(** ** Concrete data for the examples

    [i0_series] is the power series of the Bessel function cut after three
    terms; the examples only need a positive function. *)

Definition i0_series (x : R) : R := 1 + (x / 2) ^ 2 + (x / 2) ^ 4 / 4.

Definition zero_buff : list complex := repeat Czero 8.

Definition demo_buff : list complex :=
  [(1, 0); (0, 1); (1, 1); (0, 0); (2, 0); (0, 2); (1, 0); (0, 0)].

(** The object bound by [d = PowerDetector(...)] when the call returns. *)
Definition built (r : result PowerDetector) : PowerDetector :=
  match r with
  | Ok d => d
  | Err _ => mkPowerDetector 0 0 [] 0 0 0 [] []
  end.

(** Buffers of 8 samples, segments of 4 samples, decimation by 2. *)
Definition demo (buff : list complex) (thresh_db : R) (samp : Z)
  : PowerDetector :=
  built (__init__ i0_series buff 4 2 thresh_db samp).

(** The pair bound by [d', y = ...] when a [detect] call returns. *)
Definition called (r : result (PowerDetector * list (list complex)))
  : PowerDetector * list (list complex) :=
  match r with
  | Ok p => p
  | Err _ => (mkPowerDetector 0 0 [] 0 0 0 [] [], [])
  end.

(** The squared magnitude of a sample. *)
Definition sq_mag (z : complex) : R := fst z * fst z + snd z * snd z.

(** Two segments of 8 samples, silence and then a burst of power 2, and
    the same burst held over both segments; the detector for them has
    segments of 8 samples, decimates by 2, and asks for more than one
    decimated sample above 0 dB. *)
Definition burst_buff : list complex := repeat Czero 8 ++ repeat (1, 1) 8.


Definition burst_detector : PowerDetector :=
  built (__init__ i0_series burst_buff 8 2 0 1).

(** ** Line 107 in single precision

    The buffer is a [complex64] array, so that [cp.abs] and [cp.power]
    return [float32] arrays: each rounds its result to 24 bits, to the
    nearest value, ties to even. *)

Module F32.

Import SpecFloat.

(** A [float32] value and a [complex64] sample. *)
Definition float32 : Type := spec_float.
Definition complex64 : Type := (float32 * float32)%type.

(** binary32: 24 bits of mantissa, infinities at exponent 128. *)
Definition prec : Z := 24.
Definition emax : Z := 128.

(** A format wide enough for the sum of two squares of [float32] values to
    be exact. *)
Definition wide_prec : Z := 1024.
Definition wide_emax : Z := 4096.

Definition zero : float32 := S754_zero false.
Definition one : float32 := S754_finite false 8388608 (-23).

(** The product of two [float32] values. *)
Definition mul (a b : float32) : float32 := SFmul prec emax a b.

(** [hypot]: the square root of the exact sum of the squares, rounded
    once; an infinite part gives infinity. *)
Definition hypot (a b : float32) : float32 :=
  match a, b with
  | S754_infinity _, _ | _, S754_infinity _ => S754_infinity false
  | _, _ =>
      SFsqrt prec emax
        (SFadd wide_prec wide_emax (SFmul wide_prec wide_emax a a)
           (SFmul wide_prec wide_emax b b))
  end.

(** [cp.abs] of a [complex64] array, a [float32] array. *)
Definition cp_abs (x : list complex64) : list float32 :=
  map (fun z => hypot (fst z) (snd z)) x.

(** [cp.power(a, 2)] of a [float32] array. *)
Definition cp_power_2 (a : list float32) : list float32 :=
  map (fun v => mul v v) a.

(** Line 107: [x_power = cp.power(cp.abs(x), 2)]. *)
Definition x_power (x : list complex64) : list float32 :=
  cp_power_2 (cp_abs x).

(** The sign bit. *)
Definition signbit (f : float32) : bool :=
  match f with
  | S754_zero s | S754_infinity s | S754_finite s _ _ => s
  | S754_nan => false
  end.

(** The real number a finite value stands for. *)
Definition value (f : float32) : R :=
  match f with
  | S754_finite s m e => (if s then -1 else 1) * IZR (Zpos m) * powerRZ 2 e
  | _ => 0
  end.

(** The sample of the real model a finite [complex64] sample stands for. *)
Definition sample (z : complex64) : complex := (value (fst z), value (snd z)).

End F32.

(** ** The writer of detected segments: [PowerDetectorWriter]

    What the writer does to the file system and to the standard output is a
    log of events, in the order of the calls; what the file system answers
    is a parameter, since the source does not decide it. [num_files] is an
    integer or [float('inf')]. *)

Module Writer.

Import String Ascii.

Inductive limit : Type :=
| Finite (n : Z)
| Infinite.

(** [num_files > 0] *)
Definition positive (l : limit) : bool :=
  match l with
  | Finite n => (0 <? n)%Z
  | Infinite => true
  end.

(** [ctr >= num_files] *)
Definition reaches (ctr : Z) (l : limit) : bool :=
  match l with
  | Finite n => (n <=? ctr)%Z
  | Infinite => false
  end.

Inductive event : Type :=
| MakeDirs (path : string)
| ToFile (path : string) (data : list complex)
| Print (msg : string).

(** The exception of a call on the file system: [OSError] with its
    [errno] (2 is [FileNotFoundError], 13 [PermissionError], 28 a full
    disk), or the [ValueError] of a path with a null character. *)
Inductive io_error : Type :=
| OSError (errno : Z)
| NullCharError.

(** How a call ends when it does not return: [sys.exit], a missing
    attribute, or the exception of a call on the file system. *)
Inductive stop : Type :=
| SystemExit (code : Z)
| AttributeError (name : string)
| Failed (e : io_error).

(** The file system as the writer meets it: the answer to
    [os.makedirs(path, exist_ok=True)] and to [sig.tofile(path)]; [None]
    when the call succeeds, the exception it raises otherwise. *)
Record file_system : Type := mkFs {
  makedirs : string -> option io_error;
  open_w : string -> option io_error
}.

(** [str(n)] of an integer. *)
Definition str (z : Z) : string :=
  DecimalString.NilZero.string_of_int (Z.to_int z).

(** The decimal digits of a natural number. *)
Definition digits (z : Z) : string :=
  DecimalString.NilZero.string_of_uint (N.to_uint (Z.to_N z)).

Fixpoint zeros (k : nat) : string :=
  match k with
  | O => EmptyString
  | S k' => String "0" (zeros k')
  end.

(** Zeros on the left up to a width. *)
Definition zfill (width : nat) (s : string) : string :=
  append (zeros (width - String.length s)) s.

(** ['{:010.0f}'.format(n)] of an integer: no decimals, width 10, zeros
    between the sign and the digits. (The integer goes through a float:
    this is its exact value up to 2^53, the range of the statements
    below.) *)
Definition format_010 (z : Z) : string :=
  if (z <? 0)%Z then String "-" (zfill 9 (digits (- z)))
  else zfill 10 (digits z).

Definition endswith_sep (s : string) : bool :=
  match get (String.length s - 1) s with
  | Some c => Ascii.eqb c "/"
  | None => false
  end.

(** [os.path.join(a, b)] (POSIX). *)
Definition path_join (a b : string) : string :=
  if prefix "/" b then b
  else if (a =? "")%string || endswith_sep a then append a b
  else append a (append "/" b).

(** The attributes set by [__init__] when [num_files > 0]. *)
Record attrs : Type := mkAttrs {
  _output_path : string;
  _label : string;
  _ctr : Z
}.

Record PowerDetectorWriter : Type := mkWriter {
  _num_files : limit;
  _attrs : option attrs
}.

(** [PowerDetectorWriter.__init__]: the object as the constructor leaves it,
    what it did, and the exception of [os.makedirs] when it raises one (the
    attributes are set before the call). *)
Definition __init__ (fs : file_system) (output_path label : string)
  (num_files : limit) : PowerDetectorWriter * list event * option stop :=
  if positive num_files then
    let p := path_join output_path label in
    let self := mkWriter num_files (Some (mkAttrs p label 0)) in
    match makedirs fs p with
    | Some e => (self, [], Some (Failed e))
    | None => (self, [MakeDirs p], None)
    end
  else (mkWriter num_files None, [], None).

(** ['{}_{:010.0f}.bin'.format(label, ctr)] *)
Definition filename (label : string) (ctr : Z) : string :=
  append label (append "_" (append (format_010 ctr) ".bin")).

(** [os.path.join(self._output_path, filename)] for a counter. *)
Definition file_path (a : attrs) (ctr : Z) : string :=
  path_join (_output_path a) (filename (_label a) ctr).

(** The loop of [tofile] from row [i] on, the attributes being set. A write
    that raises ends the call before the counter moves. *)
Fixpoint tofile_from (fs : file_system) (num_files : limit) (a : attrs)
  (len i : Z) (rows : list (list complex))
  : attrs * list event * option stop :=
  match rows with
  | [] => (a, [], None)
  | sig :: rest =>
      let p := file_path a (_ctr a) in
      match open_w fs p with
      | Some e => (a, [], Some (Failed e))
      | None =>
          let w := ToFile p sig in
          let a' := mkAttrs (_output_path a) (_label a) (_ctr a + 1) in
          if reaches (_ctr a') num_files then
            (a', [w; Print (append "File Write counter = "
                              (append (str (_ctr a')) ". Exiting."))],
             Some (SystemExit 0))
          else
            let '(a'', evs, s) := tofile_from fs num_files a' len (i + 1) rest in
            if (i =? len - 1)%Z
            then (a'', w :: Print (append "File Write counter = "
                                     (str (_ctr a')))
                         :: evs, s)
            else (a'', w :: evs, s)
      end
  end.

(** [PowerDetectorWriter.tofile]: the first row met without the attributes
    raises [AttributeError]. *)
Definition tofile (fs : file_system) (self : PowerDetectorWriter)
  (signal_matrix : list (list complex))
  : PowerDetectorWriter * list event * option stop :=
  match signal_matrix with
  | [] => (self, [], None)
  | _ :: _ =>
      match _attrs self with
      | None => (self, [], Some (AttributeError "_label"))
      | Some a =>
          let '(a', evs, s) :=
            tofile_from fs (_num_files self) a
              (Z.of_nat (List.length signal_matrix)) 0 signal_matrix in
          (mkWriter (_num_files self) (Some a'), evs, s)
      end
  end.

(** The files written by a log, in order. *)
Fixpoint files (log : list event) : list (string * list complex) :=
  match log with
  | [] => []
  | ToFile p data :: rest => (p, data) :: files rest
  | _ :: rest => files rest
  end.

(** The messages printed by a log, in order. *)
Fixpoint prints (log : list event) : list string :=
  match log with
  | [] => []
  | Print m :: rest => m :: prints rest
  | _ :: rest => prints rest
  end.

(** The file of counter [c + i] for row [i]. *)
Fixpoint numbered (a : attrs) (c : Z) (rows : list (list complex))
  : list (string * list complex) :=
  match rows with
  | [] => []
  | sig :: rest => (file_path a c, sig) :: numbered a (c + 1) rest
  end.

(** The file system lets the writer write the files of [k] counters from
    [c] on. *)
Definition writable (fs : file_system) (a : attrs) (c : Z) (k : nat) : Prop :=
  forall j : nat, (j < k)%nat -> open_w fs (file_path a (c + Z.of_nat j)) = None.

(** The counters whose ten digits [format_010] prints exactly. *)
Definition exact_counters (c : Z) (k : nat) : Prop :=
  (0 <= c)%Z /\ (c + Z.of_nat k <= 2 ^ 53)%Z.

(** A file system that refuses nothing, and one whose disk is full once the
    file of counter 0 of the label [car] is written. *)
Definition fs_ok : file_system := mkFs (fun _ => None) (fun _ => None).

Definition fs_full : file_system :=
  mkFs (fun _ => None)
       (fun p => if (p =? "recordings/car/car_0000000000.bin")%string
                 then None else Some (OSError 28)).

(** The counter read back from its ten digits. *)
Definition counter_of (s : string) : option N :=
  option_map N.of_uint (DecimalString.NilEmpty.uint_of_string s).

End Writer.

(** ** The plot: [PowerDetectorPlot._get_fill_x_y_color] *)

Module Plot.

Import String.

(** An argument of [Axes.fill]: four coordinates, or a colour. *)
Inductive fill_arg : Type :=
| Quad (a b c d : R)
| Color (c : string).

Definition color_list : list string := ["teal"%string; "#0d4175"%string].

(** [l[k]] with Python's negative indices. *)
Definition py_index {A : Type} (l : list A) (k : Z) : result A :=
  let n := Z.of_nat (List.length l) in
  let k' := if (k <? 0)%Z then (k + n)%Z else k in
  if (k' <? 0)%Z then Err IndexError
  else match nth_error l (Z.to_nat k') with
       | Some v => Ok v
       | None => Err IndexError
       end.

(** [np.arange(0, stop, step)] on integers. *)
Definition arange_step (stop step : Z) : result (list Z) :=
  if (step =? 0)%Z then Err ZeroDivisionError
  else Ok (map (fun i => (i * step)%Z)
             (Np.arange (Z.max 0 (- (- stop / step))))).

(** The loop over the starts of the segments, from segment [i] on. *)
Fixpoint fill_loop (ylims : list R) (seg_len : Z) (x_vals : list R) (i : nat)
  (nst : list Z) : result (list fill_arg) :=
  match nst with
  | [] => Ok []
  | xst :: rest =>
      let xen := (xst + seg_len - 1)%Z in
      x0 <- py_index x_vals xst ;;
      x1 <- py_index x_vals xen ;;
      y0 <- py_index ylims 0 ;;
      y1 <- py_index ylims 1 ;;
      c <- py_index color_list (Z.of_nat i mod 2) ;;
      tl <- fill_loop ylims seg_len x_vals (S i) rest ;;
      Ok (Quad x0 x1 x1 x0 :: Quad y0 y0 y1 y1 :: Color c :: tl)
  end.

(** [PowerDetectorPlot._get_fill_x_y_color] *)
Definition _get_fill_x_y_color (ylims : list R) (buff_len seg_len : Z)
  (x_vals : list R) : result (list fill_arg) :=
  nst <- arange_step buff_len seg_len ;;
  fill_loop ylims seg_len x_vals 0 nst.

(** The three arguments of segment [i]. *)
Definition segment_fill (y0 y1 : R) (seg_len : Z) (x_vals : list R) (i : nat)
  : list fill_arg :=
  let xst := Z.to_nat (Z.of_nat i * seg_len) in
  let xen := Z.to_nat (Z.of_nat i * seg_len + seg_len - 1) in
  [Quad (nth xst x_vals 0) (nth xen x_vals 0) (nth xen x_vals 0) (nth xst x_vals 0);
   Quad y0 y0 y1 y1;
   Color (if Nat.even i then "teal"%string else "#0d4175"%string)].

End Plot.

(** ** The recording loop of [detect_and_record.main]

    The stream is the list of the reads until the interrupt: the return
    code of [readStream] and the content of the buffer after it. The plot
    is off ([pars.visualization] is false). *)

Module Recorder.

Import String.

Definition SOAPY_SDR_OVERFLOW : Z := -4.

Record read : Type := mkRead {
  ret : Z;
  samples : list complex
}.

Inductive ending : Type :=
| Interrupted
| Stopped (s : Writer.stop)
| Raised (e : exn).

Fixpoint main_loop (fs : Writer.file_system) (detr : PowerDetector)
  (writer : Writer.PowerDetectorWriter) (reads : list read)
  : PowerDetector * Writer.PowerDetectorWriter * list Writer.event * ending :=
  match reads with
  | [] => (detr, writer, [], Interrupted)
  | r :: rest =>
      if (ret r =? SOAPY_SDR_OVERFLOW)%Z then
        let '(d, w, evs, e) := main_loop fs detr writer rest in
        (d, w, Writer.Print "O"%string :: evs, e)
      else
        match detect detr (samples r) with
        | Err e => (detr, writer, [], Raised e)
        | Ok (detr', det_signal) =>
            let '(writer', evs, s) := Writer.tofile fs writer det_signal in
            match s with
            | Some st => (detr', writer', evs, Stopped st)
            | None =>
                let '(d, w, evs', e) := main_loop fs detr' writer' rest in
                (d, w, evs ++ evs', e)
            end
        end
  end.

(** The rows a detector returns on a buffer. *)
Definition detected (d : PowerDetector) (x : list complex)
  : list (list complex) :=
  snd (called (detect d x)).

(** The reads that were not dropped. *)
Definition kept (reads : list read) : list read :=
  filter (fun r => negb (ret r =? SOAPY_SDR_OVERFLOW)%Z) reads.

(** The rows detected in the reads that were not dropped, in order. *)
Definition recorded (d0 : PowerDetector) (reads : list read)
  : list (list complex) :=
  List.concat (map (fun r => detected d0 (samples r)) (kept reads)).

End Recorder.

(** ** The error monad *)

Lemma bind_Ok_inv {A B : Type} (m : result A) (k : A -> result B) (b : B) :
  (x <- m ;; k x) = Ok b -> exists a, m = Ok a /\ k a = Ok b.
Proof.
  destruct m as [a|e]; simpl; intros H.
  - exists a. split; [reflexivity | exact H].
  - discriminate H.
Qed.

Lemma Rgtb_true (x y : R) : Rgtb x y = true <-> x > y.
Proof.
  unfold Rgtb. destruct (Rgt_dec x y); split; intros; try easy.
Qed.

Lemma Rgtb_false (x y : R) : Rgtb x y = false <-> x <= y.
Proof.
  unfold Rgtb. destruct (Rgt_dec x y); split; intros; try easy; lra.
Qed.

Lemma Rleb_true (x y : R) : Rleb x y = true <-> x <= y.
Proof.
  unfold Rleb. destruct (Rle_dec x y); split; intros; try easy.
Qed.

Lemma Rleb_false (x y : R) : Rleb x y = false <-> y < x.
Proof.
  unfold Rleb. destruct (Rle_dec x y); split; intros; try easy; lra.
Qed.

(** ** Arrays *)

Module NpFacts.
Import Np.

Lemma zeros_Ok {A : Type} (z : A) (n : Z) (l : list A) :
  zeros z n = Ok l -> (0 <= n)%Z /\ l = repeat z (Z.to_nat n).
Proof.
  unfold zeros. destruct (Z.ltb_spec n 0) as [Hn|Hn]; intros E; inversion E.
  split; [lia | reflexivity].
Qed.

Lemma int_div_Ok (a b q : Z) :
  int_div a b = Ok q -> b <> 0%Z /\ q = Z.quot a b.
Proof.
  unfold int_div. destruct (Z.eqb_spec b 0) as [Hb|Hb]; intros E; inversion E.
  split; [assumption | reflexivity].
Qed.

Lemma chunks_length {A : Type} (k rows : nat) (l : list A) :
  length (chunks k rows l) = rows.
Proof.
  revert l. induction rows as [|r IH]; intros l; simpl; [reflexivity|].
  now rewrite IH.
Qed.

Lemma chunks_rows {A : Type} (k rows : nat) (l : list A) :
  length l = (rows * k)%nat ->
  Forall (fun row => length row = k) (chunks k rows l).
Proof.
  revert l. induction rows as [|r IH]; intros l Hl; simpl; constructor.
  - rewrite length_firstn. simpl in Hl. lia.
  - apply IH. rewrite length_skipn. simpl in Hl. lia.
Qed.

Lemma chunks_concat {A : Type} (k rows : nat) (l : list A) :
  length l = (rows * k)%nat -> concat (chunks k rows l) = l.
Proof.
  revert l. induction rows as [|r IH]; intros l Hl; simpl.
  - simpl in Hl. symmetry. now apply length_zero_iff_nil.
  - rewrite IH.
    + apply firstn_skipn.
    + rewrite length_skipn. simpl in Hl. lia.
Qed.

(** What a successful [reshape] returns. *)
Lemma reshape_Ok {A : Type} (l : list A) (k : Z) (m : list (list A)) :
  reshape l k = Ok m ->
  (0 < k)%Z /\
  (length m * Z.to_nat k = length l)%nat /\
  Forall (fun row => length row = Z.to_nat k) m /\
  concat m = l.
Proof.
  unfold reshape. destruct (Z.leb_spec k 0) as [|Hk]; [discriminate|].
  destruct (Z.eqb_spec (Z.of_nat (length l) mod k) 0) as [Hm|]; [|discriminate].
  intros H. inversion H; subst m; clear H.
  assert (Hlen : (length l / Z.to_nat k * Z.to_nat k = length l)%nat).
  { apply Nat2Z.inj. rewrite Nat2Z.inj_mul, Nat2Z.inj_div, Z2Nat.id by lia.
    apply Z.div_exact in Hm; lia. }
  repeat split.
  - assumption.
  - now rewrite chunks_length.
  - apply chunks_rows. now rewrite Hlen.
  - apply chunks_concat. now rewrite Hlen.
Qed.

(** Whether [reshape] succeeds depends on the size alone. *)
Lemma reshape_shape {A B : Type} (l1 : list A) (l2 : list B) (k : Z) m1 :
  length l1 = length l2 -> reshape l1 k = Ok m1 ->
  exists m2, reshape l2 k = Ok m2 /\ length m2 = length m1.
Proof.
  unfold reshape. intros Hl. rewrite <- Hl.
  destruct (k <=? 0)%Z; [discriminate|].
  destruct (Z.of_nat (length l1) mod k =? 0)%Z; [|discriminate].
  intros H. inversion H; subst. eexists. split; [reflexivity|].
  now rewrite !chunks_length.
Qed.

Lemma assign_slice_length {A : Type} (dst src r : list A) :
  assign_slice dst src = Ok r -> length r = length dst.
Proof.
  unfold assign_slice. destruct (Nat.eqb_spec (length src) (length dst)) as [E|E].
  - intros H. inversion H; subst. exact E.
  - destruct src as [|v [|w src]]; try discriminate.
    intros H. inversion H. apply repeat_length.
Qed.

(** The content after [dst[:] = src]: [src] itself, or its only element at
    every position. *)
Lemma assign_slice_Ok {A : Type} (dst src r : list A) :
  assign_slice dst src = Ok r ->
  r = src \/ exists v, src = [v] /\ r = repeat v (length dst).
Proof.
  unfold assign_slice. destruct (length src =? length dst)%nat.
  - intros H. inversion H. now left.
  - destruct src as [|v [|w src]]; try discriminate.
    intros H. inversion H. right. now exists v.
Qed.

Lemma assign_slice_shape {A B : Type} (dst1 src1 r1 : list A) (dst2 src2 : list B) :
  length dst1 = length dst2 -> length src1 = length src2 ->
  assign_slice dst1 src1 = Ok r1 ->
  exists r2, assign_slice dst2 src2 = Ok r2 /\ length r2 = length r1.
Proof.
  intros Hd Hs H. pose proof (assign_slice_length _ _ _ H) as Hr.
  unfold assign_slice in *. rewrite <- Hd, <- Hs.
  destruct (length src1 =? length dst1)%nat.
  - eexists. split; [reflexivity|]. inversion H; subst. symmetry. exact Hs.
  - destruct src1 as [|v [|w src1]]; try discriminate.
    destruct src2 as [|v2 [|w2 src2]]; try discriminate.
    eexists. split; [reflexivity|]. rewrite repeat_length. lia.
Qed.

Lemma assign_slice_Forall {A : Type} (P : A -> Prop) (dst src r : list A) :
  assign_slice dst src = Ok r -> Forall P src -> Forall P r.
Proof.
  intros H Hs. destruct (assign_slice_Ok _ _ _ H) as [->|[v [-> ->]]].
  - exact Hs.
  - inversion Hs; subst. apply Forall_forall. intros a Ha.
    apply repeat_spec in Ha. now subst.
Qed.

Lemma compress_length {A : Type} (mask : list bool) (rows : list A) :
  (length (compress mask rows) <= length rows)%nat.
Proof.
  revert rows. induction mask as [|b m IH]; intros [|r rs]; simpl; try lia.
  specialize (IH rs). destruct b; simpl; lia.
Qed.

Lemma compress_count {A : Type} (mask : list bool) (rows : list A) :
  length mask = length rows ->
  Z.of_nat (length (compress mask rows)) = count_true mask.
Proof.
  unfold count_true. revert rows.
  induction mask as [|b m IH]; intros [|r rs]; simpl; try discriminate; [reflexivity|].
  intros H. injection H as H'. specialize (IH rs H').
  destruct b; simpl; lia.
Qed.

Lemma compress_Forall {A : Type} (P : A -> Prop) (mask : list bool) (rows : list A) :
  Forall P rows -> Forall P (compress mask rows).
Proof.
  revert rows. induction mask as [|b m IH]; intros [|r rs] H; simpl; try constructor.
  inversion H; subst. destruct b; [constructor|]; auto.
Qed.

Lemma compress_all_false {A : Type} (mask : list bool) (rows : list A) :
  Forall (fun b => b = false) mask -> compress mask rows = [].
Proof.
  revert rows. induction mask as [|b m IH]; intros [|r rs] H; simpl; try reflexivity.
  inversion H; subst. now apply IH.
Qed.

End NpFacts.

(** ** The decimating filter *)

Module CusignalFacts.
Import Cusignal.

Lemma at_index_zero (x : list R) (k : Z) :
  Forall (fun v => v = 0) x -> at_index x k = 0.
Proof.
  intros Hx. unfold at_index. destruct (k <? 0)%Z; [reflexivity|].
  destruct (nth_in_or_default (Z.to_nat k) x 0) as [Hin|E]; [|exact E].
  rewrite Forall_forall in Hx. now apply Hx.
Qed.

Lemma at_index_nonneg (x : list R) (k : Z) :
  Forall (fun v => 0 <= v) x -> 0 <= at_index x k.
Proof.
  intros Hx. unfold at_index. destruct (k <? 0)%Z; [lra|].
  destruct (nth_in_or_default (Z.to_nat k) x 0) as [Hin|E]; [|rewrite E; lra].
  rewrite Forall_forall in Hx. now apply Hx.
Qed.

Lemma fir_sum_zero (h x : list R) (c : Z) :
  Forall (fun v => v = 0) x -> fir_sum h x c = 0.
Proof.
  intros Hx. revert c. induction h as [|t h IH]; intros c; simpl; [reflexivity|].
  rewrite IH, at_index_zero by assumption. ring.
Qed.

Lemma fir_sum_nonneg (h x : list R) (c : Z) :
  Forall (fun t => 0 <= t) h -> Forall (fun v => 0 <= v) x ->
  0 <= fir_sum h x c.
Proof.
  intros Hh Hx. revert c. induction Hh as [|t h Ht Hh IH]; intros c; simpl; [lra|].
  pose proof (at_index_nonneg x c Hx). specialize (IH (c - 1)%Z). nra.
Qed.

(** The decimator fails only on a factor below 1. *)
Lemma decimate_is_ok (x : list R) (q : Z) (h : list R) :
  is_ok (decimate x q h) <-> (1 <= q)%Z.
Proof.
  unfold decimate, resample_poly, is_ok. destruct (Z.ltb_spec q 1) as [Hq|Hq].
  - split; [intros [a Ha]; discriminate | lia].
  - split; [intros _; exact Hq|]. intros _. destruct (q =? 1)%Z; eexists; reflexivity.
Qed.

(** The size of its output depends on the size of the input and on the
    factor alone. *)
Lemma decimate_shape (x1 x2 : list R) (q : Z) (h1 h2 l1 : list R) :
  length x1 = length x2 -> decimate x1 q h1 = Ok l1 ->
  exists l2, decimate x2 q h2 = Ok l2 /\ length l2 = length l1.
Proof.
  unfold decimate, resample_poly. intros Hx. rewrite <- Hx.
  destruct (q <? 1)%Z; [discriminate|].
  destruct (q =? 1)%Z; intros H; inversion H; subst; eexists; (split; [reflexivity|]).
  - now symmetry.
  - now rewrite !length_map.
Qed.

(** An all-zero signal stays all-zero. *)
Lemma decimate_zero (x : list R) (q : Z) (h l : list R) :
  Forall (fun v => v = 0) x -> decimate x q h = Ok l ->
  Forall (fun v => v = 0) l.
Proof.
  unfold decimate, resample_poly. intros Hx.
  destruct (q <? 1)%Z; [discriminate|].
  destruct (q =? 1)%Z; intros H; inversion H; subst; [exact Hx|].
  apply Forall_forall. intros v Hv. apply in_map_iff in Hv as [j [<- _]].
  now apply fir_sum_zero.
Qed.

(** Non-negative taps keep a non-negative signal non-negative. *)
Lemma decimate_nonneg (x : list R) (q : Z) (h l : list R) :
  Forall (fun t => 0 <= t) h -> Forall (fun v => 0 <= v) x ->
  decimate x q h = Ok l -> Forall (fun v => 0 <= v) l.
Proof.
  unfold decimate, resample_poly. intros Hh Hx.
  destruct (q <? 1)%Z; [discriminate|].
  destruct (q =? 1)%Z; intros H; inversion H; subst; [exact Hx|].
  apply Forall_forall. intros v Hv. apply in_map_iff in Hv as [j [<- _]].
  now apply fir_sum_nonneg.
Qed.

End CusignalFacts.

(** ** The detector: one call *)

Section DetectFacts.

Import Np NpFacts Cusignal CusignalFacts.

(** Every stage of a successful [detect] call. *)
Lemma detect_Ok (d : PowerDetector) (x : list complex) d' y :
  detect d x = Ok (d', y) ->
  exists dcm mat x_mat,
    decimate (power x) (_dec d) (_win d) = Ok dcm /\
    assign_slice (_x_power_dec d) dcm = Ok (_x_power_dec d') /\
    reshape (_x_power_dec d') (_seg_len_dec d) = Ok mat /\
    assign_slice (_seg_det_index d)
      (seg_det (_thresh d) (_samp_above_thresh d) mat)
      = Ok (_seg_det_index d') /\
    reshape x (_seg_len d) = Ok x_mat /\
    bool_index x_mat (_seg_det_index d') = Ok y /\
    _seg_len d' = _seg_len d /\ _dec d' = _dec d /\ _win d' = _win d /\
    _seg_len_dec d' = _seg_len_dec d /\ _thresh d' = _thresh d /\
    _samp_above_thresh d' = _samp_above_thresh d.
Proof.
  unfold detect. intros H.
  apply bind_Ok_inv in H as [dcm [H1 H]].
  apply bind_Ok_inv in H as [xpd [H2 H]].
  apply bind_Ok_inv in H as [mat [H3 H]].
  apply bind_Ok_inv in H as [sdi [H4 H]].
  apply bind_Ok_inv in H as [x_mat [H5 H]].
  apply bind_Ok_inv in H as [y0 [H6 H]].
  inversion H; subst; clear H. simpl.
  exists dcm, mat, x_mat. repeat split; assumption.
Qed.

(** A call keeps the configuration and the sizes of the working buffers. *)
Lemma detect_same_shape (d : PowerDetector) (x : list complex) d' y :
  detect d x = Ok (d', y) -> same_shape d d' /\ _thresh d' = _thresh d.
Proof.
  intros H. apply detect_Ok in H
    as (dcm & mat & x_mat & _ & H2 & _ & H4 & _ & _ & E1 & E2 & E3 & E4 & E5 & E6).
  apply assign_slice_length in H2, H4.
  unfold same_shape. repeat split; congruence.
Qed.

Lemma seg_det_length (t : R) (s : Z) (mat : list (list R)) :
  length (seg_det t s mat) = length mat.
Proof. unfold seg_det, sum_axis1. now rewrite !length_map. Qed.

(** Whether a call succeeds depends on the sizes alone: not on the samples,
    not on the threshold, not on the content of the working buffers. *)
Lemma detect_shape (d1 d2 : PowerDetector) (x1 x2 : list complex) :
  same_shape d1 d2 -> length x1 = length x2 ->
  is_ok (detect d1 x1) -> is_ok (detect d2 x2).
Proof.
  intros (S1 & S2 & S3 & S4 & S5 & S6 & S7) Hx [[d1' y1] H].
  apply detect_Ok in H
    as (dcm & mat & x_mat & H1 & H2 & H3 & H4 & H5 & H6 & _).
  unfold detect, is_ok.
  destruct (decimate_shape (power x1) (power x2) (_dec d1) (_win d1) (_win d2) dcm)
    as [dcm2 [K1 L1]]; [unfold power; now rewrite !length_map | assumption |].
  rewrite <- S2, K1. simpl.
  destruct (assign_slice_shape _ _ _ (_x_power_dec d2) dcm2 S6 (eq_sym L1) H2)
    as [xpd2 [K2 L2]].
  rewrite K2. simpl.
  destruct (reshape_shape _ xpd2 _ _ (eq_sym L2) H3) as [mat2 [K3 L3]].
  rewrite <- S4, K3. simpl.
  assert (L3' : length (seg_det (_thresh d1) (_samp_above_thresh d1) mat)
                = length (seg_det (_thresh d2) (_samp_above_thresh d2) mat2))
    by (rewrite !seg_det_length; now symmetry).
  destruct (assign_slice_shape _ _ _ (_seg_det_index d2) _ S7 L3' H4)
    as [sdi2 [K4 L4]].
  rewrite K4. simpl.
  destruct (reshape_shape _ x2 _ _ Hx H5) as [xm2 [K5 L5]].
  rewrite <- S1, K5. simpl.
  unfold bool_index in *.
  destruct (Nat.eqb_spec (length (_seg_det_index d1')) (length x_mat)) as [E|E];
    [|discriminate].
  replace (length sdi2 =? length xm2)%nat with true.
  - simpl. eexists. reflexivity.
  - symmetry. apply Nat.eqb_eq. congruence.
Qed.

End DetectFacts.

(** ** Construction and the reachable detectors *)

Section InitFacts.

Import Np NpFacts Cusignal CusignalFacts.

Variable i0 : R -> R.

Lemma check_samp_above_thresh_Ok (seg_len dec samp : Z) (u : unit) :
  check_samp_above_thresh seg_len dec samp = Ok u ->
  dec <> 0%Z /\ IZR samp <= IZR seg_len / IZR dec.
Proof.
  unfold check_samp_above_thresh. destruct (Z.eqb_spec dec 0) as [|Hd]; [discriminate|].
  destruct (Rleb (IZR samp) (IZR seg_len / IZR dec)) eqn:E; [|discriminate].
  intros _. split; [exact Hd | now apply Rleb_true].
Qed.

(** Every step of a successful construction. *)
Lemma init_Ok (buff : list complex) (seg_len dec : Z) (thresh_db : R)
  (samp : Z) (d : PowerDetector) :
  __init__ i0 buff seg_len dec thresh_db samp = Ok d ->
  dec <> 0%Z /\ seg_len <> 0%Z /\
  IZR samp <= IZR seg_len / IZR dec /\
  exists win y,
    _create_fir_filter_window i0 dec = Ok win /\
    detect (fresh buff seg_len dec win thresh_db samp) buff = Ok (d, y).
Proof.
  unfold __init__, init_body. intros H.
  apply bind_Ok_inv in H as [u [H0 H]].
  apply check_samp_above_thresh_Ok in H0 as [Hd Hs].
  apply bind_Ok_inv in H as [win [H1 H]].
  apply bind_Ok_inv in H as [sd [H2 H]].
  apply bind_Ok_inv in H as [nd [H3 H]].
  apply bind_Ok_inv in H as [xpd [H4 H]].
  apply bind_Ok_inv in H as [ns [H5 H]].
  apply bind_Ok_inv in H as [sdi [H6 H]].
  apply bind_Ok_inv in H as [[d1 y] [H7 H]].
  apply int_div_Ok in H2 as [_ ->], H3 as [_ ->], H5 as [Hsl ->].
  apply zeros_Ok in H4 as [_ ->], H6 as [_ ->].
  inversion H; subst; clear H. simpl.
  repeat split; try assumption.
  exists win, y. split; [assumption | exact H7].
Qed.

(** What holds of every reachable detector: its configuration is the one
    given to [__init__], and [detect] succeeds on every buffer as long as the
    buffer of the construction. *)
Lemma reachable_inv (buff : list complex) (seg_len dec : Z) (thresh_db : R)
  (samp : Z) (d : PowerDetector) :
  reachable i0 buff seg_len dec thresh_db samp d ->
  _seg_len d = seg_len /\ _dec d = dec /\
  _create_fir_filter_window i0 dec = Ok (_win d) /\
  _seg_len_dec d = Z.quot seg_len dec /\
  _thresh d = Rpower 10 (thresh_db / 10) /\
  _samp_above_thresh d = samp /\
  dec <> 0%Z /\
  IZR samp <= IZR seg_len / IZR dec /\
  (forall x, length x = length buff -> is_ok (detect d x)).
Proof.
  induction 1 as [d H | d x d' y Hr IH H].
  - apply init_Ok in H as (Hd & Hsl & Hs & win & y & Hw & H).
    destruct (detect_same_shape _ _ _ _ H) as [S Ht].
    pose proof S as (S1 & S2 & S3 & S4 & S5 & _).
    simpl in *. rewrite <- S1, <- S2, <- S3, <- S4, <- S5, Ht.
    repeat split; try assumption; try reflexivity.
    intros x Hx. eapply detect_shape; [exact S | symmetry; exact Hx |].
    eexists; exact H.
  - destruct IH as (I1 & I2 & I3 & I4 & I5 & I6 & I7 & I8 & I9).
    destruct (detect_same_shape _ _ _ _ H) as [S Ht].
    pose proof S as (S1 & S2 & S3 & S4 & S5 & _).
    rewrite <- S1, <- S2, <- S3, <- S4, <- S5, Ht.
    repeat split; try assumption.
    intros x' Hx'. eapply detect_shape; [exact S | reflexivity | now apply I9].
Qed.

End InitFacts.

(** ** The filter kernel *)

Section WindowFacts.

Import Np NpFacts Cusignal.

Variable i0 : R -> R.

Lemma In_arange (n k : Z) : In k (arange n) <-> (0 <= k < n)%Z.
Proof.
  unfold arange. rewrite in_map_iff. split.
  - intros [j [<- Hj]]. apply in_seq in Hj. lia.
  - intros Hk. exists (Z.to_nat k). split; [lia|]. apply in_seq. lia.
Qed.

Lemma arange_length (n : Z) : length (arange n) = Z.to_nat n.
Proof. unfold arange. now rewrite length_map, length_seq. Qed.

Lemma mul_map {A : Type} (f g : A -> R) (l : list A) :
  mul (map f l) (map g l) = map (fun a => f a * g a) l.
Proof.
  unfold mul. induction l as [|a l IH]; simpl; [reflexivity|]. now rewrite IH.
Qed.

Lemma kaiser_length (M : Z) (beta : R) (w : list R) :
  kaiser i0 M beta = Ok w -> length w = Z.to_nat M.
Proof.
  unfold kaiser. destruct (M <? 0)%Z; [discriminate|].
  destruct (M <=? 1)%Z; intros H; inversion H.
  - apply repeat_length.
  - now rewrite length_map, arange_length.
Qed.

(** [firwin] returns as many taps as it is asked for. *)
Lemma firwin_length (numtaps : Z) (cutoff beta : R) (h : list R) :
  firwin i0 numtaps cutoff beta = Ok h -> length h = Z.to_nat numtaps.
Proof.
  unfold firwin. destruct (Rleb cutoff 0); [discriminate|].
  destruct (Rleb 1 cutoff); [discriminate|]. intros H.
  apply bind_Ok_inv in H as [w [Hw H]]. inversion H; subst; clear H.
  apply kaiser_length in Hw.
  unfold mul. rewrite !length_map, length_combine, !length_map, arange_length, Hw.
  apply Nat.min_id.
Qed.

(** [firwin] rejects a cutoff outside of the open interval (0, 1). *)
Lemma firwin_cutoff (numtaps : Z) (cutoff beta : R) :
  cutoff <= 0 \/ 1 <= cutoff -> firwin i0 numtaps cutoff beta = Err ValueError.
Proof.
  unfold firwin. intros [H|H].
  - apply Rleb_true in H. now rewrite H.
  - apply Rleb_true in H. rewrite H. now destruct (Rleb cutoff 0).
Qed.

Lemma IZR_dec_pos (dec : Z) : (2 <= dec)%Z -> 2 <= IZR dec.
Proof. intros H. now apply IZR_le in H. Qed.

(** The kernel of the source is the Kaiser-windowed low-pass filter of the
    specification. *)
Lemma create_fir_filter_window_design (dec : Z) :
  (2 <= dec)%Z ->
  _create_fir_filter_window i0 dec = Ok (kaiser_lowpass i0 dec).
Proof.
  intros Hd. pose proof (IZR_dec_pos dec Hd) as Hr.
  unfold _create_fir_filter_window.
  destruct (Z.eqb_spec dec 0) as [|_]; [lia|].
  assert (Hc : 0 < 1 / IZR dec < 1).
  { split.
    - apply Rdiv_lt_0_compat; lra.
    - apply Rmult_lt_reg_r with (IZR dec); [lra|]. field_simplify; lra. }
  unfold firwin.
  replace (Rleb (1 / IZR dec) 0) with false by (symmetry; apply Rleb_false; lra).
  replace (Rleb 1 (1 / IZR dec)) with false by (symmetry; apply Rleb_false; lra).
  unfold kaiser.
  destruct (Z.ltb_spec (2 * dec + 1) 0) as [|_]; [lia|].
  destruct (Z.leb_spec (2 * dec + 1) 1) as [|_]; [lia|].
  cbv beta iota zeta delta [bind].
  rewrite !map_map, !mul_map.
  assert (Ha : 0.5 * (IZR (2 * dec + 1) - 1) = IZR dec)
    by (rewrite plus_IZR, mult_IZR; lra).
  assert (Hb : (IZR (2 * dec + 1) - 1) / 2 = IZR dec)
    by (rewrite plus_IZR, mult_IZR; lra).
  rewrite Ha, Hb. unfold kaiser_lowpass.
  assert (E : forall n : Z,
             (1 / IZR dec * sinc (1 / IZR dec * (IZR n - IZR dec))
              - 0 * sinc (0 * (IZR n - IZR dec)))
             * (i0 (0.5 * sqrt (1 - ((IZR n - IZR dec) / IZR dec) ^ 2)) / i0 0.5)
             = lowpass_tap i0 dec n).
  { intros n. unfold lowpass_tap. cbv zeta. ring. }
  f_equal. rewrite (map_ext _ _ E).
  apply map_ext. intros v. f_equal. f_equal.
  apply map_ext. intros n. rewrite E.
  replace (PI * (IZR n - IZR dec) * 0) with 0 by ring. rewrite cos_0. ring.
Qed.

(** The generation of the kernel, case by case. *)
Lemma create_fir_filter_window_cases (dec : Z) :
  _create_fir_filter_window i0 dec =
  if (dec =? 0)%Z then Err ZeroDivisionError
  else if (dec <=? 1)%Z then Err ValueError
  else Ok (kaiser_lowpass i0 dec).
Proof.
  destruct (Z.eqb_spec dec 0) as [->|H0]; [reflexivity|].
  destruct (Z.leb_spec dec 1) as [H1|H1].
  - unfold _create_fir_filter_window.
    destruct (Z.eqb_spec dec 0) as [|_]; [contradiction|].
    apply firwin_cutoff.
    destruct (Z.eq_dec dec 1) as [->|Hn].
    + right. lra.
    + left. assert (Hneg : IZR dec <= -1) by (apply IZR_le; lia).
      unfold Rdiv. rewrite Rmult_1_l.
      apply Rlt_le, Rinv_lt_0_compat. lra.
  - rewrite create_fir_filter_window_design by lia.
    destruct (Z.eqb_spec dec 0); [contradiction | reflexivity].
Qed.

Lemma kaiser_lowpass_length (dec : Z) :
  length (kaiser_lowpass i0 dec) = Z.to_nat (2 * dec + 1).
Proof. unfold kaiser_lowpass. now rewrite !length_map, arange_length. Qed.

End WindowFacts.

(** ** The sign of the taps *)

Section TapSign.

Import Np NpFacts Cusignal.

Variable i0 : R -> R.
Hypothesis i0_pos : forall x, 0 < i0 x.

(** [sinc] has no negative value before its first zeros. *)
Lemma sinc_nonneg (x : R) : -1 <= x <= 1 -> 0 <= sinc x.
Proof.
  intros [Hl Hu]. unfold sinc. destruct (Req_dec_T x 0) as [|Hx]; [lra|].
  pose proof PI_RGT_0 as Hpi.
  destruct (Rlt_le_dec 0 x) as [Hp|Hn].
  - assert (0 <= sin (PI * x)) by (apply sin_ge_0; nra).
    apply Rmult_le_pos; [assumption|]. apply Rlt_le, Rinv_0_lt_compat. nra.
  - assert (Hx' : x < 0) by lra.
    assert (Hs : 0 <= sin (PI * - x)) by (apply sin_ge_0; nra).
    replace (PI * - x) with (- (PI * x)) in Hs by ring. rewrite sin_neg in Hs.
    replace (sin (PI * x) / (PI * x)) with ((- sin (PI * x)) * / (- (PI * x))).
    + apply Rmult_le_pos; [lra|]. apply Rlt_le, Rinv_0_lt_compat. nra.
    + field. nra.
Qed.

Lemma sum_nonneg (l : list R) : Forall (fun v => 0 <= v) l -> 0 <= sum l.
Proof. induction 1 as [|v l Hv _ IH]; simpl; lra. Qed.

Lemma sum_ge_member (l : list R) (v : R) :
  Forall (fun v => 0 <= v) l -> In v l -> v <= sum l.
Proof.
  induction 1 as [|w l Hw Hl IH]; simpl; [contradiction|].
  pose proof (sum_nonneg l Hl). intros [->|Hin]; [lra|].
  specialize (IH Hin). lra.
Qed.

Lemma lowpass_tap_nonneg (dec n : Z) :
  (2 <= dec)%Z -> (0 <= n < 2 * dec + 1)%Z -> 0 <= lowpass_tap i0 dec n.
Proof.
  intros Hd Hn. pose proof (IZR_dec_pos dec Hd) as Hr. unfold lowpass_tap. cbv zeta.
  assert (H0 : 0 <= IZR n) by (apply IZR_le; lia).
  assert (H1 : IZR n <= 2 * IZR dec).
  { replace (2 * IZR dec) with (IZR (2 * dec)) by (rewrite mult_IZR; reflexivity).
    apply IZR_le. lia. }
  assert (Hc : 0 < 1 / IZR dec) by (apply Rdiv_lt_0_compat; lra).
  assert (Hs : 0 <= sinc (1 / IZR dec * (IZR n - IZR dec))).
  { apply sinc_nonneg.
    replace (1 / IZR dec * (IZR n - IZR dec)) with ((IZR n - IZR dec) / IZR dec)
      by (field; lra).
    split.
    - apply Rmult_le_reg_r with (IZR dec); [lra|]. field_simplify; lra.
    - apply Rmult_le_reg_r with (IZR dec); [lra|]. field_simplify; lra. }
  assert (Hw : 0 < i0 (0.5 * sqrt (1 - ((IZR n - IZR dec) / IZR dec) ^ 2)) / i0 0.5)
    by (apply Rdiv_lt_0_compat; apply i0_pos).
  apply Rmult_le_pos; [apply Rmult_le_pos|]; lra.
Qed.

Lemma lowpass_tap_centre (dec : Z) : (2 <= dec)%Z -> 0 < lowpass_tap i0 dec dec.
Proof.
  intros Hd. pose proof (IZR_dec_pos dec Hd) as Hr. unfold lowpass_tap. cbv zeta.
  replace (IZR dec - IZR dec) with 0 by ring.
  rewrite Rmult_0_r. unfold sinc. destruct (Req_dec_T 0 0) as [_|N]; [|contradiction].
  assert (Hc : 0 < 1 / IZR dec) by (apply Rdiv_lt_0_compat; lra).
  assert (Hw : 0 < i0 (0.5 * sqrt (1 - (0 / IZR dec) ^ 2)) / i0 0.5)
    by (apply Rdiv_lt_0_compat; apply i0_pos).
  apply Rmult_lt_0_compat; [|assumption]. lra.
Qed.

(** With a cutoff of [1 / dec] on [2 * dec + 1] taps the ideal response is
    sampled between its first zeros only: no tap of the kernel is
    negative. *)
Lemma kaiser_lowpass_nonneg (dec : Z) :
  (2 <= dec)%Z -> Forall (fun t => 0 <= t) (kaiser_lowpass i0 dec).
Proof.
  intros Hd. unfold kaiser_lowpass. cbv zeta.
  set (h := map (lowpass_tap i0 dec) (arange (2 * dec + 1))).
  assert (Hh : Forall (fun v => 0 <= v) h).
  { apply Forall_forall. intros v Hv. apply in_map_iff in Hv as [n [<- Hn]].
    apply In_arange in Hn. now apply lowpass_tap_nonneg. }
  assert (Hs : 0 < sum h).
  { apply Rlt_le_trans with (lowpass_tap i0 dec dec);
      [now apply lowpass_tap_centre|].
    apply sum_ge_member; [exact Hh|].
    apply in_map. apply In_arange. lia. }
  apply Forall_forall. intros t Ht. apply in_map_iff in Ht as [v [<- Hv]].
  rewrite Forall_forall in Hh. specialize (Hh v Hv).
  apply Rmult_le_pos; [assumption|]. now apply Rlt_le, Rinv_0_lt_compat.
Qed.

(** The kernel of every detector that was built has no negative tap. *)
Lemma create_fir_filter_window_nonneg (dec : Z) (w : list R) :
  _create_fir_filter_window i0 dec = Ok w -> Forall (fun t => 0 <= t) w.
Proof.
  rewrite create_fir_filter_window_cases.
  destruct (dec =? 0)%Z; [discriminate|].
  destruct (Z.leb_spec dec 1) as [Hd|Hd]; [discriminate|].
  intros E. inversion E. apply kaiser_lowpass_nonneg. lia.
Qed.

End TapSign.

(** ** Construction succeeds on a valid configuration *)

Section InitSucceeds.

Import Np NpFacts Cusignal CusignalFacts.

Variable i0 : R -> R.

Lemma decimate_exact (x : list R) (q : Z) (h : list R) :
  (1 <= q)%Z -> (Z.of_nat (length x) mod q = 0)%Z ->
  exists l, decimate x q h = Ok l /\
            Z.of_nat (length l) = (Z.of_nat (length x) / q)%Z.
Proof.
  intros Hq Hm. unfold decimate, resample_poly.
  destruct (Z.ltb_spec q 1) as [|_]; [lia|].
  destruct (Z.eqb_spec q 1) as [->|Hq1].
  - eexists. split; [reflexivity|]. now rewrite Z.div_1_r.
  - eexists. split; [reflexivity|].
    rewrite Hm. simpl Z.eqb. cbv iota.
    rewrite length_map. unfold arange. rewrite length_map, length_seq, Z.add_0_r.
    apply Z2Nat.id. apply Z.div_pos; lia.
Qed.

Lemma assign_slice_same {A : Type} (dst src : list A) :
  length src = length dst -> assign_slice dst src = Ok src.
Proof. intros H. unfold assign_slice. now rewrite H, Nat.eqb_refl. Qed.

Lemma reshape_exact {A : Type} (l : list A) (k : Z) :
  (0 < k)%Z -> (Z.of_nat (length l) mod k = 0)%Z ->
  exists m, reshape l k = Ok m /\
            Z.of_nat (length m) = (Z.of_nat (length l) / k)%Z.
Proof.
  intros Hk Hm. unfold reshape.
  destruct (Z.leb_spec k 0) as [|_]; [lia|].
  rewrite Hm. simpl Z.eqb. cbv iota.
  eexists. split; [reflexivity|].
  rewrite chunks_length, Nat2Z.inj_div, Z2Nat.id by lia. reflexivity.
Qed.

(** [detect] succeeds when the sizes fit: the decimation factor divides the
    segment length, the segment length divides the buffer length, and the
    working buffers have one entry per decimated sample and per segment. *)
Lemma detect_succeeds (d : PowerDetector) (x : list complex) (k m : Z) :
  (1 <= _dec d)%Z -> (1 <= k)%Z -> (0 <= m)%Z ->
  _seg_len_dec d = k ->
  _seg_len d = (_dec d * k)%Z ->
  Z.of_nat (length x) = (_seg_len d * m)%Z ->
  Z.of_nat (length (_x_power_dec d)) = (k * m)%Z ->
  Z.of_nat (length (_seg_det_index d)) = m ->
  is_ok (detect d x).
Proof.
  intros Hd Hk Hm Ek Es Ex Ep Ei. unfold detect, is_ok.
  assert (Hx : Z.of_nat (length (power x)) = (_dec d * (k * m))%Z).
  { unfold power. rewrite length_map, Ex, Es. ring. }
  destruct (decimate_exact (power x) (_dec d) (_win d) Hd) as [dcm [K1 L1]].
  { rewrite Hx, Z.mul_comm. apply Z_mod_mult. }
  rewrite K1. simpl.
  assert (L1' : Z.of_nat (length dcm) = (k * m)%Z).
  { rewrite L1, Hx, Z.mul_comm. apply Z_div_mult. lia. }
  rewrite assign_slice_same by lia. simpl.
  destruct (reshape_exact dcm (_seg_len_dec d)) as [mat [K3 L3]];
    [lia | rewrite L1', Ek, Z.mul_comm; apply Z_mod_mult |].
  rewrite K3. simpl.
  assert (L3' : Z.of_nat (length mat) = m).
  { rewrite L3, L1', Ek, Z.mul_comm. apply Z_div_mult. lia. }
  rewrite assign_slice_same by (rewrite seg_det_length; lia). simpl.
  destruct (reshape_exact x (_seg_len d)) as [xm [K5 L5]];
    [nia | rewrite Ex, Z.mul_comm; apply Z_mod_mult |].
  rewrite K5. simpl.
  assert (L5' : Z.of_nat (length xm) = m).
  { rewrite L5, Ex, Z.mul_comm. apply Z_div_mult. nia. }
  unfold bool_index. rewrite seg_det_length.
  replace (length mat =? length xm)%nat with true
    by (symmetry; apply Nat.eqb_eq; lia).
  eexists. reflexivity.
Qed.

(** [__init__] succeeds when the decimation factor is at least 2 and divides
    the segment length, the segment length divides the buffer length, and
    the assertion holds. *)
Lemma init_succeeds (buff : list complex) (seg_len dec : Z) (thresh_db : R)
  (samp k m : Z) :
  (2 <= dec)%Z -> (1 <= k)%Z -> (0 <= m)%Z ->
  seg_len = (dec * k)%Z ->
  Z.of_nat (length buff) = (seg_len * m)%Z ->
  IZR samp <= IZR seg_len / IZR dec ->
  is_ok (__init__ i0 buff seg_len dec thresh_db samp).
Proof.
  intros Hd Hk Hm Es Eb Ha.
  unfold __init__, check_samp_above_thresh.
  destruct (Z.eqb_spec dec 0) as [|_]; [lia|].
  apply Rleb_true in Ha. rewrite Ha. simpl bind.
  unfold init_body. rewrite create_fir_filter_window_cases.
  destruct (Z.eqb_spec dec 0) as [|_]; [lia|].
  destruct (Z.leb_spec dec 1) as [|_]; [lia|].
  unfold int_div.
  destruct (Z.eqb_spec dec 0) as [|_]; [lia|].
  destruct (Z.eqb_spec seg_len 0) as [|_]; [nia|].
  cbv beta iota delta [bind].
  assert (Q1 : Z.quot (Z.of_nat (length buff)) dec = (k * m)%Z).
  { rewrite Z.quot_div_nonneg by lia. rewrite Eb, Es.
    replace (dec * k * m)%Z with (k * m * dec)%Z by ring. apply Z_div_mult. lia. }
  assert (Q2 : Z.quot (Z.of_nat (length buff)) seg_len = m).
  { rewrite Z.quot_div_nonneg by nia. rewrite Eb, Z.mul_comm. apply Z_div_mult. nia. }
  assert (Q3 : Z.quot seg_len dec = k).
  { rewrite Z.quot_div_nonneg by nia. rewrite Es, Z.mul_comm. apply Z_div_mult. lia. }
  unfold zeros.
  destruct (Z.ltb_spec (Z.quot (Z.of_nat (length buff)) dec) 0) as [|_]; [nia|].
  destruct (Z.ltb_spec (Z.quot (Z.of_nat (length buff)) seg_len) 0) as [|_]; [lia|].
  set (d0 := mkPowerDetector _ _ _ _ _ _ _ _).
  destruct (detect_succeeds d0 buff k m) as [[d y] Hdet];
    subst d0; simpl; try lia; try assumption.
  - rewrite repeat_length, Q1. apply Z2Nat.id. nia.
  - rewrite repeat_length, Q2. apply Z2Nat.id. lia.
  - rewrite Hdet. eexists. reflexivity.
Qed.

End InitSucceeds.

(** ** The examples are well formed *)

Lemma i0_series_pos (x : R) : 0 < i0_series x.
Proof.
  unfold i0_series.
  assert (0 <= (x / 2) ^ 2) by (apply pow2_ge_0).
  assert (0 <= (x / 2) ^ 4) by (replace ((x / 2) ^ 4) with (((x / 2) ^ 2) ^ 2) by ring;
                                 apply pow2_ge_0).
  lra.
Qed.

Lemma demo_init (buff : list complex) (thresh_db : R) (samp : Z) :
  length buff = 8%nat -> (samp <= 2)%Z ->
  __init__ i0_series buff 4 2 thresh_db samp = Ok (demo buff thresh_db samp).
Proof.
  intros Hb Hs.
  destruct (init_succeeds i0_series buff 4 2 thresh_db samp 2 2) as [d Hd];
    try lia.
  - apply IZR_le in Hs. lra.
  - unfold demo. now rewrite Hd.
Qed.

Lemma demo_reachable (buff : list complex) (thresh_db : R) (samp : Z) :
  length buff = 8%nat -> (samp <= 2)%Z ->
  reachable i0_series buff 4 2 thresh_db samp (demo buff thresh_db samp).
Proof. intros Hb Hs. apply reach_init. now apply demo_init. Qed.

(** ** The claims *)

Section Claims.

Import Np NpFacts Cusignal CusignalFacts.

Lemma compress_rows_where_from {A : Type} (mask : list bool)
  (rows : list (list A)) (off : nat) :
  length mask = length rows ->
  compress mask rows =
  map (fun i => nth (i - off) rows [])
      (filter (fun i => nth (i - off) mask false) (seq off (length rows))).
Proof.
  revert rows off. induction mask as [|b m IH]; intros [|r rs] off Hl;
    try discriminate; [reflexivity|].
  injection Hl as Hl.
  change (seq off (length (r :: rs))) with (off :: seq (S off) (length rs)).
  assert (Et : filter (fun i => nth (i - off) (b :: m) false)
                 (seq (S off) (length rs))
               = filter (fun i => nth (i - S off) m false)
                   (seq (S off) (length rs))).
  { apply filter_ext_in. intros i Hi. apply in_seq in Hi.
    replace (i - off)%nat with (S (i - S off)) by lia. reflexivity. }
  assert (Em : map (fun i => nth (i - off) (r :: rs) [])
                 (filter (fun i => nth (i - S off) m false)
                    (seq (S off) (length rs)))
               = compress m rs).
  { rewrite (IH rs (S off) Hl). apply map_ext_in. intros i Hi.
    apply filter_In in Hi as [Hi _]. apply in_seq in Hi.
    replace (i - off)%nat with (S (i - S off)) by lia. reflexivity. }
  cbn [filter]. rewrite Et, Nat.sub_diag.
  change (nth 0 (b :: m) false) with b.
  change (compress (b :: m) (r :: rs))
    with (if b then r :: compress m rs else compress m rs).
  destruct b.
  - rewrite map_cons, Em. cbn beta. rewrite Nat.sub_diag. reflexivity.
  - symmetry. exact Em.
Qed.

(** [compress] keeps the rows at the flagged positions, in their order. *)
Lemma compress_rows_where {A : Type} (mask : list bool) (rows : list (list A)) :
  length mask = length rows -> compress mask rows = rows_where mask rows.
Proof.
  intros H. rewrite (compress_rows_where_from mask rows 0 H). unfold rows_where.
  rewrite (map_ext (fun i => nth (i - 0) rows []) (fun i => nth i rows []))
    by (intros; now rewrite Nat.sub_0_r).
  f_equal. apply filter_ext. intros i. now rewrite Nat.sub_0_r.
Qed.

(** The sign of a rounded value is the sign given to the rounding. *)
Lemma binary_round_aux_sign (prec emax : Z) (s : bool) (m e : Z)
  (l : SpecFloat.location) :
  F32.signbit (SpecFloat.binary_round_aux prec emax s m e l) = s \/
  SpecFloat.binary_round_aux prec emax s m e l = SpecFloat.S754_nan.
Proof.
  unfold SpecFloat.binary_round_aux.
  destruct (SpecFloat.shr_fexp prec emax m e l) as [mrs' e'].
  destruct (SpecFloat.shr_fexp prec emax _ e' SpecFloat.loc_Exact) as [mrs'' e''].
  destruct (SpecFloat.shr_m mrs''); [now left | | now right].
  destruct (Z.leb e'' (emax - prec)); now left.
Qed.

(** A square in single precision is never negative. *)
Lemma square_signbit (v : F32.float32) : F32.signbit (F32.mul v v) = false.
Proof.
  destruct v as [s|s| |s m e]; simpl; try apply xorb_nilpotent; try reflexivity.
  unfold F32.mul. simpl. rewrite xorb_nilpotent.
  destruct (binary_round_aux_sign F32.prec F32.emax false (Z.pos (m * m)) (e + e)
              SpecFloat.loc_Exact) as [H|H].
  - exact H.
  - now rewrite H.
Qed.

(** The power of a zero sample, whatever the signs of its zeros. *)
Lemma x_power_zeros (s1 s2 : bool) (n : nat) :
  F32.x_power (repeat (SpecFloat.S754_zero s1, SpecFloat.S754_zero s2) n)
  = repeat F32.zero n.
Proof.
  induction n as [|n IH]; [reflexivity|].
  change (repeat ?a (S n)) with (a :: repeat a n).
  unfold F32.x_power, F32.cp_power_2, F32.cp_abs in *. cbn [map]. rewrite IH.
  f_equal. destruct s1, s2; vm_compute; reflexivity.
Qed.

(** The power of [1 + 1j]: the magnitude is [sqrt 2] rounded to
    [11863283 / 2^23], and its square rounds to [16777215 / 2^23]. *)
Lemma x_power_one_plus_i :
  F32.x_power [(F32.one, F32.one)]
  = [SpecFloat.S754_finite false 16777215 (-23)].
Proof. vm_compute. reflexivity. Qed.

Lemma value_2_pow_m23 : powerRZ 2 (-23) = / 8388608.
Proof. unfold powerRZ. f_equal. simpl. lra. Qed.

(** C2. Line 107 in the single precision of the buffer: the power estimator
    returns one value per sample, the square of the magnitude of the
    sample, the magnitude and the square each rounded to single precision;
    the value is never negative, and it is exactly zero for a zero sample.
    In exact arithmetic the same line gives [I * I + Q * Q] for every
    sample, and this is the signal [detect] feeds to the decimating
    filter. *)
Theorem power_is_squared_magnitude :
  (forall x : list F32.complex64,
     length (F32.x_power x) = length x /\
     F32.x_power x
     = map (fun z => F32.mul (F32.hypot (fst z) (snd z))
                       (F32.hypot (fst z) (snd z))) x /\
     Forall (fun v => F32.signbit v = false) (F32.x_power x)) /\
  (forall (s1 s2 : bool) (n : nat),
     F32.x_power (repeat (SpecFloat.S754_zero s1, SpecFloat.S754_zero s2) n)
     = repeat F32.zero n) /\
  (forall x : list complex,
     length (power x) = length x /\
     power x = map sq_mag x /\
     sq_mag Czero = 0 /\
     (forall n, power (repeat Czero n) = repeat 0 n) /\
     (forall d d' y, detect d x = Ok (d', y) ->
        exists dcm, decimate (map sq_mag x) (_dec d) (_win d) = Ok dcm)).
Proof.
  split; [|split; [exact x_power_zeros|]].
  - intros x. unfold F32.x_power, F32.cp_power_2, F32.cp_abs.
    rewrite map_map. split; [apply length_map|]. split; [reflexivity|].
    apply Forall_forall. intros v Hv.
    apply in_map_iff in Hv as [z [<- _]]. apply square_signbit.
  - intros x.
    assert (Esq : forall z, Cabs z ^ 2 = sq_mag z).
    { intros [a b]. unfold Cabs, sq_mag. simpl fst. simpl snd.
      rewrite <- Rsqr_pow2. apply Rsqr_sqrt. nra. }
    assert (Emap : forall l, power l = map sq_mag l).
    { intros l. unfold power. apply map_ext. exact Esq. }
    assert (E0 : sq_mag Czero = 0) by (unfold sq_mag, Czero; simpl; ring).
    repeat split.
    + unfold power. apply length_map.
    + apply Emap.
    + exact E0.
    + intros n. rewrite Emap. induction n as [|n IH]; simpl; [reflexivity|].
      now rewrite IH, E0.
    + intros d d' y H. apply detect_Ok in H as (dcm & _ & _ & H1 & _).
      exists dcm. now rewrite <- Emap.
Qed.

(** C2 as stated fails: the sample [1 + 1j] has [I * I + Q * Q = 2], and
    line 107 gives [16777215 / 8388608 = 1.99999988...] for it. *)
Lemma power_of_one_plus_i_is_not_two :
  let z := (F32.one, F32.one) in
  sq_mag (F32.sample z) = 2 /\
  F32.x_power [z] = [SpecFloat.S754_finite false 16777215 (-23)] /\
  F32.value (nth 0 (F32.x_power [z]) F32.zero) = 16777215 / 8388608 /\
  F32.value (nth 0 (F32.x_power [z]) F32.zero) <> sq_mag (F32.sample z).
Proof.
  intros z. unfold z. rewrite x_power_one_plus_i.
  unfold F32.sample, sq_mag, F32.value, F32.one. cbn [nth fst snd].
  rewrite value_2_pow_m23.
  repeat split; try reflexivity; lra.
Qed.

(** A [detect] call on an example detector returns. *)
Lemma demo_detect (buff x : list complex) (thresh_db : R) (samp : Z) :
  length buff = 8%nat -> (samp <= 2)%Z -> length x = 8%nat ->
  detect (demo buff thresh_db samp) x
  = Ok (called (detect (demo buff thresh_db samp) x)).
Proof.
  intros Hb Hs Hx.
  destruct (reachable_inv i0_series _ _ _ _ _ _ (demo_reachable buff thresh_db samp Hb Hs))
    as (_ & _ & _ & _ & _ & _ & _ & _ & I9).
  destruct (I9 x) as [p Hp]; [congruence|]. now rewrite Hp.
Qed.

Lemma count_above_filter (T : R) (row : list R) :
  count_above T row
  = Z.of_nat (length (filter (fun v => if Rgt_dec v T then true else false) row)).
Proof.
  unfold count_above, count_true, Rgtb. f_equal.
  induction row as [|v row IH]; simpl; [reflexivity|].
  destruct (Rgt_dec v T); simpl; now rewrite IH.
Qed.

Lemma count_above_bounds (T : R) (row : list R) :
  (0 <= count_above T row <= Z.of_nat (length row))%Z.
Proof.
  rewrite count_above_filter. split; [lia|]. apply inj_le, filter_length_le.
Qed.

Lemma seg_det_map (T : R) (s : Z) (mat : list (list R)) :
  seg_det T s mat = map (fun row => (count_above T row >? s)%Z) mat.
Proof. unfold seg_det, sum_axis1, count_above. now rewrite !map_map. Qed.

(** A call on an empty buffer leaves an empty decimated matrix. *)
Lemma decimate_nil (q : Z) (h l : list R) : decimate [] q h = Ok l -> l = [].
Proof.
  unfold decimate, resample_poly. destruct (q <? 1)%Z; [discriminate|].
  destruct (q =? 1)%Z; intros H; injection H as <-; [reflexivity|].
  cbv zeta. change (Z.of_nat (@length R [])) with 0%Z.
  rewrite ?Zdiv_0_l, ?Zmod_0_l. reflexivity.
Qed.

(** The flags stored by a successful call are those of the rows of the
    decimated matrix, also when a single row was broadcast. *)
Lemma detect_flags (d : PowerDetector) (x : list complex) d' y :
  detect d x = Ok (d', y) ->
  exists mat,
    reshape (amp_sq d') (_seg_len_dec d) = Ok mat /\
    forall i row, nth_error mat i = Some row ->
      nth_error (det_index d') i
      = Some (count_above (_thresh d) row >? _samp_above_thresh d)%Z.
Proof.
  intros H. apply detect_Ok in H
    as (dcm & mat & x_mat & H1 & H2 & H3 & H4 & H5 & H6 & _).
  exists mat. split; [exact H3|]. intros i row Hi.
  unfold det_index. rewrite seg_det_map in H4.
  destruct (assign_slice_Ok _ _ _ H4) as [E|[v [E1 E2]]].
  - rewrite E, nth_error_map, Hi. reflexivity.
  - destruct mat as [|row0 [|row1 mat]]; try discriminate.
    simpl in E1. injection E1 as <-.
    destruct i as [|i]; [|destruct i; discriminate].
    simpl in Hi. injection Hi as <-.
    rewrite E2. apply nth_error_repeat.
    destruct (length (_seg_det_index d)) eqn:En; [|lia]. exfalso.
    apply assign_slice_length in H4. rewrite En in H4.
    unfold bool_index in H6.
    destruct (Nat.eqb_spec (length (_seg_det_index d')) (length x_mat)) as [El|];
      [|discriminate].
    apply reshape_Ok in H5 as (_ & Hlen & _ & _).
    rewrite <- El, H4 in Hlen. simpl in Hlen.
    symmetry in Hlen. apply length_zero_iff_nil in Hlen. subst x.
    apply decimate_nil in H1. subst dcm.
    destruct (assign_slice_Ok _ _ _ H2) as [E|[v [E _]]]; [|discriminate].
    unfold amp_sq in H3. rewrite E in H3.
    apply reshape_Ok in H3 as (Hk & Hlen' & _). simpl in Hlen'. lia.
Qed.

(** C3. After a call on a detector built with [thresh_db], the flag of
    every row of the segmented decimated envelope holds exactly when the
    number of samples of the row strictly greater than
    [T = 10 ^ (thresh_db / 10)] is strictly greater than
    [samp_above_thresh]. *)
Theorem flag_iff_count_exceeds :
  forall i0 buff seg_len dec thresh_db samp d x d' y,
    reachable i0 buff seg_len dec thresh_db samp d ->
    detect d x = Ok (d', y) ->
    let T := Rpower 10 (thresh_db / 10) in
    _thresh d = T /\
    exists mat,
      reshape (amp_sq d') (_seg_len_dec d') = Ok mat /\
      forall i row, nth_error mat i = Some row ->
        exists flag,
          nth_error (det_index d') i = Some flag /\
          (flag = true <->
           (Z.of_nat (length (filter (fun v => if Rgt_dec v T then true else false)
                                 row)) > samp)%Z).
Proof.
  intros i0 buff seg_len dec thresh_db samp d x d' y Hr Hdet T.
  destruct (reachable_inv i0 _ _ _ _ _ _ Hr)
    as (_ & _ & _ & _ & I5 & I6 & _).
  split; [exact I5|].
  destruct (detect_flags _ _ _ _ Hdet) as [mat [Hm Hf]].
  destruct (detect_same_shape _ _ _ _ Hdet) as [(_ & _ & _ & S4 & _) _].
  exists mat. split; [now rewrite <- S4|].
  intros i row Hi. eexists. split; [exact (Hf i row Hi)|].
  rewrite I5, I6, <- count_above_filter. fold T.
  rewrite Z.gtb_ltb, Z.ltb_lt. lia.
Qed.

Lemma flag_iff_count_exceeds_witness :
  let d := demo demo_buff 0 1 in
  let d' := fst (called (detect d demo_buff)) in
  let T := Rpower 10 (0 / 10) in
  _thresh d = T /\
  exists mat,
    reshape (amp_sq d') (_seg_len_dec d') = Ok mat /\
    forall i row, nth_error mat i = Some row ->
      exists flag,
        nth_error (det_index d') i = Some flag /\
        (flag = true <->
         (Z.of_nat (length (filter (fun v => if Rgt_dec v T then true else false)
                               row)) > 1)%Z).
Proof.
  intros d d'.
  apply (flag_iff_count_exceeds i0_series demo_buff 4 2 0 1 d demo_buff d'
           (snd (called (detect d demo_buff)))).
  - apply demo_reachable; [reflexivity | lia].
  - subst d'. rewrite <- surjective_pairing.
    apply demo_detect; [reflexivity | lia | reflexivity].
Defined.

(** C4. With a decimation factor other than 0 (so that [seg_len / dec]
    is defined): the construction raises the assertion error whenever
    [samp_above_thresh] is greater than [seg_len / dec]; it goes past the
    assertion, to the rest of [__init__], whenever it is not; and no call
    changes the three fields, so the bound holds of every detector that
    was built. *)
Theorem samp_above_thresh_is_validated :
  forall i0 buff seg_len dec thresh_db samp,
    dec <> 0%Z ->
    (IZR samp > IZR seg_len / IZR dec ->
     check_samp_above_thresh seg_len dec samp = Err AssertionError /\
     __init__ i0 buff seg_len dec thresh_db samp = Err AssertionError) /\
    (IZR samp <= IZR seg_len / IZR dec ->
     check_samp_above_thresh seg_len dec samp = Ok tt /\
     __init__ i0 buff seg_len dec thresh_db samp
     = init_body i0 buff seg_len dec thresh_db samp) /\
    (forall d, reachable i0 buff seg_len dec thresh_db samp d ->
       _samp_above_thresh d = samp /\ _seg_len d = seg_len /\ _dec d = dec /\
       IZR (_samp_above_thresh d) <= IZR (_seg_len d) / IZR (_dec d)).
Proof.
  intros i0 buff seg_len dec thresh_db samp Hd.
  assert (Hc : check_samp_above_thresh seg_len dec samp
               = if Rleb (IZR samp) (IZR seg_len / IZR dec)
                 then Ok tt else Err AssertionError).
  { unfold check_samp_above_thresh.
    destruct (Z.eqb_spec dec 0); [contradiction | reflexivity]. }
  repeat split.
  - rewrite Hc. replace (Rleb _ _) with false; [reflexivity|].
    symmetry. apply Rleb_false. lra.
  - unfold __init__. rewrite Hc. replace (Rleb _ _) with false; [reflexivity|].
    symmetry. apply Rleb_false. lra.
  - rewrite Hc. apply Rleb_true in H. now rewrite H.
  - unfold __init__. rewrite Hc. apply Rleb_true in H. now rewrite H.
  - now destruct (reachable_inv i0 _ _ _ _ _ _ H) as (_ & _ & _ & _ & _ & I6 & _).
  - now destruct (reachable_inv i0 _ _ _ _ _ _ H) as (I1 & _).
  - now destruct (reachable_inv i0 _ _ _ _ _ _ H) as (_ & I2 & _).
  - destruct (reachable_inv i0 _ _ _ _ _ _ H)
      as (I1 & I2 & _ & _ & _ & I6 & _ & I8 & _).
    now rewrite I1, I2, I6.
Qed.

Lemma samp_above_thresh_is_validated_witness :
  (IZR 5 > IZR 8 / IZR 2 ->
   check_samp_above_thresh 8 2 5 = Err AssertionError /\
   __init__ i0_series demo_buff 8 2 0 5 = Err AssertionError) /\
  (IZR 5 <= IZR 8 / IZR 2 ->
   check_samp_above_thresh 8 2 5 = Ok tt /\
   __init__ i0_series demo_buff 8 2 0 5 = init_body i0_series demo_buff 8 2 0 5) /\
  (forall d, reachable i0_series demo_buff 8 2 0 5 d ->
     _samp_above_thresh d = 5%Z /\ _seg_len d = 8%Z /\ _dec d = 2%Z /\
     IZR (_samp_above_thresh d) <= IZR (_seg_len d) / IZR (_dec d)).
Proof.
  apply (samp_above_thresh_is_validated i0_series demo_buff 8 2 0 5). lia.
Defined.

(** C5. For every decimation factor below 1 the generation of the filter
    coefficients raises: [ZeroDivisionError] for 0 (the cutoff [1 / dec]),
    [ValueError] below 0 (the cutoff is refused by [firwin]); and so does
    the construction of the detector. *)
Theorem filter_generation_rejects_dec_below_1 :
  forall i0 dec,
    (dec < 1)%Z ->
    _create_fir_filter_window i0 dec
    = Err (if (dec =? 0)%Z then ZeroDivisionError else ValueError) /\
    raises (_create_fir_filter_window i0 dec) /\
    forall buff seg_len thresh_db samp,
      raises (__init__ i0 buff seg_len dec thresh_db samp).
Proof.
  intros i0 dec Hd.
  assert (E : _create_fir_filter_window i0 dec
              = Err (if (dec =? 0)%Z then ZeroDivisionError else ValueError)).
  { rewrite create_fir_filter_window_cases. destruct (dec =? 0)%Z; [reflexivity|].
    destruct (Z.leb_spec dec 1); [reflexivity | lia]. }
  split; [exact E|]. split; [eexists; exact E|].
  intros buff seg_len thresh_db samp. unfold __init__, raises.
  destruct (check_samp_above_thresh seg_len dec samp) as [u|e]; simpl.
  - unfold init_body. rewrite E. simpl. eexists. reflexivity.
  - eexists. reflexivity.
Qed.

Lemma filter_generation_rejects_dec_below_1_witness :
  _create_fir_filter_window i0_series (-3)
  = Err (if (-3 =? 0)%Z then ZeroDivisionError else ValueError) /\
  raises (_create_fir_filter_window i0_series (-3)) /\
  forall buff seg_len thresh_db samp,
    raises (__init__ i0_series buff seg_len (-3) thresh_db samp).
Proof.
  apply (filter_generation_rejects_dec_below_1 i0_series (-3)). lia.
Defined.

(** C6. The kernel of every detector that was built with decimation
    factor [dec] (which is then at least 2) is the value [firwin] returns
    for [2 * dec + 1] taps, cutoff [1 / dec] and the Kaiser window of shape
    0.5: the Kaiser-windowed low-pass filter [kaiser_lowpass dec], of
    [2 * dec + 1] real taps. It is a function of [dec] alone, and no call
    changes it. *)
Theorem kernel_is_kaiser_lowpass :
  forall i0 buff seg_len dec thresh_db samp d,
    reachable i0 buff seg_len dec thresh_db samp d ->
    (2 <= dec)%Z /\
    firwin i0 (2 * dec + 1) (1 / IZR dec) 0.5 = Ok (_win d) /\
    _create_fir_filter_window i0 dec = Ok (_win d) /\
    _win d = kaiser_lowpass i0 dec /\
    Z.of_nat (length (_win d)) = (2 * dec + 1)%Z /\
    (forall x d' y, detect d x = Ok (d', y) -> _win d' = _win d).
Proof.
  intros i0 buff seg_len dec thresh_db samp d Hr.
  destruct (reachable_inv i0 _ _ _ _ _ _ Hr) as (_ & _ & I3 & _).
  pose proof I3 as Hc. rewrite create_fir_filter_window_cases in Hc.
  destruct (Z.eqb_spec dec 0) as [|H0]; [discriminate|].
  destruct (Z.leb_spec dec 1) as [|H1]; [discriminate|].
  injection Hc as Hw.
  repeat split.
  - lia.
  - unfold _create_fir_filter_window in I3.
    destruct (Z.eqb_spec dec 0); [contradiction | exact I3].
  - exact I3.
  - now symmetry.
  - rewrite <- Hw, kaiser_lowpass_length. apply Z2Nat.id. lia.
  - intros x d' y H. now apply detect_Ok in H
      as (_ & _ & _ & _ & _ & _ & _ & _ & _ & _ & _ & E & _).
Qed.

Lemma kernel_is_kaiser_lowpass_witness :
  let d := demo demo_buff 0 1 in
  (2 <= 2)%Z /\
  firwin i0_series (2 * 2 + 1) (1 / IZR 2) 0.5 = Ok (_win d) /\
  _create_fir_filter_window i0_series 2 = Ok (_win d) /\
  _win d = kaiser_lowpass i0_series 2 /\
  Z.of_nat (length (_win d)) = (2 * 2 + 1)%Z /\
  (forall x d' y, detect d x = Ok (d', y) -> _win d' = _win d).
Proof.
  apply (kernel_is_kaiser_lowpass i0_series demo_buff 4 2 0 1).
  apply demo_reachable; [reflexivity | lia].
Defined.

(** The working buffers of a detector that was built keep the sizes
    [__init__] gave them. *)
Lemma reachable_sizes i0 buff seg_len dec thresh_db samp d :
  reachable i0 buff seg_len dec thresh_db samp d ->
  length (_x_power_dec d) = Z.to_nat (Z.quot (Z.of_nat (length buff)) dec) /\
  length (_seg_det_index d) = Z.to_nat (Z.quot (Z.of_nat (length buff)) seg_len).
Proof.
  induction 1 as [d H | d x d' y Hr IH H].
  - apply init_Ok in H as (_ & _ & _ & win & y & _ & H).
    destruct (detect_same_shape _ _ _ _ H) as [(_ & _ & _ & _ & _ & S6 & S7) _].
    simpl in S6, S7. rewrite repeat_length in S6, S7. now split.
  - destruct (detect_same_shape _ _ _ _ H) as [(_ & _ & _ & _ & _ & S6 & S7) _].
    destruct IH. split; congruence.
Qed.

Lemma count_above_antitone (T1 T2 : R) (row : list R) :
  T1 <= T2 -> (count_above T2 row <= count_above T1 row)%Z.
Proof.
  intros HT. rewrite !count_above_filter. apply inj_le.
  induction row as [|v row IH]; simpl; [lia|].
  destruct (Rgt_dec v T2) as [H2|H2]; destruct (Rgt_dec v T1) as [H1|H1];
    simpl; try lia. lra.
Qed.

Lemma seg_det_antitone (T1 T2 : R) (s : Z) (mat : list (list R)) :
  T1 <= T2 -> flags_within (seg_det T2 s mat) (seg_det T1 s mat).
Proof.
  intros HT. rewrite !seg_det_map. unfold flags_within.
  induction mat as [|row mat IH]; simpl; constructor; [|exact IH].
  pose proof (count_above_antitone T1 T2 row HT).
  rewrite !Z.gtb_ltb, !Z.ltb_lt. lia.
Qed.

Lemma flags_within_repeat (a b : bool) (n : nat) :
  (a = true -> b = true) -> flags_within (repeat a n) (repeat b n).
Proof.
  intros H. unfold flags_within.
  induction n as [|n IH]; simpl; constructor; assumption.
Qed.

Lemma assign_slice_flags_within (dst1 dst2 src1 src2 r1 r2 : list bool) :
  length dst1 = length dst2 -> flags_within src1 src2 ->
  assign_slice dst1 src1 = Ok r1 -> assign_slice dst2 src2 = Ok r2 ->
  flags_within r1 r2.
Proof.
  intros Hd Hs H1 H2. pose proof (Forall2_length Hs) as Hl.
  unfold assign_slice in H1, H2. rewrite <- Hd, <- Hl in H2.
  destruct (length src1 =? length dst1)%nat.
  - inversion H1; inversion H2; subst. exact Hs.
  - destruct src1 as [|a [|a' src1]]; try discriminate.
    destruct src2 as [|b [|b' src2]]; try discriminate.
    inversion H1; inversion H2; subst. inversion Hs; subst.
    now apply flags_within_repeat.
Qed.

Lemma count_true_within (a b : list bool) :
  flags_within a b -> (count_true a <= count_true b)%Z.
Proof.
  unfold count_true. intros H. apply inj_le.
  induction H as [|fa fb a b Hf _ IH]; simpl; [lia|].
  destruct fa; simpl.
  - rewrite (Hf eq_refl). simpl. lia.
  - destruct fb; simpl; lia.
Qed.

Lemma assign_slice_dst {A : Type} (dst1 dst2 src : list A) :
  length dst1 = length dst2 -> assign_slice dst1 src = assign_slice dst2 src.
Proof. intros H. unfold assign_slice. now rewrite H. Qed.

(** Two detectors of the same shape, the second with the higher threshold:
    on the same buffer the second flags no segment that the first does
    not flag. *)
Lemma detect_threshold_antitone (d1 d2 : PowerDetector) (x : list complex)
  d1' y1 d2' y2 :
  same_shape d1 d2 -> _thresh d1 <= _thresh d2 ->
  detect d1 x = Ok (d1', y1) -> detect d2 x = Ok (d2', y2) ->
  amp_sq d1' = amp_sq d2' /\
  flags_within (det_index d2') (det_index d1') /\
  Z.of_nat (length y1) = num_flagged d1' /\
  Z.of_nat (length y2) = num_flagged d2'.
Proof.
  intros (S1 & S2 & S3 & S4 & S5 & S6 & S7) HT H1 H2.
  apply detect_Ok in H1
    as (dcm1 & mat1 & xm1 & A1 & A2 & A3 & A4 & A5 & A6 & _).
  apply detect_Ok in H2
    as (dcm2 & mat2 & xm2 & B1 & B2 & B3 & B4 & B5 & B6 & _).
  rewrite <- S2, <- S3, A1 in B1. injection B1 as <-.
  rewrite <- (assign_slice_dst _ _ dcm1 S6), A2 in B2. injection B2 as E.
  rewrite <- E, <- S4, A3 in B3. injection B3 as <-.
  rewrite <- S1, A5 in B5. injection B5 as <-.
  rewrite <- S5 in B4.
  assert (W : flags_within (_seg_det_index d2') (_seg_det_index d1')).
  { eapply assign_slice_flags_within; [symmetry; exact S7 | | exact B4 | exact A4].
    now apply seg_det_antitone. }
  unfold bool_index in A6, B6.
  destruct (Nat.eqb_spec (length (_seg_det_index d1')) (length xm1)) as [L1|];
    [|discriminate].
  destruct (Nat.eqb_spec (length (_seg_det_index d2')) (length xm1)) as [L2|];
    [|discriminate].
  injection A6 as <-. injection B6 as <-.
  unfold amp_sq, det_index, num_flagged, det_index.
  repeat split; try assumption; now apply compress_count.
Qed.

(** C7. Two detectors built from the same buffer with the same [dec],
    [seg_len] and [samp_above_thresh], the second with a [thresh_db] at
    least as high: [detect] succeeds on a buffer for both or for none, and
    on the same buffer the second flags no more segments than the first
    (indeed no segment that the first does not flag) and returns no more
    rows. *)
Theorem raising_thresh_db_flags_no_more :
  forall i0 buff seg_len dec samp t1 t2 d1 d2 x,
    t1 <= t2 ->
    reachable i0 buff seg_len dec t1 samp d1 ->
    reachable i0 buff seg_len dec t2 samp d2 ->
    (is_ok (detect d1 x) <-> is_ok (detect d2 x)) /\
    forall d1' y1 d2' y2,
      detect d1 x = Ok (d1', y1) -> detect d2 x = Ok (d2', y2) ->
      (num_flagged d2' <= num_flagged d1')%Z /\
      flags_within (det_index d2') (det_index d1') /\
      (length y2 <= length y1)%nat.
Proof.
  intros i0 buff seg_len dec samp t1 t2 d1 d2 x Ht R1 R2.
  destruct (reachable_inv i0 _ _ _ _ _ _ R1)
    as (A1 & A2 & A3 & A4 & A5 & A6 & _).
  destruct (reachable_inv i0 _ _ _ _ _ _ R2)
    as (B1 & B2 & B3 & B4 & B5 & B6 & _).
  destruct (reachable_sizes _ _ _ _ _ _ _ R1) as [P1 Q1].
  destruct (reachable_sizes _ _ _ _ _ _ _ R2) as [P2 Q2].
  assert (S : same_shape d1 d2).
  { unfold same_shape. repeat split; congruence. }
  assert (S' : same_shape d2 d1).
  { unfold same_shape. repeat split; congruence. }
  assert (HT : _thresh d1 <= _thresh d2).
  { rewrite A5, B5. apply Rle_Rpower; lra. }
  split.
  - split; apply detect_shape; auto.
  - intros d1' y1 d2' y2 H1 H2.
    destruct (detect_threshold_antitone _ _ _ _ _ _ _ S HT H1 H2)
      as (_ & W & E1 & E2).
    pose proof (count_true_within _ _ W) as Hc.
    unfold num_flagged in *. repeat split; [exact Hc | exact W | lia].
Qed.

Lemma raising_thresh_db_flags_no_more_witness :
  let d1 := demo demo_buff 0 1 in
  let d2 := demo demo_buff 3 1 in
  (is_ok (detect d1 demo_buff) <-> is_ok (detect d2 demo_buff)) /\
  forall d1' y1 d2' y2,
    detect d1 demo_buff = Ok (d1', y1) -> detect d2 demo_buff = Ok (d2', y2) ->
    (num_flagged d2' <= num_flagged d1')%Z /\
    flags_within (det_index d2') (det_index d1') /\
    (length y2 <= length y1)%nat.
Proof.
  apply (raising_thresh_db_flags_no_more i0_series demo_buff 4 2 1 0 3).
  - lra.
  - apply demo_reachable; [reflexivity | lia].
  - apply demo_reachable; [reflexivity | lia].
Defined.

Lemma power_zero (x : list complex) :
  Forall (fun z => z = Czero) x -> Forall (fun v => v = 0) (power x).
Proof.
  intros H. unfold power. apply Forall_forall. intros v Hv.
  apply in_map_iff in Hv as [z [<- Hz]].
  rewrite Forall_forall in H. rewrite (H z Hz).
  unfold Cabs, Czero. simpl. rewrite Rmult_0_l, Rplus_0_l, sqrt_0. ring.
Qed.

Lemma power_nonneg (x : list complex) : Forall (fun v => 0 <= v) (power x).
Proof.
  unfold power. apply Forall_forall. intros v Hv.
  apply in_map_iff in Hv as [z [<- _]]. apply pow2_ge_0.
Qed.

Lemma count_above_zero (T : R) (row : list R) :
  0 < T -> Forall (fun v => v = 0) row -> count_above T row = 0%Z.
Proof.
  intros HT H. rewrite count_above_filter.
  induction H as [|v row Hv _ IH]; simpl; [reflexivity|].
  destruct (Rgt_dec v T) as [Hg|_]; [lra | exact IH].
Qed.

(** A call on an all-zero buffer under a positive threshold: the power and
    the decimated envelope are all-zero, and every flag is the outcome of
    the comparison [0 > samp_above_thresh]. *)
Lemma detect_zero (d : PowerDetector) (x : list complex) d' y :
  detect d x = Ok (d', y) ->
  Forall (fun z => z = Czero) x -> 0 < _thresh d ->
  Forall (fun v => v = 0) (power x) /\
  Forall (fun v => v = 0) (amp_sq d') /\
  Forall (fun f => f = (0 >? _samp_above_thresh d)%Z) (det_index d').
Proof.
  intros H Hx HT. pose proof (power_zero x Hx) as Hp.
  apply detect_Ok in H as (dcm & mat & x_mat & H1 & H2 & H3 & H4 & _).
  pose proof (decimate_zero _ _ _ _ Hp H1) as Hd.
  pose proof (assign_slice_Forall _ _ _ _ H2 Hd) as Ha.
  split; [exact Hp|]. split; [exact Ha|].
  apply reshape_Ok in H3 as (_ & _ & _ & Hcat).
  rewrite <- Hcat in Ha. apply Forall_concat in Ha.
  unfold det_index. eapply assign_slice_Forall; [exact H4|].
  rewrite seg_det_map. apply Forall_forall. intros f Hf.
  apply in_map_iff in Hf as [row [<- Hrow]].
  rewrite Forall_forall in Ha. now rewrite count_above_zero by auto.
Qed.

(** C8, amended. On a detector that was built with a [samp_above_thresh]
    that is not negative, a call on an all-zero buffer as long as the
    buffer of the construction returns the empty matrix: the threshold is
    positive, the power and the decimated envelope are all-zero, and no
    segment is flagged. *)
Theorem zero_buffer_flags_nothing :
  forall i0 buff seg_len dec thresh_db samp d x,
    reachable i0 buff seg_len dec thresh_db samp d ->
    length x = length buff ->
    Forall (fun z => z = Czero) x ->
    (0 <= samp)%Z ->
    0 < _thresh d /\
    Forall (fun v => v = 0) (power x) /\
    exists d',
      detect d x = Ok (d', []) /\
      Forall (fun v => v = 0) (amp_sq d') /\
      Forall (fun f => f = false) (det_index d').
Proof.
  intros i0 buff seg_len dec thresh_db samp d x Hr Hl Hx Hs.
  destruct (reachable_inv i0 _ _ _ _ _ _ Hr)
    as (_ & _ & _ & _ & I5 & I6 & _ & _ & I9).
  assert (HT : 0 < _thresh d) by (rewrite I5; apply exp_pos).
  destruct (I9 x Hl) as [[d' y] Hdet].
  destruct (detect_zero _ _ _ _ Hdet Hx HT) as (Hp & Ha & Hf).
  assert (Hf' : Forall (fun f => f = false) (det_index d')).
  { eapply Forall_impl; [|exact Hf]. simpl. intros f ->.
    rewrite I6, Z.gtb_ltb. apply Z.ltb_ge. exact Hs. }
  split; [exact HT|]. split; [exact Hp|].
  exists d'. repeat split; try assumption.
  pose proof (detect_Ok _ _ _ _ Hdet)
    as (_ & _ & x_mat & _ & _ & _ & _ & _ & H6 & _).
  unfold bool_index in H6.
  destruct (length (_seg_det_index d') =? length x_mat)%nat; [|discriminate].
  injection H6 as Hy. rewrite Hdet, <- Hy.
  unfold det_index in Hf'. now rewrite (compress_all_false _ x_mat Hf').
Qed.

Lemma zero_buff_zero : Forall (fun z => z = Czero) zero_buff.
Proof. unfold zero_buff. apply Forall_forall. intros z Hz. now apply repeat_spec in Hz. Qed.

Lemma zero_buffer_flags_nothing_witness :
  let d := demo demo_buff 0 1 in
  0 < _thresh d /\
  Forall (fun v => v = 0) (power zero_buff) /\
  exists d',
    detect d zero_buff = Ok (d', []) /\
    Forall (fun v => v = 0) (amp_sq d') /\
    Forall (fun f => f = false) (det_index d').
Proof.
  apply (zero_buffer_flags_nothing i0_series demo_buff 4 2 0 1).
  - apply demo_reachable; [reflexivity | lia].
  - reflexivity.
  - exact zero_buff_zero.
  - lia.
Defined.

(** C8 as stated fails: the detector built with
    [samp_above_thresh = -1] (the assertion accepts it) has a positive
    threshold, and on the all-zero buffer it flags both segments and returns
    both rows. *)
Lemma zero_buffer_flagged_when_samp_negative :
  let d := demo zero_buff 0 (-1) in
  __init__ i0_series zero_buff 4 2 0 (-1) = Ok d /\
  Forall (fun z => z = Czero) zero_buff /\
  0 < _thresh d /\
  exists d',
    detect d zero_buff = Ok (d', [repeat Czero 4; repeat Czero 4]) /\
    det_index d' = [true; true].
Proof.
  intros d.
  assert (Hi : __init__ i0_series zero_buff 4 2 0 (-1) = Ok d)
    by (apply demo_init; [reflexivity | lia]).
  pose proof (reach_init _ _ _ _ _ _ _ Hi) as Hr.
  destruct (reachable_inv i0_series _ _ _ _ _ _ Hr)
    as (I1 & _ & _ & _ & I5 & I6 & _).
  assert (HT : 0 < _thresh d) by (rewrite I5; apply exp_pos).
  assert (Hdet : detect d zero_buff = Ok (called (detect d zero_buff)))
    by (apply demo_detect; [reflexivity | lia | reflexivity]).
  destruct (called (detect d zero_buff)) as [d' y].
  destruct (detect_zero _ _ _ _ Hdet zero_buff_zero HT) as (_ & _ & Hf).
  rewrite I6 in Hf.
  pose proof (detect_Ok _ _ _ _ Hdet)
    as (_ & _ & x_mat & _ & _ & _ & _ & H5 & H6 & _).
  rewrite I1 in H5.
  assert (Hm : reshape zero_buff 4 = Ok [repeat Czero 4; repeat Czero 4])
    by reflexivity.
  rewrite Hm in H5. injection H5 as <-.
  unfold bool_index in H6.
  match type of H6 with
  | (if ?c then _ else _) = _ => destruct c eqn:L; [|discriminate]
  end.
  apply Nat.eqb_eq in L. simpl in L.
  injection H6 as Hy. unfold det_index in Hf.
  destruct (_seg_det_index d') as [|a [|b [|c l]]] eqn:E; try discriminate.
  inversion Hf as [|? ? Ea Hf1]; subst. inversion Hf1 as [|? ? Eb _]; subst.
  split; [exact Hi|]. split; [exact zero_buff_zero|]. split; [exact HT|].
  exists d'. split; [exact Hdet | exact E].
Qed.

(** Filtering and decimating with taps that are not negative keeps the
    decimated envelope from being negative. *)
Lemma detect_nonneg (d : PowerDetector) (x : list complex) d' y :
  Forall (fun t => 0 <= t) (_win d) ->
  detect d x = Ok (d', y) -> Forall (fun v => 0 <= v) (amp_sq d').
Proof.
  intros Hw H. apply detect_Ok in H as (dcm & _ & _ & H1 & H2 & _).
  eapply assign_slice_Forall; [exact H2|].
  eapply decimate_nonneg; [exact Hw | apply power_nonneg | exact H1].
Qed.



(** A call flags nothing when no row of the decimated matrix is longer
    than [samp_above_thresh]. *)
Lemma detect_no_flag (d : PowerDetector) (x : list complex) d' y :
  (_seg_len_dec d <= _samp_above_thresh d)%Z ->
  detect d x = Ok (d', y) ->
  y = [] /\ Forall (fun f => f = false) (det_index d').
Proof.
  intros Hle H. apply detect_Ok in H
    as (dcm & mat & x_mat & _ & _ & H3 & H4 & _ & H6 & _).
  apply reshape_Ok in H3 as (Hk & _ & Hrows & _).
  assert (Hf : Forall (fun f => f = false) (det_index d')).
  { unfold det_index. eapply assign_slice_Forall; [exact H4|].
    rewrite seg_det_map. apply Forall_forall. intros f Hf.
    apply in_map_iff in Hf as [row [<- Hrow]].
    rewrite Forall_forall in Hrows. specialize (Hrows row Hrow).
    pose proof (count_above_bounds (_thresh d) row) as Hb.
    rewrite Z.gtb_ltb. apply Z.ltb_ge. lia. }
  split; [|exact Hf]. unfold bool_index in H6.
  destruct (length (_seg_det_index d') =? length x_mat)%nat; [|discriminate].
  injection H6 as <-. now apply compress_all_false.
Qed.

(** C10. A detector built with [samp_above_thresh] equal to
    [seg_len / dec]: the assertion accepts the configuration, [detect]
    returns the empty matrix on every buffer as long as the buffer of the
    construction, and whenever a call returns, it has flagged no segment
    and returns the empty matrix. *)
Theorem samp_equal_to_decimated_length_never_flags :
  forall i0 buff seg_len dec thresh_db samp d,
    reachable i0 buff seg_len dec thresh_db samp d ->
    IZR samp = IZR seg_len / IZR dec ->
    check_samp_above_thresh seg_len dec samp = Ok tt /\
    (forall x, length x = length buff ->
       exists d', detect d x = Ok (d', []) /\
                  Forall (fun f => f = false) (det_index d')) /\
    (forall x d' y, detect d x = Ok (d', y) ->
       y = [] /\ Forall (fun f => f = false) (det_index d')).
Proof.
  intros i0 buff seg_len dec thresh_db samp d Hr He.
  destruct (reachable_inv i0 _ _ _ _ _ _ Hr)
    as (_ & _ & _ & I4 & _ & I6 & I7 & I8 & I9).
  assert (Hle : (_seg_len_dec d <= _samp_above_thresh d)%Z).
  { rewrite I4, I6.
    assert (Hm : seg_len = (samp * dec)%Z).
    { apply eq_IZR. rewrite mult_IZR, He. field.
      intros Hz. apply I7. now apply eq_IZR. }
    rewrite Hm, Z.quot_mul by exact I7. lia. }
  split; [|split].
  - unfold check_samp_above_thresh.
    destruct (Z.eqb_spec dec 0); [contradiction|].
    apply Rleb_true in I8. now rewrite I8.
  - intros x Hx. destruct (I9 x Hx) as [[d' y] Hd].
    destruct (detect_no_flag _ _ _ _ Hle Hd) as [-> Hf].
    exists d'. split; assumption.
  - intros x d' y Hd. exact (detect_no_flag _ _ _ _ Hle Hd).
Qed.

Lemma samp_equal_to_decimated_length_never_flags_witness :
  let d := demo demo_buff 0 2 in
  check_samp_above_thresh 4 2 2 = Ok tt /\
  (forall x, length x = length demo_buff ->
     exists d', detect d x = Ok (d', []) /\
                Forall (fun f => f = false) (det_index d')) /\
  (forall x d' y, detect d x = Ok (d', y) ->
     y = [] /\ Forall (fun f => f = false) (det_index d')).
Proof.
  apply (samp_equal_to_decimated_length_never_flags i0_series demo_buff 4 2 0 2).
  - apply demo_reachable; [reflexivity | lia].
  - lra.
Defined.

End Claims.

(** ** Beyond the claims: what a construction checks *)

Section Construction.

Import Np NpFacts Cusignal CusignalFacts.

Variable i0 : R -> R.

(** The sizes met by the stages of a successful call. *)
Lemma detect_Ok_sizes (d : PowerDetector) (x : list complex) d' y :
  detect d x = Ok (d', y) ->
  (0 < _seg_len d)%Z /\ (0 < _seg_len_dec d)%Z /\ (1 <= _dec d)%Z /\
  (Z.of_nat (length (_seg_det_index d)) * _seg_len d = Z.of_nat (length x))%Z /\
  exists rows : Z,
    (rows * _seg_len_dec d = Z.of_nat (length (_x_power_dec d)))%Z /\
    (rows = Z.of_nat (length (_seg_det_index d)) \/ rows = 1%Z) /\
    (0 <= rows)%Z.
Proof.
  intros H.
  assert (Hq : (1 <= _dec d)%Z).
  { apply (decimate_is_ok (power x) (_dec d) (_win d)).
    apply detect_Ok in H as (dcm & _ & _ & H1 & _). now exists dcm. }
  apply detect_Ok in H
    as (dcm & mat & x_mat & H1 & H2 & H3 & H4 & H5 & H6 & _).
  pose proof (assign_slice_length _ _ _ H2) as L2.
  pose proof (assign_slice_length _ _ _ H4) as L4.
  apply reshape_Ok in H3 as (K3 & M3 & _ & _).
  apply reshape_Ok in H5 as (K5 & M5 & _ & _).
  unfold bool_index in H6.
  destruct (Nat.eqb_spec (length (_seg_det_index d')) (length x_mat)) as [E|];
    [|discriminate].
  repeat split; try assumption.
  - rewrite <- L4, E, <- M5, Nat2Z.inj_mul, Z2Nat.id by lia. reflexivity.
  - exists (Z.of_nat (length mat)). split; [|split; [|lia]].
    + rewrite <- L2, <- M3, Nat2Z.inj_mul, Z2Nat.id by lia. reflexivity.
    + unfold assign_slice in H4. rewrite seg_det_length in H4.
      destruct (Nat.eqb_spec (length mat) (length (_seg_det_index d))) as [E'|_];
        [left; lia|].
      right. rewrite seg_det_map in H4.
      destruct mat as [|r0 [|r1 mat]]; simpl in H4; try discriminate. reflexivity.
Qed.

(** The size of the output of the decimator, for a factor of 2 or more. *)
Lemma decimate_length (x : list R) (q : Z) (h l : list R) :
  (2 <= q)%Z -> decimate x q h = Ok l ->
  Z.of_nat (length l)
  = (Z.of_nat (length x) / q
     + (if (Z.of_nat (length x) mod q =? 0)%Z then 0 else 1))%Z.
Proof.
  intros Hq. unfold decimate, resample_poly.
  destruct (Z.ltb_spec q 1) as [|_]; [lia|].
  destruct (Z.eqb_spec q 1) as [|_]; [lia|].
  intros H. injection H as <-.
  rewrite length_map, arange_length. apply Z2Nat.id.
  assert (0 <= Z.of_nat (length x) / q)%Z by (apply Z.div_pos; lia).
  destruct (_ =? 0)%Z; lia.
Qed.

(** A construction that succeeds on a buffer that is not empty has met a
    valid shape. *)
Lemma init_Ok_shape buff seg_len dec thresh_db samp d :
  __init__ i0 buff seg_len dec thresh_db samp = Ok d ->
  buff <> [] ->
  (2 <= dec)%Z /\ IZR samp <= IZR seg_len / IZR dec /\
  (0 < seg_len)%Z /\ (seg_len mod dec = 0)%Z /\
  (Z.of_nat (length buff) mod seg_len = 0)%Z.
Proof.
  intros H Hne.
  assert (HN : (0 < Z.of_nat (length buff))%Z).
  { destruct buff; [contradiction | simpl; lia]. }
  apply init_Ok in H as (Hd0 & Hs0 & Ha & win & y & Hw & H).
  rewrite create_fir_filter_window_cases in Hw.
  destruct (Z.eqb_spec dec 0) as [|_]; [discriminate|].
  destruct (Z.leb_spec dec 1) as [|Hd]; [discriminate|].
  destruct (detect_Ok_sizes _ _ _ _ H)
    as (Ks & Kd & _ & Eb & rows & Er & Hrows & Hr0).
  apply detect_Ok in H as (dcm & _ & _ & H1 & H2 & _).
  apply decimate_length in H1; [|simpl; lia].
  unfold power in H1. rewrite length_map in H1.
  simpl in Ks, Kd, Eb, Er, Hrows, H1, H2.
  rewrite repeat_length in Eb, Er, Hrows.
  assert (Hl2 : length dcm = Z.to_nat (Z.quot (Z.of_nat (length buff)) dec)
                \/ length dcm = 1%nat).
  { unfold assign_slice in H2. rewrite repeat_length in H2.
    destruct (Nat.eqb_spec (length dcm)
                (Z.to_nat (Z.quot (Z.of_nat (length buff)) dec))) as [E|_];
      [now left|].
    destruct dcm as [|v [|w dcm]]; try discriminate. now right. }
  rewrite !Z.quot_div_nonneg in * by lia.
  set (N := Z.of_nat (length buff)) in *.
  assert (Hq : (0 <= N / seg_len)%Z) by (apply Z.div_pos; lia).
  assert (Ha0 : (0 <= N / dec)%Z) by (apply Z.div_pos; lia).
  rewrite Z2Nat.id in Eb, Er, Hrows by lia.
  pose proof (Z.div_mod N dec ltac:(lia)) as DN.
  pose proof (Z.mod_pos_bound N dec ltac:(lia)) as BN.
  pose proof (Z.div_mod seg_len dec ltac:(lia)) as DS.
  pose proof (Z.mod_pos_bound seg_len dec ltac:(lia)) as BS.
  assert (Hm1 : (1 <= N / seg_len)%Z) by nia.
  assert (HNd : (N mod dec = 0)%Z).
  { destruct (Z.eqb_spec (N mod dec) 0) as [E|E]; [exact E|]. exfalso.
    destruct Hl2 as [E2|E2]; [lia|].
    assert (N / dec = 0)%Z by lia. nia. }
  assert (Hrm : rows = (N / seg_len)%Z).
  { destruct Hrows as [E|E]; [exact E|]. subst rows. nia. }
  repeat split; try assumption; try lia.
  - assert (seg_len mod dec * (N / seg_len) = 0)%Z by nia. nia.
  - rewrite <- Eb. apply Z_mod_mult.
Qed.

(** X1. On a buffer that is not empty, and for a threshold of at most
    3080 dB (beyond 3082 dB the float [10 ** (thresh_db / 10)] of line 70
    overflows and Python raises, which [init_body] does not model),
    [__init__] returns a detector exactly when the decimation factor is at
    least 2, the assertion holds, the segment length is a positive multiple
    of the decimation factor and the buffer length is a multiple of the
    segment length: the first [detect] call of [__init__] rejects every
    other shape. *)
Theorem init_succeeds_iff_valid_shape :
  forall buff seg_len dec thresh_db samp,
    buff <> [] ->
    thresh_db <= 3080 ->
    (is_ok (__init__ i0 buff seg_len dec thresh_db samp) <->
     (2 <= dec)%Z /\ IZR samp <= IZR seg_len / IZR dec /\
     (0 < seg_len)%Z /\ (seg_len mod dec = 0)%Z /\
     (Z.of_nat (length buff) mod seg_len = 0)%Z).
Proof.
  intros buff seg_len dec thresh_db samp Hne _. split.
  - intros [d H]. exact (init_Ok_shape _ _ _ _ _ _ H Hne).
  - intros (Hd & Ha & Hs & Hsd & HNs).
    apply (init_succeeds i0 buff seg_len dec thresh_db samp
             (seg_len / dec) (Z.of_nat (length buff) / seg_len)); try assumption.
    + pose proof (Z.div_mod seg_len dec ltac:(lia)). nia.
    + apply Z.div_pos; lia.
    + pose proof (Z.div_mod seg_len dec ltac:(lia)). lia.
    + pose proof (Z.div_mod (Z.of_nat (length buff)) seg_len ltac:(lia)). lia.
Qed.

(** The shape of every detector built on a buffer that is not empty. *)
Lemma reachable_shape buff seg_len dec thresh_db samp d :
  reachable i0 buff seg_len dec thresh_db samp d ->
  buff <> [] ->
  (2 <= dec)%Z /\ (0 < seg_len)%Z /\ (seg_len mod dec = 0)%Z /\
  (Z.of_nat (length buff) mod seg_len = 0)%Z.
Proof.
  induction 1 as [d H | d x d' y Hr IH H]; intros Hne; [|now apply IH].
  destruct (init_Ok_shape _ _ _ _ _ _ H Hne) as (A & _ & B & C & D).
  repeat split; assumption.
Qed.

End Construction.

Lemma init_succeeds_iff_valid_shape_witness :
  is_ok (__init__ i0_series demo_buff 4 2 0 1) <->
  (2 <= 2)%Z /\ IZR 1 <= IZR 4 / IZR 2 /\
  (0 < 4)%Z /\ (4 mod 2 = 0)%Z /\
  (Z.of_nat (length demo_buff) mod 4 = 0)%Z.
Proof.
  apply (init_succeeds_iff_valid_shape i0_series demo_buff 4 2 0 1).
  - discriminate.
  - lra.
Defined.

(** ** Beyond the claims: calls on a detector that was built *)

Section Calls.

Import Np NpFacts Cusignal CusignalFacts.

Variable i0 : R -> R.

(** The buffer of the construction holds one segment per flag. *)
Lemma reachable_segments buff seg_len dec thresh_db samp d :
  reachable i0 buff seg_len dec thresh_db samp d ->
  (0 < seg_len)%Z /\
  (Z.of_nat (length (_seg_det_index d)) * seg_len = Z.of_nat (length buff))%Z.
Proof.
  intros Hr.
  destruct (reachable_inv i0 _ _ _ _ _ _ Hr) as (I1 & _ & _ & _ & _ & _ & _ & _ & I9).
  destruct (I9 buff eq_refl) as [[d' y] H].
  destruct (detect_Ok_sizes _ _ _ _ H) as (Ks & _ & _ & Eb & _).
  rewrite I1 in Ks, Eb. now split.
Qed.

(** X2. A detector that was built accepts exactly the buffers as long as
    the buffer it was built with: [detect] raises on every buffer of
    another length, and returns on every buffer of that length. *)
Theorem detect_succeeds_iff_same_length :
  forall buff seg_len dec thresh_db samp d x,
    reachable i0 buff seg_len dec thresh_db samp d ->
    (is_ok (detect d x) <-> length x = length buff) /\
    (length x <> length buff -> raises (detect d x)).
Proof.
  intros buff seg_len dec thresh_db samp d x Hr.
  destruct (reachable_inv i0 _ _ _ _ _ _ Hr) as (I1 & _ & _ & _ & _ & _ & _ & _ & I9).
  destruct (reachable_segments _ _ _ _ _ _ Hr) as [Ks Eb].
  assert (Hfwd : is_ok (detect d x) -> length x = length buff).
  { intros [[d' y] H].
    destruct (detect_Ok_sizes _ _ _ _ H) as (_ & _ & _ & Ex & _).
    rewrite I1 in Ex. lia. }
  split; [split; [exact Hfwd | apply I9]|].
  intros Hne. destruct (detect d x) as [p|e] eqn:E.
  - exfalso. apply Hne, Hfwd. now exists p.
  - now exists e.
Qed.

(** The value and the effect of a call depend on the configuration and on
    the sizes of the working buffers, not on what the buffers hold. *)
Lemma detect_ext (d1 d2 : PowerDetector) (x : list complex) :
  same_shape d1 d2 -> _thresh d1 = _thresh d2 -> detect d1 x = detect d2 x.
Proof.
  intros (S1 & S2 & S3 & S4 & S5 & S6 & S7) Ht. unfold detect.
  rewrite S1, S2, S3, S4, S5, Ht.
  destruct (decimate (power x) (_dec d2) (_win d2)) as [dcm|e]; [|reflexivity].
  simpl. rewrite (assign_slice_dst _ _ dcm S6).
  destruct (assign_slice (_x_power_dec d2) dcm) as [xpd|e]; [|reflexivity].
  simpl. destruct (reshape xpd (_seg_len_dec d2)) as [mat|e]; [|reflexivity].
  simpl. rewrite (assign_slice_dst _ _ _ S7). reflexivity.
Qed.

(** X3. A call keeps no memory of the calls before it: two detectors built
    with the same arguments, whatever calls each has served since, return
    the same rows on the same buffer and are left in the same state; in
    particular a call repeated on the same buffer changes nothing. *)
Theorem detect_forgets_history :
  forall buff seg_len dec thresh_db samp d1 d2 x,
    reachable i0 buff seg_len dec thresh_db samp d1 ->
    reachable i0 buff seg_len dec thresh_db samp d2 ->
    detect d1 x = detect d2 x /\
    (forall d' y, detect d1 x = Ok (d', y) -> detect d' x = Ok (d', y)).
Proof.
  intros buff seg_len dec thresh_db samp d1 d2 x R1 R2.
  assert (Hext : forall a b,
            reachable i0 buff seg_len dec thresh_db samp a ->
            reachable i0 buff seg_len dec thresh_db samp b ->
            detect a x = detect b x).
  { intros a b Ra Rb.
    destruct (reachable_inv i0 _ _ _ _ _ _ Ra) as (A1 & A2 & A3 & A4 & A5 & A6 & _).
    destruct (reachable_inv i0 _ _ _ _ _ _ Rb) as (B1 & B2 & B3 & B4 & B5 & B6 & _).
    destruct (reachable_sizes _ _ _ _ _ _ _ Ra) as [P1 Q1].
    destruct (reachable_sizes _ _ _ _ _ _ _ Rb) as [P2 Q2].
    apply detect_ext; [unfold same_shape; repeat split; congruence | congruence]. }
  split; [now apply Hext|].
  intros d' y H. rewrite <- H. apply Hext; [|exact R1].
  exact (reach_detect _ _ _ _ _ _ d1 x d' y R1 H).
Qed.

Lemma seg_det_antitone_both (T1 T2 : R) (s1 s2 : Z) (mat : list (list R)) :
  T1 <= T2 -> (s1 <= s2)%Z ->
  flags_within (seg_det T2 s2 mat) (seg_det T1 s1 mat).
Proof.
  intros HT Hs. rewrite !seg_det_map. unfold flags_within.
  induction mat as [|row mat IH]; simpl; constructor; [|exact IH].
  pose proof (count_above_antitone T1 T2 row HT).
  rewrite !Z.gtb_ltb, !Z.ltb_lt. lia.
Qed.

(** X4. Two detectors built from the same buffer with the same [seg_len],
    [dec] and [thresh_db], the second with a [samp_above_thresh] at least
    as high: on the same buffer the second flags no segment that the first
    does not flag, and returns no more rows. *)
Theorem raising_samp_above_thresh_flags_no_more :
  forall buff seg_len dec thresh_db s1 s2 d1 d2 x d1' y1 d2' y2,
    (s1 <= s2)%Z ->
    reachable i0 buff seg_len dec thresh_db s1 d1 ->
    reachable i0 buff seg_len dec thresh_db s2 d2 ->
    detect d1 x = Ok (d1', y1) -> detect d2 x = Ok (d2', y2) ->
    flags_within (det_index d2') (det_index d1') /\
    (num_flagged d2' <= num_flagged d1')%Z /\
    Z.of_nat (length y1) = num_flagged d1' /\
    Z.of_nat (length y2) = num_flagged d2' /\
    amp_sq d1' = amp_sq d2'.
Proof.
  intros buff seg_len dec thresh_db s1 s2 d1 d2 x d1' y1 d2' y2 Hs R1 R2 H1 H2.
  destruct (reachable_inv i0 _ _ _ _ _ _ R1) as (A1 & A2 & A3 & A4 & A5 & A6 & _).
  destruct (reachable_inv i0 _ _ _ _ _ _ R2) as (B1 & B2 & B3 & B4 & B5 & B6 & _).
  destruct (reachable_sizes _ _ _ _ _ _ _ R1) as [P1 Q1].
  destruct (reachable_sizes _ _ _ _ _ _ _ R2) as [P2 Q2].
  apply detect_Ok in H1
    as (dcm1 & mat1 & xm1 & C1 & C2 & C3 & C4 & C5 & C6 & _).
  apply detect_Ok in H2
    as (dcm2 & mat2 & xm2 & D1 & D2 & D3 & D4 & D5 & D6 & _).
  assert (Ew : _win d1 = _win d2) by congruence.
  rewrite B2, <- A2, <- Ew, C1 in D1. injection D1 as <-.
  rewrite <- (assign_slice_dst (_x_power_dec d1) (_x_power_dec d2) dcm1), C2 in D2
    by congruence.
  injection D2 as E.
  rewrite <- E, B4, <- A4, C3 in D3. injection D3 as <-.
  rewrite B1, <- A1, C5 in D5. injection D5 as <-.
  assert (W : flags_within (_seg_det_index d2') (_seg_det_index d1')).
  { eapply assign_slice_flags_within; [ | | exact D4 | exact C4].
    - congruence.
    - rewrite A5, B5, A6, B6. apply seg_det_antitone_both; [lra | exact Hs]. }
  unfold bool_index in C6, D6.
  destruct (Nat.eqb_spec (length (_seg_det_index d1')) (length xm1)) as [L1|];
    [|discriminate].
  destruct (Nat.eqb_spec (length (_seg_det_index d2')) (length xm1)) as [L2|];
    [|discriminate].
  injection C6 as <-. injection D6 as <-.
  unfold num_flagged, det_index, amp_sq.
  split; [exact W|]. split; [now apply count_true_within|].
  split; [now apply compress_count|]. split; [now apply compress_count | exact E].
Qed.

End Calls.

Lemma detect_succeeds_iff_same_length_witness :
  (is_ok (detect (demo demo_buff 0 1) zero_buff)
   <-> length zero_buff = length demo_buff) /\
  (length zero_buff <> length demo_buff ->
   raises (detect (demo demo_buff 0 1) zero_buff)).
Proof.
  apply (detect_succeeds_iff_same_length i0_series demo_buff 4 2 0 1).
  apply demo_reachable; [reflexivity | lia].
Defined.

Lemma detect_forgets_history_witness :
  let d1 := demo demo_buff 0 1 in
  let d2 := fst (called (detect d1 zero_buff)) in
  detect d1 demo_buff = detect d2 demo_buff /\
  (forall d' y, detect d1 demo_buff = Ok (d', y) ->
     detect d' demo_buff = Ok (d', y)).
Proof.
  intros d1 d2.
  assert (R1 : reachable i0_series demo_buff 4 2 0 1 d1)
    by (apply demo_reachable; [reflexivity | lia]).
  apply (detect_forgets_history i0_series demo_buff 4 2 0 1 d1 d2 demo_buff R1).
  apply (reach_detect _ _ _ _ _ _ d1 zero_buff d2
           (snd (called (detect d1 zero_buff))) R1).
  subst d2. rewrite <- surjective_pairing.
  apply demo_detect; [reflexivity | lia | reflexivity].
Defined.

Lemma raising_samp_above_thresh_flags_no_more_witness :
  let d1 := demo demo_buff 0 0 in
  let d2 := demo demo_buff 0 1 in
  let r1 := called (detect d1 demo_buff) in
  let r2 := called (detect d2 demo_buff) in
  flags_within (det_index (fst r2)) (det_index (fst r1)) /\
  (num_flagged (fst r2) <= num_flagged (fst r1))%Z /\
  Z.of_nat (length (snd r1)) = num_flagged (fst r1) /\
  Z.of_nat (length (snd r2)) = num_flagged (fst r2) /\
  amp_sq (fst r1) = amp_sq (fst r2).
Proof.
  intros d1 d2 r1 r2.
  apply (raising_samp_above_thresh_flags_no_more i0_series demo_buff 4 2 0 0 1
           d1 d2 demo_buff (fst r1) (snd r1) (fst r2) (snd r2)).
  - lia.
  - apply demo_reachable; [reflexivity | lia].
  - apply demo_reachable; [reflexivity | lia].
  - subst r1. rewrite <- surjective_pairing.
    apply demo_detect; [reflexivity | lia | reflexivity].
  - subst r2. rewrite <- surjective_pairing.
    apply demo_detect; [reflexivity | lia | reflexivity].
Defined.

(** ** Beyond the claims: what the decimated envelope can be *)

Section Envelope.

Import Np NpFacts Cusignal CusignalFacts.

Variable i0 : R -> R.
Hypothesis i0_pos : forall t, 0 < i0 t.

Lemma Cabs_sq (z : complex) : Cabs z ^ 2 = sq_mag z.
Proof.
  destruct z as [a b]. unfold Cabs, sq_mag. simpl fst. simpl snd.
  rewrite <- Rsqr_pow2. apply Rsqr_sqrt. nra.
Qed.

Lemma power_sq_mag (x : list complex) : power x = map sq_mag x.
Proof. unfold power. apply map_ext. exact Cabs_sq. Qed.

Lemma sum_map_div (s : R) (h : list R) :
  sum (map (fun v => v / s) h) = sum h / s.
Proof.
  induction h as [|t h IH]; simpl; [unfold Rdiv; ring|].
  rewrite IH. unfold Rdiv. ring.
Qed.

(** The kernel has unit gain at frequency 0: its taps add up to 1. *)
Lemma kaiser_lowpass_sum (dec : Z) :
  (2 <= dec)%Z -> sum (kaiser_lowpass i0 dec) = 1.
Proof.
  intros Hd. unfold kaiser_lowpass. cbv zeta.
  set (h := map (lowpass_tap i0 dec) (arange (2 * dec + 1))).
  rewrite sum_map_div.
  assert (Hh : Forall (fun v => 0 <= v) h).
  { apply Forall_forall. intros v Hv. apply in_map_iff in Hv as [n [<- Hn]].
    apply In_arange in Hn. now apply lowpass_tap_nonneg. }
  assert (Hs : 0 < sum h).
  { apply Rlt_le_trans with (lowpass_tap i0 dec dec);
      [now apply lowpass_tap_centre|].
    apply sum_ge_member; [exact Hh|].
    apply in_map. apply In_arange. lia. }
  field. lra.
Qed.

Lemma at_index_le (x : list R) (M : R) (k : Z) :
  0 <= M -> Forall (fun v => v <= M) x -> at_index x k <= M.
Proof.
  intros HM Hx. unfold at_index. destruct (k <? 0)%Z; [exact HM|].
  destruct (nth_in_or_default (Z.to_nat k) x 0) as [Hin|E]; [|rewrite E; exact HM].
  rewrite Forall_forall in Hx. now apply Hx.
Qed.


Lemma fir_sum_le (h x : list R) (M : R) (c : Z) :
  Forall (fun t => 0 <= t) h -> (forall k, at_index x k <= M) ->
  fir_sum h x c <= M * sum h.
Proof.
  intros Hh Hx. revert c. induction Hh as [|t h Ht _ IH]; intros c; simpl; [lra|].
  specialize (IH (c - 1)%Z). specialize (Hx c). nra.
Qed.


Lemma fir_sum_const (h x : list R) (P : R) (c : Z) :
  (forall i, (0 <= i < Z.of_nat (length h))%Z -> at_index x (c - i) = P) ->
  fir_sum h x c = P * sum h.
Proof.
  revert c. induction h as [|t h IH]; intros c Hx; simpl; [ring|].
  assert (H0 : at_index x c = P).
  { specialize (Hx 0%Z). rewrite Z.sub_0_r in Hx. apply Hx. simpl length. lia. }
  assert (H1 : fir_sum h x (c - 1) = P * sum h).
  { apply IH. intros i Hi.
    replace (c - 1 - i)%Z with (c - (i + 1))%Z by lia.
    apply Hx. simpl length. lia. }
  rewrite H0, H1. ring.
Qed.

Lemma nth_map_default {A B : Type} (f : A -> B) (l : list A) (d : A) (e : B)
  (j : nat) :
  (j < length l)%nat -> nth j (map f l) e = f (nth j l d).
Proof.
  intros Hj. rewrite (nth_indep _ e (f d)) by (now rewrite length_map).
  apply map_nth.
Qed.

Lemma arange_nth (n : Z) (j : nat) :
  (j < Z.to_nat n)%nat -> nth j (arange n) 0%Z = Z.of_nat j.
Proof.
  intros Hj. unfold arange.
  rewrite (nth_map_default Z.of_nat _ 0%nat) by (now rewrite length_seq).
  now rewrite seq_nth.
Qed.

(** Output [j] of the decimator is the filter centred on sample [j * q]. *)
Lemma decimate_nth (x : list R) (q : Z) (h l : list R) (j : nat) :
  (2 <= q)%Z -> decimate x q h = Ok l -> (j < length l)%nat ->
  nth j l 0
  = fir_sum h x (Z.of_nat j * q + (Z.of_nat (length h) - 1) / 2).
Proof.
  intros Hq. unfold decimate, resample_poly.
  destruct (Z.ltb_spec q 1) as [|_]; [lia|].
  destruct (Z.eqb_spec q 1) as [|_]; [lia|].
  intros H Hj. injection H as <-.
  rewrite length_map, arange_length in Hj.
  rewrite (nth_map_default _ _ 0%Z) by (now rewrite arange_length).
  now rewrite arange_nth.
Qed.

(** On a buffer as long as the buffer of the construction, the decimated
    envelope is the output of the decimator, as it is. *)
Lemma reachable_envelope buff seg_len dec thresh_db samp d x d' y :
  reachable i0 buff seg_len dec thresh_db samp d ->
  buff <> [] -> length x = length buff ->
  detect d x = Ok (d', y) ->
  (2 <= dec)%Z /\
  Z.of_nat (length (amp_sq d')) = (Z.of_nat (length buff) / dec)%Z /\
  (Z.of_nat (length buff) mod dec = 0)%Z /\
  forall j : nat,
    (Z.of_nat j < Z.of_nat (length buff) / dec)%Z ->
    nth j (amp_sq d') 0
    = fir_sum (kaiser_lowpass i0 dec) (power x) (Z.of_nat j * dec + dec).
Proof.
  intros Hr Hne Hx H.
  destruct (reachable_inv i0 _ _ _ _ _ _ Hr) as (I1 & I2 & I3 & _).
  destruct (reachable_shape i0 _ _ _ _ _ _ Hr Hne) as (Hd & Hs & Hsd & HNs).
  destruct (reachable_sizes _ _ _ _ _ _ _ Hr) as [P _].
  rewrite create_fir_filter_window_cases in I3.
  destruct (Z.eqb_spec dec 0) as [|_]; [lia|].
  destruct (Z.leb_spec dec 1) as [|_]; [lia|].
  injection I3 as Hw.
  apply detect_Ok in H as (dcm & _ & _ & H1 & H2 & _).
  rewrite I2, <- Hw in H1.
  pose proof (decimate_length _ _ _ _ Hd H1) as L1.
  unfold power in L1. rewrite length_map, Hx in L1.
  set (N := Z.of_nat (length buff)) in *.
  assert (HNd : (N mod dec = 0)%Z).
  { apply Z.mod_divide; [lia|]. apply Z.divide_trans with seg_len;
      apply Z.mod_divide; try lia; assumption. }
  rewrite HNd in L1. simpl in L1. rewrite Z.add_0_r in L1.
  assert (Hq : (0 <= N / dec)%Z) by (apply Z.div_pos; lia).
  rewrite Z.quot_div_nonneg in P by lia.
  rewrite assign_slice_same in H2 by lia. injection H2 as E.
  unfold amp_sq. rewrite <- E.
  repeat split; try assumption.
  intros j Hj. rewrite (decimate_nth _ _ _ _ j Hd H1) by lia.
  rewrite kaiser_lowpass_length. do 2 f_equal.
  rewrite Z2Nat.id by lia.
  replace (2 * dec + 1 - 1)%Z with (dec * 2)%Z by ring.
  apply Z_div_mult. lia.
Qed.

Lemma count_above_none (T : R) (row : list R) :
  Forall (fun v => v <= T) row -> count_above T row = 0%Z.
Proof.
  intros H. rewrite count_above_filter.
  induction H as [|v row Hv _ IH]; simpl; [reflexivity|].
  destruct (Rgt_dec v T) as [Hg|_]; [lra | exact IH].
Qed.


(** X5. A buffer that stays a factor of 2 (3 dB) under the threshold is
    never flagged, for a threshold between -300 and 300 dB: the taps are
    not negative and add up to 1, so no decimated sample is above the
    threshold either. With a [samp_above_thresh] that is not negative the
    call flags no segment and returns no row. (The margin and the range
    keep the statement clear of the rounding, overflow and underflow of
    single precision, which the model does not have.) *)
Theorem quiet_buffer_flags_nothing :
  forall buff seg_len dec thresh_db samp d x d' y,
    reachable i0 buff seg_len dec thresh_db samp d ->
    (0 <= samp)%Z ->
    -300 <= thresh_db <= 300 ->
    Forall (fun z => 2 * sq_mag z <= Rpower 10 (thresh_db / 10)) x ->
    detect d x = Ok (d', y) ->
    Forall (fun v => 0 <= v <= Rpower 10 (thresh_db / 10)) (amp_sq d') /\
    Forall (fun f => f = false) (det_index d') /\
    y = [].
Proof.
  intros buff seg_len dec thresh_db samp d x d' y Hr Hs _ Hx2 H.
  assert (Hx : Forall (fun z => sq_mag z <= Rpower 10 (thresh_db / 10)) x).
  { eapply Forall_impl; [|exact Hx2]. intros [a b]. unfold sq_mag. simpl. nra. }
  clear Hx2.
  destruct (reachable_inv i0 _ _ _ _ _ _ Hr) as (_ & I2 & I3 & _ & I5 & I6 & _).
  set (T := Rpower 10 (thresh_db / 10)) in *.
  assert (HT : 0 < T) by apply exp_pos.
  pose proof (create_fir_filter_window_nonneg i0 i0_pos _ _ I3) as Hw.
  rewrite create_fir_filter_window_cases in I3.
  destruct (Z.eqb_spec dec 0) as [|_]; [discriminate|].
  destruct (Z.leb_spec dec 1) as [|Hd]; [discriminate|].
  injection I3 as Ew.
  assert (Hp : Forall (fun v => v <= T) (power x)).
  { rewrite power_sq_mag. apply Forall_forall. intros v Hv.
    apply in_map_iff in Hv as [z [<- Hz]]. rewrite Forall_forall in Hx. now apply Hx. }
  pose proof (detect_nonneg _ _ _ _ Hw H) as Hnn.
  pose proof (detect_Ok _ _ _ _ H)
    as (dcm & mat & x_mat & H1 & H2 & H3 & H4 & _ & H6 & _).
  assert (Hdcm : Forall (fun v => v <= T) dcm).
  { unfold decimate, resample_poly in H1.
    destruct (_dec d <? 1)%Z; [discriminate|].
    destruct (_dec d =? 1)%Z; injection H1 as <-; [exact Hp|].
    apply Forall_forall. intros v Hv. apply in_map_iff in Hv as [j [<- _]].
    apply Rle_trans with (T * sum (_win d)).
    - apply fir_sum_le; [exact Hw|]. intros k. apply at_index_le; [lra | exact Hp].
    - rewrite <- Ew, kaiser_lowpass_sum by lia. lra. }
  pose proof (assign_slice_Forall _ _ _ _ H2 Hdcm) as Hxpd.
  assert (Hf : Forall (fun f => f = false) (det_index d')).
  { apply reshape_Ok in H3 as (_ & _ & _ & Hcat).
    rewrite <- Hcat in Hxpd. apply Forall_concat in Hxpd.
    unfold det_index. eapply assign_slice_Forall; [exact H4|].
    rewrite seg_det_map. apply Forall_forall. intros f Hf.
    apply in_map_iff in Hf as [row [<- Hrow]].
    rewrite Forall_forall in Hxpd. rewrite I5. fold T.
    rewrite count_above_none by auto.
    rewrite I6, Z.gtb_ltb. apply Z.ltb_ge. exact Hs. }
  split; [|split; [exact Hf|]].
  - unfold amp_sq in *. apply Forall_forall. intros v Hv.
    rewrite Forall_forall in Hnn, Hxpd. split; auto.
  - unfold bool_index in H6.
    destruct (length (_seg_det_index d') =? length x_mat)%nat; [|discriminate].
    injection H6 as <-. now apply compress_all_false.
Qed.





End Envelope.

Lemma quiet_buffer_flags_nothing_witness :
  let d := demo demo_buff 20 1 in
  let r := called (detect d demo_buff) in
  Forall (fun v => 0 <= v <= Rpower 10 (20 / 10)) (amp_sq (fst r)) /\
  Forall (fun f => f = false) (det_index (fst r)) /\
  snd r = [].
Proof.
  intros d r.
  apply (quiet_buffer_flags_nothing i0_series i0_series_pos demo_buff 4 2 20 1
           d demo_buff (fst r) (snd r)).
  - apply demo_reachable; [reflexivity | lia].
  - lia.
  - lra.
  - assert (HT : 8 <= Rpower 10 (20 / 10)).
    { replace (20 / 10) with (INR 2) by (simpl; lra).
      rewrite Rpower_pow by lra. simpl. lra. }
    unfold demo_buff, sq_mag.
    repeat (apply Forall_cons; [simpl; lra|]). apply Forall_nil.
  - subst r. rewrite <- surjective_pairing.
    apply demo_detect; [reflexivity | lia | reflexivity].
Defined.

Lemma built_Ok (r : result PowerDetector) : is_ok r -> r = Ok (built r).
Proof. intros [d ->]. reflexivity. Qed.





(** ** The rows a call returns *)

Section Returned.

Import Np NpFacts Cusignal CusignalFacts.

Variable i0 : R -> R.

(** On a buffer as long as the buffer of the construction nothing is
    broadcast: the working buffers hold the output of the decimator and the
    flags of its rows, as they are. *)
Lemma reachable_stages buff seg_len dec thresh_db samp d x d' y :
  reachable i0 buff seg_len dec thresh_db samp d ->
  length x = length buff ->
  detect d x = Ok (d', y) ->
  exists win env_mat x_mat,
    _create_fir_filter_window i0 dec = Ok win /\
    decimate (power x) dec win = Ok (amp_sq d') /\
    reshape (amp_sq d') (Z.quot seg_len dec) = Ok env_mat /\
    det_index d' = seg_det (Rpower 10 (thresh_db / 10)) samp env_mat /\
    reshape x seg_len = Ok x_mat /\
    bool_index x_mat (det_index d') = Ok y.
Proof.
  intros Hr Hx H.
  destruct (reachable_inv i0 _ _ _ _ _ _ Hr) as (I1 & I2 & I3 & I4 & I5 & I6 & _).
  destruct (reachable_sizes _ _ _ _ _ _ _ Hr) as [P Q].
  pose proof (detect_Ok _ _ _ _ H)
    as (dcm & mat & x_mat & H1 & H2 & H3 & H4 & H5 & H6 & _).
  rewrite I2 in H1. rewrite I4 in H3. rewrite I5, I6 in H4. rewrite I1 in H5.
  assert (L : length dcm = length (_x_power_dec d) /\
              (length dcm = length (_x_power_dec d') ->
               length mat = length (_seg_det_index d))).
  { destruct buff as [|b0 buff0] eqn:Eb.
    - apply length_zero_iff_nil in Hx. subst x.
      apply decimate_nil in H1. subst dcm. simpl in P, Q.
      split; [now rewrite P|]. intros L'.
      symmetry in L'. apply length_zero_iff_nil in L'. rewrite L' in H3.
      apply reshape_Ok in H3 as (_ & M3 & _). simpl in M3.
      rewrite Q. destruct mat; [reflexivity|]. simpl in M3.
      exfalso.
      assert (Z.to_nat (Z.quot seg_len dec) = 0%nat) by nia.
      pose proof (detect_Ok_sizes _ _ _ _ H) as (_ & Kd & _).
      rewrite I4 in Kd. lia.
    - rewrite <- Eb in *.
      assert (Hne : buff <> []) by (rewrite Eb; discriminate).
      destruct (reachable_shape i0 _ _ _ _ _ _ Hr Hne) as (Hd & Hs & Hsd & HNs).
      pose proof (decimate_length _ _ _ _ Hd H1) as L1.
      unfold power in L1. rewrite length_map, Hx in L1.
      set (N := Z.of_nat (length buff)) in *.
      pose proof (Z.div_mod seg_len dec ltac:(lia)) as DS.
      rewrite Hsd, Z.add_0_r in DS.
      pose proof (Z.div_mod N seg_len ltac:(lia)) as DN.
      rewrite HNs, Z.add_0_r in DN.
      assert (HNd : (N mod dec = 0)%Z).
      { apply Z.mod_divide; [lia|]. apply Z.divide_trans with seg_len;
          apply Z.mod_divide; try lia; assumption. }
      pose proof (Z.div_mod N dec ltac:(lia)) as DNd.
      rewrite HNd, Z.add_0_r in DNd.
      rewrite HNd in L1. simpl in L1. rewrite Z.add_0_r in L1.
      assert (H0N : (0 <= N)%Z) by (unfold N; lia).
      assert (Hq1 : (0 <= N / dec)%Z) by (apply Z.div_pos; lia).
      assert (Hq2 : (0 <= N / seg_len)%Z) by (apply Z.div_pos; lia).
      assert (Hq3 : (0 < seg_len / dec)%Z) by nia.
      rewrite Z.quot_div_nonneg in P, Q, H3 by lia.
      split; [lia|]. intros L'.
      apply reshape_Ok in H3 as (_ & M3 & _).
      apply (f_equal Z.of_nat) in M3.
      rewrite Nat2Z.inj_mul, Z2Nat.id, <- L', L1 in M3 by lia.
      assert (Z.of_nat (length mat) = N / seg_len)%Z by nia. lia. }
  destruct L as [L1 L2].
  rewrite assign_slice_same in H2 by exact L1. injection H2 as E2.
  rewrite assign_slice_same in H4
    by (rewrite seg_det_length; apply L2; now rewrite <- E2).
  injection H4 as E4.
  exists (_win d), mat, x_mat. unfold amp_sq, det_index.
  rewrite <- E2 in *. rewrite <- E4 in *.
  repeat split; assumption.
Qed.

(** C1. On every detector that was built, and for every buffer [x] as long
    as the buffer of the construction (N samples): N is a multiple of
    [seg_len], [detect] returns, and what it returns is exactly the rows of
    [x] cut into N/seg_len rows of [seg_len] samples whose detection flag
    holds, in their original order. The flags are those of this buffer:
    the flag of a row holds when more than [samp_above_thresh] samples of
    the same row of the decimated envelope of [x] are above the threshold.
    At most N/seg_len rows are returned and each has [seg_len] samples. *)
Theorem detect_returns_flagged_segments :
  forall buff seg_len dec thresh_db samp d x,
    reachable i0 buff seg_len dec thresh_db samp d ->
    length x = length buff ->
    exists d' y x_mat win env env_mat,
      detect d x = Ok (d', y) /\
      reshape x seg_len = Ok x_mat /\
      (Z.of_nat (length x) mod seg_len = 0)%Z /\
      Z.of_nat (length x_mat) = (Z.of_nat (length x) / seg_len)%Z /\
      Forall (fun row => Z.of_nat (length row) = seg_len) x_mat /\
      concat x_mat = x /\
      _create_fir_filter_window i0 dec = Ok win /\
      decimate (power x) dec win = Ok env /\
      reshape env (Z.quot seg_len dec) = Ok env_mat /\
      amp_sq d' = env /\
      det_index d'
      = map (fun row =>
               (count_above (Rpower 10 (thresh_db / 10)) row >? samp)%Z)
            env_mat /\
      length env_mat = length x_mat /\
      y = rows_where (det_index d') x_mat /\
      (Z.of_nat (length y) <= Z.of_nat (length x) / seg_len)%Z /\
      Forall (fun row => Z.of_nat (length row) = seg_len) y.
Proof.
  intros buff seg_len dec thresh_db samp d x Hr Hx.
  destruct (reachable_inv i0 _ _ _ _ _ _ Hr)
    as (_ & _ & _ & _ & _ & _ & _ & _ & I9).
  destruct (I9 x Hx) as [[d' y] Hdet].
  destruct (reachable_stages _ _ _ _ _ _ _ _ _ Hr Hx Hdet)
    as (win & env_mat & x_mat & S1 & S2 & S3 & S4 & S5 & S6).
  destruct (reshape_Ok _ _ _ S5) as (Hk & Hlen & Hrows & Hcat).
  unfold bool_index in S6.
  destruct (Nat.eqb_spec (length (det_index d')) (length x_mat)) as [E|E];
    [|discriminate].
  inversion S6 as [Hy]; clear S6.
  assert (HN : Z.of_nat (length x) = (Z.of_nat (length x_mat) * seg_len)%Z).
  { rewrite <- Hlen, Nat2Z.inj_mul, Z2Nat.id by lia. reflexivity. }
  assert (Hdiv : (Z.of_nat (length x) / seg_len)%Z = Z.of_nat (length x_mat)).
  { rewrite HN. apply Z_div_mult. lia. }
  assert (Hrows' : Forall (fun row => Z.of_nat (length row) = seg_len) x_mat).
  { eapply Forall_impl; [|exact Hrows]. simpl. intros row Hrow.
    rewrite Hrow. apply Z2Nat.id. lia. }
  exists d', y, x_mat, win, (amp_sq d'), env_mat.
  repeat split; try assumption.
  - rewrite HN. apply Z_mod_mult.
  - now symmetry.
  - rewrite S4. apply seg_det_map.
  - rewrite <- E, S4. symmetry. apply seg_det_length.
  - subst y. now apply compress_rows_where.
  - rewrite Hdiv. subst y. apply inj_le. apply compress_length.
  - subst y. now apply compress_Forall.
Qed.

End Returned.

(** The detector of the burst example. *)
Lemma burst_reachable : reachable i0_series burst_buff 8 2 0 1 burst_detector.
Proof.
  apply reach_init. apply built_Ok.
  apply (init_succeeds i0_series burst_buff 8 2 0 1 4 2); try lia.
  - reflexivity.
  - lra.
Qed.


(** A filter window that meets the same power at its five taps. *)
Lemma burst_window (c : Z) (P : R) :
  (forall i, (0 <= i < 5)%Z -> Cusignal.at_index (power burst_buff) (c - i) = P) ->
  Cusignal.fir_sum (kaiser_lowpass i0_series 2) (power burst_buff) c = P.
Proof.
  intros H. rewrite (fir_sum_const _ _ P).
  - rewrite (kaiser_lowpass_sum i0_series i0_series_pos) by lia. ring.
  - intros i Hi. apply H. rewrite kaiser_lowpass_length in Hi. simpl in Hi. lia.
Qed.

Ltac burst_taps :=
  let i := fresh "i" in
  let Hi := fresh "Hi" in
  intros i Hi;
  assert (i = 0 \/ i = 1 \/ i = 2 \/ i = 3 \/ i = 4)%Z
    as [-> | [-> | [-> | [-> | ->]]]] by lia;
  rewrite power_sq_mag; unfold Cusignal.at_index, burst_buff, sq_mag, Czero;
  simpl; lra.

(** The decimated envelope of the burst: nothing where the windows see the
    silence only, the power of the burst where they see the burst only. *)
Lemma burst_envelope d' y :
  detect burst_detector burst_buff = Ok (d', y) ->
  exists e3 e4 e7, amp_sq d' = [0; 0; 0; e3; e4; 2; 2; e7].
Proof.
  intros H.
  destruct (reachable_envelope i0_series _ _ _ _ _ _ _ _ _ burst_reachable
              ltac:(discriminate) eq_refl H) as (_ & Hlen & _ & Hnth).
  change (Z.of_nat (length burst_buff) / 2)%Z with 8%Z in *.
  assert (E0 : nth 0 (amp_sq d') 0 = 0).
  { rewrite (Hnth 0%nat) by lia. apply burst_window. burst_taps. }
  assert (E1 : nth 1 (amp_sq d') 0 = 0).
  { rewrite (Hnth 1%nat) by lia. apply burst_window. burst_taps. }
  assert (E2 : nth 2 (amp_sq d') 0 = 0).
  { rewrite (Hnth 2%nat) by lia. apply burst_window. burst_taps. }
  assert (E5 : nth 5 (amp_sq d') 0 = 2).
  { rewrite (Hnth 5%nat) by lia. apply burst_window. burst_taps. }
  assert (E6 : nth 6 (amp_sq d') 0 = 2).
  { rewrite (Hnth 6%nat) by lia. apply burst_window. burst_taps. }
  destruct (amp_sq d') as [|a0 [|a1 [|a2 [|a3 [|a4 [|a5 [|a6 [|a7 [|a8 l]]]]]]]]];
    cbn [length] in Hlen; try lia.
  simpl in E0, E1, E2, E5, E6. subst. now exists a3, a4, a7.
Qed.

(** The flags of the burst: the silence is not flagged, the burst is. *)
Lemma burst_flags d' y :
  detect burst_detector burst_buff = Ok (d', y) ->
  det_index d' = [false; true].
Proof.
  intros H.
  destruct (burst_envelope _ _ H) as (e3 & e4 & e7 & Ee).
  destruct (reachable_stages i0_series _ _ _ _ _ _ _ _ _ burst_reachable eq_refl H)
    as (_ & env_mat & _ & _ & _ & S3 & S4 & _).
  rewrite Ee in S3. injection S3 as <-.
  rewrite S4, seg_det_map.
  replace (0 / 10) with 0 by lra. rewrite Rpower_O by lra.
  cbn [map Np.chunks firstn skipn]. rewrite !count_above_filter. cbn [filter].
  repeat match goal with
         | |- context [Rgt_dec ?a ?b] => destruct (Rgt_dec a b)
         end; try (exfalso; lra); reflexivity.
Qed.

Lemma detect_returns_flagged_segments_witness :
  exists d' y,
    detect burst_detector burst_buff = Ok (d', y) /\
    det_index d' = [false; true] /\
    y = [repeat (1, 1) 8].
Proof.
  destruct (detect_returns_flagged_segments i0_series burst_buff 8 2 0 1
              burst_detector burst_buff burst_reachable eq_refl)
    as (d' & y & x_mat & win & env & env_mat & H & Hx & _ & _ & _ & _ & _ & _
        & _ & _ & _ & _ & Hy & _).
  exists d', y. split; [exact H|].
  pose proof (burst_flags _ _ H) as Hf. split; [exact Hf|].
  rewrite Hy, Hf. injection Hx as <-. reflexivity.
Defined.

(** ** Beyond the claims: the writer *)

Module WriterFacts.

Import String Ascii Writer.

Lemma append_length (a b : string) :
  String.length (append a b) = (String.length a + String.length b)%nat.
Proof. induction a as [|c a IH]; simpl; [reflexivity | now rewrite IH]. Qed.

Lemma append_inj_l (a x y : string) : append a x = append a y -> x = y.
Proof.
  induction a as [|c a IH]; simpl; intros H; [exact H|].
  injection H as H. now apply IH.
Qed.

Lemma append_inj_r (x y s : string) : append x s = append y s -> x = y.
Proof.
  revert y. induction x as [|c x IH]; intros [|c' y] H; simpl in H.
  - reflexivity.
  - apply (f_equal String.length) in H. simpl in H.
    rewrite append_length in H. lia.
  - apply (f_equal String.length) in H. simpl in H.
    rewrite append_length in H. lia.
  - injection H as -> H. f_equal. now apply IH.
Qed.

Lemma counter_of_zero (t : string) :
  counter_of (String "0" t) = counter_of t.
Proof.
  unfold counter_of. simpl.
  destruct (DecimalString.NilEmpty.uint_of_string t) as [d|]; reflexivity.
Qed.

Lemma counter_of_zeros (k : nat) (s : string) :
  counter_of (append (zeros k) s) = counter_of s.
Proof.
  induction k as [|k IH]; simpl; [reflexivity|]. now rewrite counter_of_zero.
Qed.

Lemma counter_of_digits (c : Z) : counter_of (digits c) = Some (Z.to_N c).
Proof.
  unfold counter_of, digits.
  assert (Hn : N.to_uint (Z.to_N c) <> Decimal.Nil).
  { destruct (Z.to_N c) as [|p]; simpl; [discriminate|].
    apply DecimalPos.Unsigned.to_uint_nonnil. }
  assert (E : DecimalString.NilZero.string_of_uint (N.to_uint (Z.to_N c))
              = DecimalString.NilEmpty.string_of_uint (N.to_uint (Z.to_N c))).
  { unfold DecimalString.NilZero.string_of_uint.
    destruct (N.to_uint (Z.to_N c)); [contradiction | reflexivity ..]. }
  rewrite E, DecimalString.NilEmpty.usu. simpl.
  now rewrite DecimalN.Unsigned.of_to.
Qed.

(** The counter can be read back from the ten digits of the name. *)
Lemma counter_of_format (c : Z) :
  (0 <= c)%Z -> counter_of (format_010 c) = Some (Z.to_N c).
Proof.
  intros Hc. unfold format_010. destruct (Z.ltb_spec c 0) as [|_]; [lia|].
  unfold zfill. now rewrite counter_of_zeros, counter_of_digits.
Qed.

Lemma format_010_inj (c1 c2 : Z) :
  (0 <= c1)%Z -> (0 <= c2)%Z -> format_010 c1 = format_010 c2 -> c1 = c2.
Proof.
  intros H1 H2 E. apply (f_equal counter_of) in E.
  rewrite !counter_of_format in E by assumption. injection E as E. lia.
Qed.

Lemma filename_inj (label : string) (c1 c2 : Z) :
  (0 <= c1)%Z -> (0 <= c2)%Z -> filename label c1 = filename label c2 ->
  c1 = c2.
Proof.
  unfold filename. intros H1 H2 E.
  apply append_inj_l in E. apply (append_inj_l "_") in E.
  apply append_inj_r in E. now apply format_010_inj.
Qed.

Lemma prefix_sep (ch : ascii) (t : string) :
  prefix "/" (String ch t) = if ascii_dec "/" ch then true else false.
Proof.
  cbn [prefix]. destruct (ascii_dec "/" ch); [|reflexivity].
  destruct t; reflexivity.
Qed.

Lemma filename_absolute (label : string) (c : Z) :
  prefix "/" (filename label c) = prefix "/" (append label "_").
Proof.
  unfold filename. destruct label as [|ch l]; [reflexivity|].
  cbn [append]. now rewrite !prefix_sep.
Qed.

(** Two counters never share a path. *)
Lemma path_inj (a : attrs) (c1 c2 : Z) :
  (0 <= c1)%Z -> (0 <= c2)%Z -> file_path a c1 = file_path a c2 -> c1 = c2.
Proof.
  intros H1 H2. unfold file_path, path_join. rewrite !filename_absolute.
  destruct (prefix "/" (append (_label a) "_")).
  - now apply filename_inj.
  - destruct ((_output_path a =? "")%string || endswith_sep (_output_path a));
      intros E; apply append_inj_l in E.
    + now apply filename_inj in E.
    + apply (append_inj_l "/") in E. now apply filename_inj in E.
Qed.

Lemma file_path_ext (a b : attrs) (c : Z) :
  _output_path a = _output_path b -> _label a = _label b ->
  file_path a c = file_path b c.
Proof. intros E1 E2. unfold file_path. now rewrite E1, E2. Qed.

Lemma files_app (e1 e2 : list event) : files (e1 ++ e2) = files e1 ++ files e2.
Proof.
  induction e1 as [|e e1 IH]; simpl; [reflexivity|].
  destruct e; simpl; now rewrite IH.
Qed.

Lemma numbered_app (a : attrs) (c : Z) (r1 r2 : list (list complex)) :
  numbered a c (r1 ++ r2)
  = numbered a c r1 ++ numbered a (c + Z.of_nat (List.length r1)) r2.
Proof.
  revert c. induction r1 as [|r r1 IH]; intros c; simpl.
  - now rewrite Z.add_0_r.
  - rewrite IH. do 3 f_equal. lia.
Qed.

Lemma numbered_length (a : attrs) (c : Z) (rows : list (list complex)) :
  List.length (numbered a c rows) = List.length rows.
Proof. revert c. induction rows as [|r rows IH]; intros c; simpl; auto. Qed.

Lemma numbered_data (a : attrs) (c : Z) (rows : list (list complex)) :
  map snd (numbered a c rows) = rows.
Proof. revert c. induction rows as [|r rows IH]; intros c; simpl; f_equal; auto. Qed.

Lemma numbered_paths (a : attrs) (c : Z) (rows : list (list complex)) (p : string) :
  In p (map fst (numbered a c rows)) ->
  exists j, (c <= j)%Z /\ p = file_path a j.
Proof.
  revert c. induction rows as [|r rows IH]; intros c; simpl; [contradiction|].
  intros [<-|Hin].
  - exists c. split; [lia | reflexivity].
  - destruct (IH _ Hin) as [j [Hj ->]]. exists j. split; [lia | reflexivity].
Qed.

Lemma numbered_NoDup (a : attrs) (c : Z) (rows : list (list complex)) :
  (0 <= c)%Z -> NoDup (map fst (numbered a c rows)).
Proof.
  revert c. induction rows as [|r rows IH]; intros c Hc; simpl; constructor.
  - intros Hin. apply numbered_paths in Hin as [j [Hj E]].
    apply path_inj in E; lia.
  - apply IH. lia.
Qed.

Lemma reaches_below (c c' : Z) (l : limit) :
  (c' <= c)%Z -> reaches c l = false -> reaches c' l = false.
Proof.
  destruct l as [n|]; simpl; [|reflexivity].
  rewrite !Z.leb_gt. lia.
Qed.

Lemma numbered_ext (a b : attrs) (c : Z) (rows : list (list complex)) :
  _output_path a = _output_path b -> _label a = _label b ->
  numbered a c rows = numbered b c rows.
Proof.
  intros E1 E2. revert c. induction rows as [|r rows IH]; intros c; simpl;
    [reflexivity|]. now rewrite IH, (file_path_ext a b).
Qed.

(** The file system lets the first file through, and the others from the
    next counter on. *)
Lemma writable_step (fs : file_system) (a a' : attrs) (c : Z) (k : nat) :
  _output_path a' = _output_path a -> _label a' = _label a ->
  writable fs a c (S k) ->
  open_w fs (file_path a c) = None /\ writable fs a' (c + 1) k.
Proof.
  intros E1 E2 H. split.
  - specialize (H 0%nat ltac:(lia)). now rewrite Z.add_0_r in H.
  - intros j Hj. rewrite (file_path_ext a' a) by assumption.
    specialize (H (S j) ltac:(lia)). rewrite Nat2Z.inj_succ in H.
    replace (c + 1 + Z.of_nat j)%Z with (c + Z.succ (Z.of_nat j))%Z by lia.
    exact H.
Qed.

Lemma fs_ok_writable (a : attrs) (c : Z) (k : nat) : writable fs_ok a c k.
Proof. intros j _. reflexivity. Qed.

Lemma writable_le (fs : file_system) (a : attrs) (c : Z) (k k' : nat) :
  (k' <= k)%nat -> writable fs a c k -> writable fs a c k'.
Proof. intros Hk H j Hj. apply H. lia. Qed.

Lemma writable_add (fs : file_system) (a a' : attrs) (c : Z) (k1 k2 : nat) :
  _output_path a' = _output_path a -> _label a' = _label a ->
  writable fs a c (k1 + k2) ->
  writable fs a c k1 /\ writable fs a' (c + Z.of_nat k1) k2.
Proof.
  intros E1 E2 H. split.
  - apply (writable_le fs a c (k1 + k2)); [lia | exact H].
  - intros j Hj. rewrite (file_path_ext a' a) by assumption.
    specialize (H (k1 + j)%nat ltac:(lia)). rewrite Nat2Z.inj_add in H.
    now rewrite <- Z.add_assoc.
Qed.

(** The loop below the limit, on a file system that lets the files
    through. *)
Lemma tofile_from_below (fs : file_system) (nf : limit)
  (rows : list (list complex)) :
  forall (a : attrs) (len i : Z),
    len = (i + Z.of_nat (List.length rows))%Z ->
    reaches (_ctr a + Z.of_nat (List.length rows)) nf = false ->
    writable fs a (_ctr a) (List.length rows) ->
    exists evs,
      tofile_from fs nf a len i rows
      = (mkAttrs (_output_path a) (_label a)
           (_ctr a + Z.of_nat (List.length rows)), evs, None) /\
      files evs = numbered a (_ctr a) rows /\
      prints evs
      = match rows with
        | [] => []
        | _ :: _ => [append "File Write counter = "
                       (str (_ctr a + Z.of_nat (List.length rows)))]
        end.
Proof.
  induction rows as [|sig rest IH]; intros a len i Hlen Hr Hw.
  - exists []. simpl. rewrite Z.add_0_r. destruct a. repeat split.
  - set (a' := mkAttrs (_output_path a) (_label a) (_ctr a + 1)).
    destruct (writable_step fs a a' (_ctr a) (List.length rest) eq_refl eq_refl Hw)
      as [Ho Hw'].
    cbn [tofile_from]. rewrite Ho. cbn [_ctr _output_path _label].
    assert (Hr1 : reaches (_ctr a + 1) nf = false).
    { eapply reaches_below; [|exact Hr]. simpl List.length. lia. }
    rewrite Hr1. fold a'.
    destruct (IH a' len (i + 1)%Z) as (evs & E & F & P).
    { simpl List.length in Hlen. lia. }
    { simpl. simpl List.length in Hr.
      replace (_ctr a + 1 + Z.of_nat (List.length rest))%Z
        with (_ctr a + Z.of_nat (S (List.length rest)))%Z by lia. exact Hr. }
    { exact Hw'. }
    rewrite (numbered_ext a' a) in F by reflexivity.
    rewrite E. cbn [_ctr _output_path _label a'] in *.
    replace (_ctr a + 1 + Z.of_nat (List.length rest))%Z
      with (_ctr a + Z.of_nat (List.length (sig :: rest)))%Z in *
      by (simpl List.length; lia).
    destruct (Z.eqb_spec i (len - 1)) as [Ei|Ei].
    + assert (rest = []) by (destruct rest; [reflexivity | simpl List.length in Hlen; lia]).
      subst rest. simpl in P, F. eexists. split; [reflexivity|].
      simpl. rewrite F. split; [reflexivity|]. rewrite P. reflexivity.
    + assert (rest <> []) by (intros ->; simpl List.length in Hlen; lia).
      eexists. split; [reflexivity|]. simpl. rewrite F. split; [reflexivity|].
      rewrite P. destruct rest; [contradiction | reflexivity].
Qed.

(** The loop when the limit is met among the rows. *)
Lemma tofile_from_reaches (fs : file_system) (n : Z)
  (rows : list (list complex)) :
  forall (a : attrs) (len i : Z),
    len = (i + Z.of_nat (List.length rows))%Z ->
    (_ctr a < n <= _ctr a + Z.of_nat (List.length rows))%Z ->
    writable fs a (_ctr a) (Z.to_nat (n - _ctr a)) ->
    exists evs,
      tofile_from fs (Finite n) a len i rows
      = (mkAttrs (_output_path a) (_label a) n, evs, Some (SystemExit 0)) /\
      files evs = numbered a (_ctr a) (firstn (Z.to_nat (n - _ctr a)) rows) /\
      prints evs
      = [append "File Write counter = " (append (str n) ". Exiting.")].
Proof.
  induction rows as [|sig rest IH]; intros a len i Hlen Hn Hw.
  - simpl in Hn. lia.
  - set (a' := mkAttrs (_output_path a) (_label a) (_ctr a + 1)).
    replace (Z.to_nat (n - _ctr a)) with (S (Z.to_nat (n - (_ctr a + 1)))) in *
      by lia.
    destruct (writable_step fs a a' (_ctr a) _ eq_refl eq_refl Hw) as [Ho Hw'].
    cbn [tofile_from reaches]. rewrite Ho. cbn [_ctr _output_path _label].
    destruct (Z.leb_spec n (_ctr a + 1)) as [Hle|Hgt].
    + assert (n = (_ctr a + 1)%Z) by lia. subst n.
      eexists. split; [reflexivity|].
      replace (_ctr a + 1 - (_ctr a + 1))%Z with 0%Z by lia.
      simpl. split; reflexivity.
    + fold a'.
      destruct (IH a' len (i + 1)%Z) as (evs & E & F & P).
      { simpl List.length in Hlen. lia. }
      { simpl. simpl List.length in Hn. lia. }
      { exact Hw'. }
      rewrite (numbered_ext a' a) in F by reflexivity.
      rewrite E. cbn [_ctr _output_path _label a'] in *.
      assert (Hi : (i =? len - 1)%Z = false).
      { apply Z.eqb_neq. simpl List.length in *. lia. }
      rewrite Hi. eexists. split; [reflexivity|].
      simpl. rewrite F. split; [reflexivity | exact P].
Qed.

(** The loop when the write of row [j] raises. *)
Lemma tofile_from_fails (fs : file_system) (nf : limit)
  (rows : list (list complex)) :
  forall (a : attrs) (len i : Z) (j : nat) (e : io_error),
    len = (i + Z.of_nat (List.length rows))%Z ->
    (j < List.length rows)%nat ->
    reaches (_ctr a + Z.of_nat j) nf = false ->
    writable fs a (_ctr a) j ->
    open_w fs (file_path a (_ctr a + Z.of_nat j)) = Some e ->
    exists evs,
      tofile_from fs nf a len i rows
      = (mkAttrs (_output_path a) (_label a) (_ctr a + Z.of_nat j), evs,
         Some (Failed e)) /\
      files evs = numbered a (_ctr a) (firstn j rows) /\
      prints evs = [].
Proof.
  induction rows as [|sig rest IH]; intros a len i j e Hlen Hj Hr Hw He.
  - simpl in Hj. lia.
  - destruct j as [|j].
    + simpl Z.of_nat in *. rewrite Z.add_0_r in *.
      cbn [tofile_from]. rewrite He. exists []. destruct a. repeat split.
    + set (a' := mkAttrs (_output_path a) (_label a) (_ctr a + 1)).
      destruct (writable_step fs a a' (_ctr a) j eq_refl eq_refl Hw) as [Ho Hw'].
      cbn [tofile_from]. rewrite Ho. cbn [_ctr _output_path _label].
      assert (Hr1 : reaches (_ctr a + 1) nf = false).
      { eapply reaches_below; [|exact Hr]. lia. }
      rewrite Hr1. fold a'.
      destruct (IH a' len (i + 1)%Z j e) as (evs & E & F & P).
      { simpl List.length in Hlen. lia. }
      { simpl in Hj. lia. }
      { simpl. replace (_ctr a + 1 + Z.of_nat j)%Z
          with (_ctr a + Z.of_nat (S j))%Z by lia. exact Hr. }
      { exact Hw'. }
      { rewrite (file_path_ext a' a) by reflexivity. simpl.
        replace (_ctr a + 1 + Z.of_nat j)%Z
          with (_ctr a + Z.of_nat (S j))%Z by lia. exact He. }
      rewrite (numbered_ext a' a) in F by reflexivity.
      rewrite E. cbn [_ctr _output_path _label a'] in *.
      replace (_ctr a + 1 + Z.of_nat j)%Z
        with (_ctr a + Z.of_nat (S j))%Z in * by lia.
      assert (Hi : (i =? len - 1)%Z = false).
      { apply Z.eqb_neq. simpl List.length in *. lia. }
      rewrite Hi. eexists. split; [reflexivity|].
      simpl. rewrite F. split; [reflexivity | exact P].
Qed.

(** Whatever the file system answers, the files of a call are those of the
    first rows, under the counters that follow each other. *)
Lemma tofile_from_prefix (fs : file_system) (nf : limit)
  (rows : list (list complex)) :
  forall (a : attrs) (len i : Z) a' evs s,
    tofile_from fs nf a len i rows = (a', evs, s) ->
    exists j, files evs = numbered a (_ctr a) (firstn j rows).
Proof.
  induction rows as [|sig rest IH]; intros a len i a1 evs s H.
  - simpl in H. injection H as _ <- _. exists 0%nat. reflexivity.
  - cbn [tofile_from] in H.
    destruct (open_w fs (file_path a (_ctr a))) as [e|].
    { injection H as _ <- _. exists 0%nat. reflexivity. }
    cbn [_ctr _output_path _label] in H.
    destruct (reaches (_ctr a + 1) nf).
    { injection H as _ <- _. exists 1%nat. reflexivity. }
    set (a' := mkAttrs (_output_path a) (_label a) (_ctr a + 1)) in *.
    destruct (tofile_from fs nf a' len (i + 1) rest) as [[a2 evs'] s'] eqn:E.
    destruct (IH _ _ _ _ _ _ E) as [j F].
    rewrite (numbered_ext a' a) in F by reflexivity.
    cbn [_ctr a'] in F.
    exists (S j).
    destruct (i =? len - 1)%Z; injection H as _ <- _; simpl; now rewrite F.
Qed.

(** The files of a call below the limit, and of a call that meets it. *)
Lemma tofile_below_files (fs : file_system) (w : PowerDetectorWriter)
  (a : attrs) (rows : list (list complex)) :
  _attrs w = Some a ->
  reaches (_ctr a + Z.of_nat (List.length rows)) (_num_files w) = false ->
  writable fs a (_ctr a) (List.length rows) ->
  exists evs,
    tofile fs w rows
    = (mkWriter (_num_files w)
         (Some (mkAttrs (_output_path a) (_label a)
                  (_ctr a + Z.of_nat (List.length rows)))),
       evs, None) /\
    files evs = numbered a (_ctr a) rows.
Proof.
  destruct w as [nf oa]. simpl. intros -> Hr Hw.
  destruct rows as [|sig rest].
  - exists []. simpl. rewrite Z.add_0_r. destruct a. split; reflexivity.
  - destruct (tofile_from_below fs nf (sig :: rest) a
                (Z.of_nat (List.length (sig :: rest))) 0 eq_refl Hr Hw)
      as (evs & E & F & _).
    exists evs. unfold tofile. cbn [_attrs _num_files]. rewrite E.
    split; [reflexivity | exact F].
Qed.

Lemma tofile_reaches_files (fs : file_system) (w : PowerDetectorWriter)
  (a : attrs) (n : Z) (rows : list (list complex)) :
  _attrs w = Some a -> _num_files w = Finite n ->
  (_ctr a < n <= _ctr a + Z.of_nat (List.length rows))%Z ->
  writable fs a (_ctr a) (Z.to_nat (n - _ctr a)) ->
  exists evs,
    tofile fs w rows
    = (mkWriter (Finite n) (Some (mkAttrs (_output_path a) (_label a) n)),
       evs, Some (SystemExit 0)) /\
    files evs = numbered a (_ctr a) (firstn (Z.to_nat (n - _ctr a)) rows).
Proof.
  destruct w as [nf oa]. simpl. intros -> -> Hc Hw.
  destruct rows as [|sig rest]; [simpl in Hc; lia|].
  destruct (tofile_from_reaches fs n (sig :: rest) a
              (Z.of_nat (List.length (sig :: rest))) 0 eq_refl Hc Hw)
    as (evs & E & F & _).
  exists evs. unfold tofile. cbn [_attrs _num_files]. rewrite E.
  split; [reflexivity | exact F].
Qed.

Lemma tofile_fails_files (fs : file_system) (w : PowerDetectorWriter)
  (a : attrs) (rows : list (list complex)) (j : nat) (e : io_error) :
  _attrs w = Some a ->
  (j < List.length rows)%nat ->
  reaches (_ctr a + Z.of_nat j) (_num_files w) = false ->
  writable fs a (_ctr a) j ->
  open_w fs (file_path a (_ctr a + Z.of_nat j)) = Some e ->
  exists evs,
    tofile fs w rows
    = (mkWriter (_num_files w)
         (Some (mkAttrs (_output_path a) (_label a) (_ctr a + Z.of_nat j))),
       evs, Some (Failed e)) /\
    files evs = numbered a (_ctr a) (firstn j rows) /\
    prints evs = [].
Proof.
  destruct w as [nf oa]. simpl. intros -> Hj Hr Hw He.
  destruct rows as [|sig rest]; [simpl in Hj; lia|].
  destruct (tofile_from_fails fs nf (sig :: rest) a
              (Z.of_nat (List.length (sig :: rest))) 0 j e eq_refl Hj Hr Hw He)
    as (evs & E & F & P).
  exists evs. unfold tofile. cbn [_attrs _num_files]. rewrite E.
  repeat split; assumption.
Qed.

(** X8. Below the limit, and on a file system that lets the files through,
    [tofile] writes every row of the matrix to a file of its own, in order,
    numbered from the counter on; it adds the number of rows to the counter,
    prints the new counter once (after the last row, and not at all for an
    empty matrix) and returns. The counters are those whose digits the
    format prints exactly. *)
Theorem tofile_below_limit :
  forall (fs : file_system) (w : PowerDetectorWriter) (a : attrs)
         (rows : list (list complex)),
    _attrs w = Some a ->
    exact_counters (_ctr a) (List.length rows) ->
    reaches (_ctr a + Z.of_nat (List.length rows)) (_num_files w) = false ->
    writable fs a (_ctr a) (List.length rows) ->
    exists evs,
      tofile fs w rows
      = (mkWriter (_num_files w)
           (Some (mkAttrs (_output_path a) (_label a)
                    (_ctr a + Z.of_nat (List.length rows)))),
         evs, None) /\
      files evs = numbered a (_ctr a) rows /\
      map snd (files evs) = rows /\
      NoDup (map fst (files evs)) /\
      prints evs
      = match rows with
        | [] => []
        | _ :: _ => [append "File Write counter = "
                       (str (_ctr a + Z.of_nat (List.length rows)))]
        end.
Proof.
  intros fs [nf oa] a rows Ha [Hc _] Hr Hw. simpl in Ha, Hr. subst oa.
  destruct rows as [|sig rest].
  - exists []. simpl. rewrite Z.add_0_r. destruct a. repeat split. constructor.
  - destruct (tofile_from_below fs nf (sig :: rest) a
                (Z.of_nat (List.length (sig :: rest))) 0 eq_refl Hr Hw)
      as (evs & E & F & P).
    exists evs. unfold tofile. cbn [_attrs _num_files]. rewrite E.
    repeat split; try assumption.
    + rewrite F. apply numbered_data.
    + rewrite F. now apply numbered_NoDup.
Qed.

(** X9. When the limit [num_files = n] is met among the rows, and the file
    system lets the files up to it through, [tofile] writes the rows up to
    the one that brings the counter to [n], prints the exit message and
    leaves the program with status 0: the rows after it are not written,
    and the counter never passes [n]. *)
Theorem tofile_reaches_limit :
  forall (fs : file_system) (w : PowerDetectorWriter) (a : attrs) (n : Z)
         (rows : list (list complex)),
    _attrs w = Some a -> _num_files w = Finite n ->
    (_ctr a < n <= _ctr a + Z.of_nat (List.length rows))%Z ->
    exact_counters (_ctr a) (Z.to_nat (n - _ctr a)) ->
    writable fs a (_ctr a) (Z.to_nat (n - _ctr a)) ->
    exists evs,
      tofile fs w rows
      = (mkWriter (Finite n) (Some (mkAttrs (_output_path a) (_label a) n)),
         evs, Some (SystemExit 0)) /\
      files evs = numbered a (_ctr a) (firstn (Z.to_nat (n - _ctr a)) rows) /\
      Z.of_nat (List.length (files evs)) = (n - _ctr a)%Z /\
      prints evs
      = [append "File Write counter = " (append (str n) ". Exiting.")].
Proof.
  intros fs [nf oa] a n rows Ha Hn Hc _ Hw. simpl in Ha, Hn. subst oa nf.
  destruct rows as [|sig rest]; [simpl in Hc; lia|].
  destruct (tofile_from_reaches fs n (sig :: rest) a
              (Z.of_nat (List.length (sig :: rest))) 0 eq_refl Hc Hw)
    as (evs & E & F & P).
  exists evs. unfold tofile. cbn [_attrs _num_files]. rewrite E.
  repeat split; try assumption.
  rewrite F, numbered_length, length_firstn. lia.
Qed.

(** X10. With a [num_files] that is not positive, [__init__] sets none of
    the attributes and makes no directory; [tofile] then returns on an
    empty matrix, and raises [AttributeError] on the first row of any other
    matrix, without a write and without the exit of the limit. *)
Theorem tofile_without_attributes :
  forall (fs : file_system) (output_path label : string) (n : Z),
    (n <= 0)%Z ->
    let w := fst (fst (__init__ fs output_path label (Finite n))) in
    __init__ fs output_path label (Finite n)
    = (mkWriter (Finite n) None, [], None) /\
    tofile fs w [] = (w, [], None) /\
    forall sig rest,
      tofile fs w (sig :: rest) = (w, [], Some (AttributeError "_label")).
Proof.
  intros fs output_path label n Hn w. unfold w, __init__. simpl.
  destruct (Z.ltb_spec 0 n) as [|_]; [lia|]. repeat split.
Qed.

(** X11. A writer whose counter is not negative (and stays below 2^53)
    never writes two rows of a call to the same path, whatever the file
    system answers and whatever the outcome of the call: the files are
    those of the counters that follow each other from the current one on,
    and the ten digits of a counter tell it from every other. *)
Theorem tofile_paths_distinct :
  forall (fs : file_system) (w : PowerDetectorWriter) (a : attrs)
         (rows : list (list complex)) w' evs s,
    _attrs w = Some a -> (0 <= _ctr a)%Z ->
    (_ctr a + Z.of_nat (List.length rows) <= 2 ^ 53)%Z ->
    tofile fs w rows = (w', evs, s) ->
    NoDup (map fst (files evs)) /\
    exists j, files evs = numbered a (_ctr a) (firstn j rows).
Proof.
  intros fs [nf oa] a rows w' evs s Ha Hc _ H. simpl in Ha. subst oa.
  assert (Hex : exists j, files evs = numbered a (_ctr a) (firstn j rows)).
  { destruct rows as [|sig rest].
    - simpl in H. injection H as _ <- _. exists 0%nat. reflexivity.
    - unfold tofile in H. cbn [_attrs _num_files] in H.
      destruct (tofile_from fs nf a (Z.of_nat (List.length (sig :: rest))) 0
                  (sig :: rest)) as [[a' evs'] s'] eqn:E.
      injection H as _ <- _. exact (tofile_from_prefix _ _ _ _ _ _ _ _ _ E). }
  split; [|exact Hex]. destruct Hex as [j ->]. now apply numbered_NoDup.
Qed.

(** X17. When the write of row [j] raises (a directory of the path is
    missing, the disk is full), [tofile] ends with that exception: the rows
    before [j] are in their files, the counter counts them and no more,
    nothing is printed, and neither the row nor the rows after it are
    written. *)
Theorem tofile_write_fails :
  forall (fs : file_system) (w : PowerDetectorWriter) (a : attrs)
         (rows : list (list complex)) (j : nat) (e : io_error),
    _attrs w = Some a ->
    (j < List.length rows)%nat ->
    reaches (_ctr a + Z.of_nat j) (_num_files w) = false ->
    writable fs a (_ctr a) j ->
    open_w fs (file_path a (_ctr a + Z.of_nat j)) = Some e ->
    exists evs,
      tofile fs w rows
      = (mkWriter (_num_files w)
           (Some (mkAttrs (_output_path a) (_label a) (_ctr a + Z.of_nat j))),
         evs, Some (Failed e)) /\
      files evs = numbered a (_ctr a) (firstn j rows) /\
      map snd (files evs) = firstn j rows /\
      prints evs = [].
Proof.
  intros fs w a rows j e Ha Hj Hr Hw He.
  destruct (tofile_fails_files fs w a rows j e Ha Hj Hr Hw He)
    as (evs & E & F & P).
  exists evs. repeat split; try assumption.
  rewrite F. apply numbered_data.
Qed.

End WriterFacts.

Module WriterExamples.

Import String.

Lemma tofile_below_limit_witness :
  let w := fst (fst (Writer.__init__ Writer.fs_ok "recordings" "car"
                       (Writer.Finite 3))) in
  let a := Writer.mkAttrs "recordings/car" "car" 0 in
  let rows := [[Czero]; [Czero]] in
  exists evs,
    Writer.tofile Writer.fs_ok w rows
    = (Writer.mkWriter (Writer._num_files w)
         (Some (Writer.mkAttrs (Writer._output_path a) (Writer._label a)
                  (Writer._ctr a + Z.of_nat (List.length rows)))),
       evs, None) /\
    Writer.files evs = Writer.numbered a (Writer._ctr a) rows /\
    map snd (Writer.files evs) = rows /\
    NoDup (map fst (Writer.files evs)) /\
    Writer.prints evs
    = match rows with
      | [] => []
      | _ :: _ => [String.append "File Write counter = "
                     (Writer.str (Writer._ctr a + Z.of_nat (List.length rows)))]
      end.
Proof.
  intros w a rows.
  apply (WriterFacts.tofile_below_limit Writer.fs_ok w a rows).
  - reflexivity.
  - split; [simpl; lia | vm_compute; discriminate].
  - reflexivity.
  - apply WriterFacts.fs_ok_writable.
Defined.

Lemma tofile_reaches_limit_witness :
  let w := fst (fst (Writer.__init__ Writer.fs_ok "recordings" "car"
                       (Writer.Finite 1))) in
  let a := Writer.mkAttrs "recordings/car" "car" 0 in
  let rows := [[Czero]; [Czero]] in
  exists evs,
    Writer.tofile Writer.fs_ok w rows
    = (Writer.mkWriter (Writer.Finite 1)
         (Some (Writer.mkAttrs (Writer._output_path a) (Writer._label a) 1)),
       evs, Some (Writer.SystemExit 0)) /\
    Writer.files evs
    = Writer.numbered a (Writer._ctr a)
        (firstn (Z.to_nat (1 - Writer._ctr a)) rows) /\
    Z.of_nat (List.length (Writer.files evs)) = (1 - Writer._ctr a)%Z /\
    Writer.prints evs
    = [String.append "File Write counter = "
         (String.append (Writer.str 1) ". Exiting.")].
Proof.
  intros w a rows.
  apply (WriterFacts.tofile_reaches_limit Writer.fs_ok w a 1 rows).
  - reflexivity.
  - reflexivity.
  - simpl. lia.
  - split; [simpl; lia | vm_compute; discriminate].
  - apply WriterFacts.fs_ok_writable.
Defined.

Lemma tofile_without_attributes_witness :
  let w := fst (fst (Writer.__init__ Writer.fs_ok "recordings" "car"
                       (Writer.Finite 0))) in
  Writer.__init__ Writer.fs_ok "recordings" "car" (Writer.Finite 0)
  = (Writer.mkWriter (Writer.Finite 0) None, [], None) /\
  Writer.tofile Writer.fs_ok w [] = (w, [], None) /\
  forall sig rest,
    Writer.tofile Writer.fs_ok w (sig :: rest)
    = (w, [], Some (Writer.AttributeError "_label")).
Proof.
  apply (WriterFacts.tofile_without_attributes Writer.fs_ok "recordings" "car" 0).
  lia.
Defined.

Lemma tofile_paths_distinct_witness :
  let w := fst (fst (Writer.__init__ Writer.fs_full "recordings" "car"
                       (Writer.Finite 3))) in
  let a := Writer.mkAttrs "recordings/car" "car" 0 in
  let rows := [[Czero]; [Czero]] in
  let r := Writer.tofile Writer.fs_full w rows in
  NoDup (map fst (Writer.files (snd (fst r)))) /\
  exists j, Writer.files (snd (fst r))
            = Writer.numbered a (Writer._ctr a) (firstn j rows).
Proof.
  intros w a rows r.
  apply (WriterFacts.tofile_paths_distinct Writer.fs_full w a rows
           (fst (fst r)) (snd (fst r)) (snd r)).
  - reflexivity.
  - simpl. lia.
  - vm_compute. discriminate.
  - subst r. now rewrite <- !surjective_pairing.
Defined.

Lemma tofile_write_fails_witness :
  let w := fst (fst (Writer.__init__ Writer.fs_full "recordings" "car"
                       (Writer.Finite 3))) in
  let a := Writer.mkAttrs "recordings/car" "car" 0 in
  let rows := [[Czero]; [(1, 0)]] in
  exists evs,
    Writer.tofile Writer.fs_full w rows
    = (Writer.mkWriter (Writer._num_files w)
         (Some (Writer.mkAttrs (Writer._output_path a) (Writer._label a)
                  (Writer._ctr a + Z.of_nat 1))),
       evs, Some (Writer.Failed (Writer.OSError 28))) /\
    Writer.files evs = Writer.numbered a (Writer._ctr a) (firstn 1 rows) /\
    map snd (Writer.files evs) = firstn 1 rows /\
    Writer.prints evs = [].
Proof.
  intros w a rows.
  apply (WriterFacts.tofile_write_fails Writer.fs_full w a rows 1 (Writer.OSError 28)).
  - reflexivity.
  - simpl. lia.
  - reflexivity.
  - intros j Hj. assert (j = 0%nat) by lia. subst j. reflexivity.
  - reflexivity.
Defined.

End WriterExamples.

(** ** Beyond the claims: the filled segments of the plot *)

Module PlotFacts.

Import String Plot.

Lemma py_index_in_range {A : Type} (l : list A) (k : Z) (d : A) :
  (0 <= k < Z.of_nat (List.length l))%Z ->
  py_index l k = Ok (nth (Z.to_nat k) l d).
Proof.
  intros Hk. unfold py_index. cbv zeta.
  assert (E0 : (k <? 0)%Z = false) by (apply Z.ltb_ge; lia).
  rewrite E0. cbv iota. rewrite E0.
  destruct (nth_error l (Z.to_nat k)) as [v|] eqn:E.
  - now rewrite (nth_error_nth _ _ d E).
  - apply nth_error_None in E. lia.
Qed.

Lemma py_index_Ok {A : Type} (l : list A) (k : Z) (v : A) :
  py_index l k = Ok v ->
  (- Z.of_nat (List.length l) <= k < Z.of_nat (List.length l))%Z.
Proof.
  unfold py_index. cbv zeta. destruct (Z.ltb_spec k 0) as [Hn|Hp].
  - destruct (Z.ltb_spec (k + Z.of_nat (List.length l)) 0); [discriminate|]. lia.
  - assert (E0 : (k <? 0)%Z = false) by (apply Z.ltb_ge; lia).
    rewrite E0.
    destruct (nth_error l (Z.to_nat k)) as [w|] eqn:E; [|discriminate].
    intros _. assert (H : (Z.to_nat k < List.length l)%nat)
      by (apply nth_error_Some; congruence). lia.
Qed.

Lemma py_index_Err {A : Type} (l : list A) (k : Z) (e : exn) :
  py_index l k = Err e -> e = IndexError.
Proof.
  unfold py_index. cbv zeta.
  destruct (_ <? 0)%Z; [congruence|].
  destruct (nth_error l _); congruence.
Qed.

Lemma color_of_segment (i : nat) :
  py_index color_list (Z.of_nat i mod 2)
  = Ok (if Nat.even i then "teal"%string else "#0d4175"%string).
Proof.
  destruct (Nat.even i) eqn:E.
  - apply Nat.even_spec in E as [k ->].
    rewrite Nat2Z.inj_mul, Z.mul_comm, Z_mod_mult. reflexivity.
  - assert (O : Nat.odd i = true) by (rewrite <- Nat.negb_even, E; reflexivity).
    apply Nat.odd_spec in O as [k ->].
    rewrite Nat2Z.inj_add, Nat2Z.inj_mul, Z.add_comm, Z.mul_comm, Z_mod_plus_full.
    reflexivity.
Qed.

(** The starts of [k] whole segments from segment [i] on. *)
Lemma fill_loop_whole (y0 y1 : R) (ys : list R) (seg_len : Z) (x_vals : list R)
  (k : nat) :
  forall i : nat,
    (0 < seg_len)%Z ->
    (Z.of_nat (i + k) * seg_len <= Z.of_nat (List.length x_vals))%Z ->
    fill_loop (y0 :: y1 :: ys) seg_len x_vals i
      (map (fun j => (j * seg_len)%Z) (map Z.of_nat (seq i k)))
    = Ok (List.concat (map (segment_fill y0 y1 seg_len x_vals) (seq i k))).
Proof.
  induction k as [|k IH]; intros i Hs Hlen; [reflexivity|].
  cbn [seq map fill_loop List.concat].
  rewrite (py_index_in_range x_vals _ 0) by nia.
  rewrite (py_index_in_range x_vals _ 0) by nia.
  rewrite color_of_segment.
  rewrite IH
    by (try assumption; replace (S i + k)%nat with (i + S k)%nat by lia;
        exact Hlen).
  reflexivity.
Qed.

Lemma arange_step_whole (m : nat) (step : Z) :
  (0 < step)%Z ->
  arange_step (Z.of_nat m * step) step
  = Ok (map (fun j => (j * step)%Z) (map Z.of_nat (seq 0 m))).
Proof.
  intros Hs. unfold arange_step. destruct (Z.eqb_spec step 0) as [|_]; [lia|].
  replace (- (Z.of_nat m * step))%Z with (- Z.of_nat m * step)%Z by ring.
  rewrite Z_div_mult by lia. rewrite Z.opp_involutive, Z.max_r by lia.
  unfold Np.arange. now rewrite Nat2Z.id.
Qed.

(** X12. For a buffer of [m] whole segments, [_get_fill_x_y_color] returns
    three arguments per segment, in order: the time of the first and of the
    last sample of the segment (as the corners of a rectangle), the limits
    of the axis, and a colour that alternates from one segment to the
    next, starting with ['teal']. *)
Theorem fill_of_whole_segments :
  forall (y0 y1 : R) (ys : list R) (seg_len : Z) (x_vals : list R) (m : nat),
    (0 < seg_len)%Z ->
    Z.of_nat (List.length x_vals) = (Z.of_nat m * seg_len)%Z ->
    _get_fill_x_y_color (y0 :: y1 :: ys) (Z.of_nat m * seg_len) seg_len x_vals
    = Ok (List.concat (map (segment_fill y0 y1 seg_len x_vals) (seq 0 m))) /\
    List.length (List.concat (map (segment_fill y0 y1 seg_len x_vals) (seq 0 m)))
    = (3 * m)%nat.
Proof.
  intros y0 y1 ys seg_len x_vals m Hs Hlen. split.
  - unfold _get_fill_x_y_color. rewrite arange_step_whole by assumption.
    cbn [bind]. apply fill_loop_whole; [assumption|]. simpl. lia.
  - clear Hlen.
    assert (G : forall s,
               List.length
                 (List.concat (map (segment_fill y0 y1 seg_len x_vals) (seq s m)))
               = (3 * m)%nat).
    { induction m as [|m IH]; intros s; [reflexivity|].
      cbn [seq map List.concat]. rewrite length_app, IH. simpl. lia. }
    apply G.
Qed.

Lemma fill_loop_Err ylims seg_len x_vals nst :
  forall i e, fill_loop ylims seg_len x_vals i nst = Err e -> e = IndexError.
Proof.
  induction nst as [|xst rest IH]; intros i e; simpl; [discriminate|].
  repeat match goal with
  | |- context [py_index ?l ?k] =>
      let E := fresh "E" in
      destruct (py_index l k) eqn:E; simpl;
      [|intros H; injection H as <-; eapply py_index_Err; exact E]
  end.
  destruct (fill_loop ylims seg_len x_vals (S i) rest) eqn:E'; simpl;
    [discriminate|].
  intros H. injection H as <-. eapply IH. exact E'.
Qed.

Lemma fill_loop_Ok ylims seg_len x_vals nst :
  forall i l xst,
    fill_loop ylims seg_len x_vals i nst = Ok l -> In xst nst ->
    (xst + seg_len - 1 < Z.of_nat (List.length x_vals))%Z.
Proof.
  induction nst as [|x0 rest IH]; intros i l xst H Hin; [contradiction|].
  simpl in H.
  apply bind_Ok_inv in H as [a [H1 H]].
  apply bind_Ok_inv in H as [b [H2 H]].
  apply bind_Ok_inv in H as [c [H3 H]].
  apply bind_Ok_inv in H as [d [H4 H]].
  apply bind_Ok_inv in H as [f [H5 H]].
  apply bind_Ok_inv in H as [tl [H6 H]].
  destruct Hin as [<-|Hin].
  - apply py_index_Ok in H2. lia.
  - eapply IH; eassumption.
Qed.

(** X13. When the segment length does not divide the buffer length,
    [_get_fill_x_y_color] raises [IndexError]: the last, partial segment
    would end after the last time of [x_vals]. *)
Theorem fill_of_partial_segment_raises :
  forall (ylims : list R) (buff_len seg_len : Z) (x_vals : list R),
    (0 < seg_len)%Z -> (0 < buff_len)%Z ->
    (buff_len mod seg_len <> 0)%Z ->
    Z.of_nat (List.length x_vals) = buff_len ->
    _get_fill_x_y_color ylims buff_len seg_len x_vals = Err IndexError.
Proof.
  intros ylims buff_len seg_len x_vals Hs Hb Hm Hlen.
  unfold _get_fill_x_y_color, arange_step.
  destruct (Z.eqb_spec seg_len 0) as [|_]; [lia|]. cbn [bind].
  set (n := Z.max 0 (- (- buff_len / seg_len))).
  pose proof (Z.div_mod (- buff_len) seg_len ltac:(lia)) as D.
  pose proof (Z.mod_pos_bound (- buff_len) seg_len ltac:(lia)) as B.
  set (q := (- (- buff_len / seg_len))%Z) in *.
  assert (Hq : (buff_len <= q * seg_len < buff_len + seg_len)%Z) by (unfold q; nia).
  assert (Hq1 : (1 <= q)%Z) by nia.
  assert (Hne : (q * seg_len <> buff_len)%Z).
  { intros E. apply Hm. rewrite <- E. apply Z_mod_mult. }
  assert (En : n = q) by (unfold n; lia).
  destruct (fill_loop ylims seg_len x_vals 0
              (map (fun i => (i * seg_len)%Z) (Np.arange n))) as [l|e] eqn:E.
  - exfalso.
    assert (Hin : In ((q - 1) * seg_len)%Z
                    (map (fun i => (i * seg_len)%Z) (Np.arange n))).
    { apply in_map_iff. exists (q - 1)%Z. split; [reflexivity|].
      apply In_arange. lia. }
    pose proof (fill_loop_Ok _ _ _ _ _ _ _ E Hin). nia.
  - f_equal. eapply fill_loop_Err. exact E.
Qed.

End PlotFacts.

Lemma fill_of_whole_segments_witness :
  Plot._get_fill_x_y_color [-1; 1] (Z.of_nat 2 * 2) 2 [0; 1; 2; 3]
  = Ok (concat (map (Plot.segment_fill (-1) 1 2 [0; 1; 2; 3]) (seq 0 2))) /\
  length (concat (map (Plot.segment_fill (-1) 1 2 [0; 1; 2; 3]) (seq 0 2)))
  = (3 * 2)%nat.
Proof.
  apply (PlotFacts.fill_of_whole_segments (-1) 1 [] 2 [0; 1; 2; 3] 2);
    [lia | reflexivity].
Defined.

Lemma fill_of_partial_segment_raises_witness :
  Plot._get_fill_x_y_color [-1; 1] 3 2 [0; 1; 2] = Err IndexError.
Proof.
  apply PlotFacts.fill_of_partial_segment_raises; try lia; try reflexivity.
  discriminate.
Defined.

(** ** Beyond the claims: the recording loop *)

Module RecorderFacts.

Import String Writer WriterFacts Recorder.

Section Loop.

Variable i0 : R -> R.
Variables (buff : list complex) (seg_len dec : Z) (thresh_db : R) (samp : Z).

Lemma reachable_detect_eq (a b : PowerDetector) (x : list complex) :
  reachable i0 buff seg_len dec thresh_db samp a ->
  reachable i0 buff seg_len dec thresh_db samp b ->
  detect a x = detect b x.
Proof.
  intros Ra Rb.
  destruct (reachable_inv i0 _ _ _ _ _ _ Ra) as (A1 & A2 & A3 & A4 & A5 & A6 & _).
  destruct (reachable_inv i0 _ _ _ _ _ _ Rb) as (B1 & B2 & B3 & B4 & B5 & B6 & _).
  destruct (reachable_sizes _ _ _ _ _ _ _ Ra) as [P1 Q1].
  destruct (reachable_sizes _ _ _ _ _ _ _ Rb) as [P2 Q2].
  apply detect_ext; [unfold same_shape; repeat split; congruence | congruence].
Qed.

(** One read that is kept: the call returns the rows of the first
    detector. *)
Lemma reachable_detected (d0 d : PowerDetector) (x : list complex) :
  reachable i0 buff seg_len dec thresh_db samp d0 ->
  reachable i0 buff seg_len dec thresh_db samp d ->
  List.length x = List.length buff ->
  exists d', detect d x = Ok (d', detected d0 x) /\ reachable i0 buff seg_len dec thresh_db samp d'.
Proof.
  intros R0 Rd Hx.
  destruct (reachable_inv i0 _ _ _ _ _ _ Rd) as (_ & _ & _ & _ & _ & _ & _ & _ & I9).
  destruct (I9 x Hx) as [[d' y] H].
  exists d'. unfold detected. rewrite <- (reachable_detect_eq d d0 x Rd R0), H.
  split; [reflexivity|]. eapply reach_detect; eassumption.
Qed.

Lemma recorded_overflow (d0 : PowerDetector) (r : read) (rest : list read) :
  (ret r =? SOAPY_SDR_OVERFLOW)%Z = true ->
  recorded d0 (r :: rest) = recorded d0 rest.
Proof. intros H. unfold recorded, kept. simpl. now rewrite H. Qed.

Lemma recorded_kept (d0 : PowerDetector) (r : read) (rest : list read) :
  (ret r =? SOAPY_SDR_OVERFLOW)%Z = false ->
  recorded d0 (r :: rest) = detected d0 (samples r) ++ recorded d0 rest.
Proof. intros H. unfold recorded, kept. simpl. now rewrite H. Qed.

(** The loop below the limit of the writer, on a file system that lets the
    files through. *)
Lemma loop_below (fs : file_system) (d0 : PowerDetector) (reads : list read) :
  forall (d : PowerDetector) (w : PowerDetectorWriter) (a : attrs),
    reachable i0 buff seg_len dec thresh_db samp d0 ->
    reachable i0 buff seg_len dec thresh_db samp d ->
    Forall (fun r => List.length (samples r) = List.length buff) reads ->
    _attrs w = Some a ->
    reaches (_ctr a + Z.of_nat (List.length (recorded d0 reads))) (_num_files w)
    = false ->
    writable fs a (_ctr a) (List.length (recorded d0 reads)) ->
    exists d' evs,
      main_loop fs d w reads
      = (d',
         mkWriter (_num_files w)
           (Some (mkAttrs (_output_path a) (_label a)
                    (_ctr a + Z.of_nat (List.length (recorded d0 reads))))),
         evs, Interrupted) /\
      reachable i0 buff seg_len dec thresh_db samp d' /\
      files evs = numbered a (_ctr a) (recorded d0 reads).
Proof.
  induction reads as [|r rest IH]; intros d w a R0 Rd Hlen Ha Hr Hw.
  - exists d, []. simpl. rewrite Z.add_0_r. destruct w as [nf oa], a.
    simpl in Ha. subst oa. repeat split. exact Rd.
  - inversion Hlen as [|? ? Hr0 Hrest]; subst. cbn [main_loop].
    destruct (ret r =? SOAPY_SDR_OVERFLOW)%Z eqn:Eo.
    + rewrite (recorded_overflow d0 r rest Eo) in *.
      destruct (IH d w a R0 Rd Hrest Ha Hr Hw) as (d' & evs & E & R' & F).
      rewrite E. exists d', (Print "O" :: evs). repeat split; assumption.
    + rewrite (recorded_kept d0 r rest Eo) in *.
      rewrite length_app in Hw. rewrite length_app, Nat2Z.inj_add in *.
      set (y := detected d0 (samples r)) in *.
      destruct (reachable_detected d0 d (samples r) R0 Rd Hr0) as (d1 & E1 & R1).
      rewrite E1. fold y.
      set (a1 := mkAttrs (_output_path a) (_label a)
                   (_ctr a + Z.of_nat (List.length y))).
      destruct (writable_add fs a a1 (_ctr a) _ _ eq_refl eq_refl Hw)
        as [Hw1 Hw2].
      destruct (tofile_below_files fs w a y Ha) as (ev1 & E2 & F2).
      { eapply reaches_below; [|exact Hr]. lia. }
      { exact Hw1. }
      rewrite E2. fold a1.
      destruct (IH d1 (mkWriter (_num_files w) (Some a1)) a1 R0 R1 Hrest eq_refl)
        as (d' & evs & E & R' & F).
      { cbn [_ctr _num_files a1]. rewrite <- Z.add_assoc. exact Hr. }
      { exact Hw2. }
      rewrite E. cbn [_ctr _num_files _output_path _label a1] in *.
      exists d', (ev1 ++ evs). rewrite Z.add_assoc.
      split; [reflexivity|]. split; [exact R'|].
      rewrite files_app, F2, F, numbered_app.
      now rewrite (numbered_ext a1 a) by reflexivity.
Qed.

(** The loop when the limit of the writer is met. *)
Lemma loop_reaches (fs : file_system) (d0 : PowerDetector) (reads : list read) :
  forall (d : PowerDetector) (w : PowerDetectorWriter) (a : attrs) (n : Z),
    reachable i0 buff seg_len dec thresh_db samp d0 ->
    reachable i0 buff seg_len dec thresh_db samp d ->
    Forall (fun r => List.length (samples r) = List.length buff) reads ->
    _attrs w = Some a -> _num_files w = Finite n ->
    (_ctr a < n <= _ctr a + Z.of_nat (List.length (recorded d0 reads)))%Z ->
    writable fs a (_ctr a) (Z.to_nat (n - _ctr a)) ->
    exists d' evs,
      main_loop fs d w reads
      = (d', mkWriter (Finite n) (Some (mkAttrs (_output_path a) (_label a) n)),
         evs, Stopped (SystemExit 0)) /\
      files evs
      = numbered a (_ctr a) (firstn (Z.to_nat (n - _ctr a)) (recorded d0 reads)).
Proof.
  induction reads as [|r rest IH]; intros d w a n R0 Rd Hlen Ha Hn Hc Hw.
  - simpl in Hc. lia.
  - inversion Hlen as [|? ? Hr0 Hrest]; subst. cbn [main_loop].
    destruct (ret r =? SOAPY_SDR_OVERFLOW)%Z eqn:Eo.
    + rewrite (recorded_overflow d0 r rest Eo) in *.
      destruct (IH d w a n R0 Rd Hrest Ha Hn Hc Hw) as (d' & evs & E & F).
      rewrite E. exists d', (Print "O" :: evs). repeat split; assumption.
    + rewrite (recorded_kept d0 r rest Eo) in *.
      rewrite length_app, Nat2Z.inj_add in Hc.
      set (y := detected d0 (samples r)) in *.
      destruct (reachable_detected d0 d (samples r) R0 Rd Hr0) as (d1 & E1 & R1).
      rewrite E1. fold y.
      destruct (Z.le_gt_cases n (_ctr a + Z.of_nat (List.length y))) as [Hle|Hgt].
      * destruct (tofile_reaches_files fs w a n y Ha Hn ltac:(lia) Hw)
          as (ev1 & E2 & F2).
        rewrite E2. exists d1, ev1. split; [reflexivity|].
        assert (Ef : firstn (Z.to_nat (n - _ctr a)) (y ++ recorded d0 rest)
                     = firstn (Z.to_nat (n - _ctr a)) y).
        { rewrite firstn_app.
          replace (Z.to_nat (n - _ctr a) - List.length y)%nat with 0%nat by lia.
          simpl. apply app_nil_r. }
        rewrite Ef. exact F2.
      * set (a1 := mkAttrs (_output_path a) (_label a)
                     (_ctr a + Z.of_nat (List.length y))).
        replace (Z.to_nat (n - _ctr a))
          with (List.length y
                + Z.to_nat (n - (_ctr a + Z.of_nat (List.length y))))%nat in Hw
          by lia.
        destruct (writable_add fs a a1 (_ctr a) _ _ eq_refl eq_refl Hw)
          as [Hw1 Hw2].
        destruct (tofile_below_files fs w a y Ha) as (ev1 & E2 & F2).
        { rewrite Hn. simpl. apply Z.leb_gt. lia. }
        { exact Hw1. }
        rewrite E2. fold a1.
        destruct (IH d1 (mkWriter (_num_files w) (Some a1)) a1 n R0 R1 Hrest
                    eq_refl Hn) as (d' & evs & E & F).
        { cbn [_ctr a1]. lia. }
        { exact Hw2. }
        rewrite E. cbn [_ctr _output_path _label a1] in *.
        exists d', (ev1 ++ evs). split; [reflexivity|].
        assert (Ef : firstn (Z.to_nat (n - _ctr a)) (y ++ recorded d0 rest)
                     = y ++ firstn (Z.to_nat (n - (_ctr a + Z.of_nat (List.length y))))
                              (recorded d0 rest)).
        { rewrite firstn_app, firstn_all2 by lia. f_equal. f_equal. lia. }
        rewrite Ef, files_app, F2, F, numbered_app.
        now rewrite (numbered_ext a1 a) by reflexivity.
Qed.

(** The loop when the write of the detected row of rank [j] raises. *)
Lemma loop_fails (fs : file_system) (d0 : PowerDetector) (reads : list read) :
  forall (d : PowerDetector) (w : PowerDetectorWriter) (a : attrs) (j : nat)
         (e : io_error),
    reachable i0 buff seg_len dec thresh_db samp d0 ->
    reachable i0 buff seg_len dec thresh_db samp d ->
    Forall (fun r => List.length (samples r) = List.length buff) reads ->
    _attrs w = Some a ->
    (j < List.length (recorded d0 reads))%nat ->
    reaches (_ctr a + Z.of_nat j) (_num_files w) = false ->
    writable fs a (_ctr a) j ->
    open_w fs (file_path a (_ctr a + Z.of_nat j)) = Some e ->
    exists d' evs,
      main_loop fs d w reads
      = (d',
         mkWriter (_num_files w)
           (Some (mkAttrs (_output_path a) (_label a) (_ctr a + Z.of_nat j))),
         evs, Stopped (Failed e)) /\
      files evs = numbered a (_ctr a) (firstn j (recorded d0 reads)).
Proof.
  induction reads as [|r rest IH]; intros d w a j e R0 Rd Hlen Ha Hj Hr Hw He.
  - simpl in Hj. lia.
  - inversion Hlen as [|? ? Hr0 Hrest]; subst. cbn [main_loop].
    destruct (ret r =? SOAPY_SDR_OVERFLOW)%Z eqn:Eo.
    + rewrite (recorded_overflow d0 r rest Eo) in *.
      destruct (IH d w a j e R0 Rd Hrest Ha Hj Hr Hw He) as (d' & evs & E & F).
      rewrite E. exists d', (Print "O" :: evs). repeat split; assumption.
    + rewrite (recorded_kept d0 r rest Eo) in *.
      rewrite length_app in Hj.
      set (y := detected d0 (samples r)) in *.
      destruct (reachable_detected d0 d (samples r) R0 Rd Hr0) as (d1 & E1 & R1).
      rewrite E1. fold y.
      destruct (Nat.lt_ge_cases j (List.length y)) as [Hlt|Hge].
      * destruct (tofile_fails_files fs w a y j e Ha Hlt Hr Hw He)
          as (ev1 & E2 & F2 & _).
        rewrite E2. exists d1, ev1. split; [reflexivity|].
        rewrite firstn_app.
        replace (j - List.length y)%nat with 0%nat by lia.
        simpl. now rewrite app_nil_r.
      * set (a1 := mkAttrs (_output_path a) (_label a)
                     (_ctr a + Z.of_nat (List.length y))).
        set (j' := (j - List.length y)%nat).
        assert (Ej : j = (List.length y + j')%nat) by (unfold j'; lia).
        rewrite Ej in Hw.
        destruct (writable_add fs a a1 (_ctr a) _ _ eq_refl eq_refl Hw)
          as [Hw1 Hw2].
        destruct (tofile_below_files fs w a y Ha) as (ev1 & E2 & F2).
        { eapply reaches_below; [|exact Hr]. lia. }
        { exact Hw1. }
        rewrite E2. fold a1.
        destruct (IH d1 (mkWriter (_num_files w) (Some a1)) a1 j' e R0 R1
                    Hrest eq_refl) as (d' & evs & E & F).
        { unfold j'. lia. }
        { cbn [_ctr _num_files a1].
          replace (_ctr a + Z.of_nat (List.length y) + Z.of_nat j')%Z
            with (_ctr a + Z.of_nat j)%Z by lia. exact Hr. }
        { exact Hw2. }
        { rewrite (file_path_ext a1 a) by reflexivity. cbn [_ctr a1].
          replace (_ctr a + Z.of_nat (List.length y) + Z.of_nat j')%Z
            with (_ctr a + Z.of_nat j)%Z by lia. exact He. }
        rewrite E. cbn [_ctr _num_files _output_path _label a1] in *.
        exists d', (ev1 ++ evs).
        replace (_ctr a + Z.of_nat (List.length y) + Z.of_nat j')%Z
          with (_ctr a + Z.of_nat j)%Z by lia.
        split; [reflexivity|].
        rewrite files_app, F2, F, firstn_app.
        rewrite (firstn_all2 (n := j) y) by lia.
        fold j'. rewrite numbered_app.
        now rewrite (numbered_ext a1 a) by reflexivity.
Qed.

(** X14. The loop below the limit of the writer, on a file system that
    lets the files through: until the interrupt, every read that reports
    an overflow is skipped, every other buffer goes through [detect], and
    the files written are exactly the rows detected in the buffers that
    were not dropped, in the order of the reads, one file per row, numbered
    from the counter on. *)
Theorem loop_records_detected_segments :
  forall (fs : file_system) (d0 : PowerDetector) (reads : list read)
         (d : PowerDetector) (w : PowerDetectorWriter) (a : attrs),
    reachable i0 buff seg_len dec thresh_db samp d0 ->
    reachable i0 buff seg_len dec thresh_db samp d ->
    Forall (fun r => List.length (samples r) = List.length buff) reads ->
    _attrs w = Some a ->
    exact_counters (_ctr a) (List.length (recorded d0 reads)) ->
    reaches (_ctr a + Z.of_nat (List.length (recorded d0 reads))) (_num_files w)
    = false ->
    writable fs a (_ctr a) (List.length (recorded d0 reads)) ->
    exists d' evs,
      main_loop fs d w reads
      = (d',
         mkWriter (_num_files w)
           (Some (mkAttrs (_output_path a) (_label a)
                    (_ctr a + Z.of_nat (List.length (recorded d0 reads))))),
         evs, Interrupted) /\
      reachable i0 buff seg_len dec thresh_db samp d' /\
      files evs = numbered a (_ctr a) (recorded d0 reads) /\
      map snd (files evs) = recorded d0 reads /\
      NoDup (map fst (files evs)).
Proof.
  intros fs d0 reads d w a R0 Rd Hlen Ha [Hc _] Hr Hw.
  destruct (loop_below fs d0 reads d w a R0 Rd Hlen Ha Hr Hw)
    as (d' & evs & E & R' & F).
  exists d', evs. repeat split; try assumption.
  - rewrite F. apply numbered_data.
  - rewrite F. now apply numbered_NoDup.
Qed.

(** X15. The loop when the limit [num_files = n] of the writer is met, the
    file system letting the files up to it through: it ends by the exit of
    the writer, and the files written are the first [n - ctr] detected
    rows, no more: over the life of a writer that starts at counter 0
    exactly [n] files are written. *)
Theorem loop_stops_at_limit :
  forall (fs : file_system) (d0 : PowerDetector) (reads : list read)
         (d : PowerDetector) (w : PowerDetectorWriter) (a : attrs) (n : Z),
    reachable i0 buff seg_len dec thresh_db samp d0 ->
    reachable i0 buff seg_len dec thresh_db samp d ->
    Forall (fun r => List.length (samples r) = List.length buff) reads ->
    _attrs w = Some a -> _num_files w = Finite n ->
    (_ctr a < n <= _ctr a + Z.of_nat (List.length (recorded d0 reads)))%Z ->
    exact_counters (_ctr a) (Z.to_nat (n - _ctr a)) ->
    writable fs a (_ctr a) (Z.to_nat (n - _ctr a)) ->
    exists d' evs,
      main_loop fs d w reads
      = (d', mkWriter (Finite n) (Some (mkAttrs (_output_path a) (_label a) n)),
         evs, Stopped (SystemExit 0)) /\
      files evs
      = numbered a (_ctr a) (firstn (Z.to_nat (n - _ctr a)) (recorded d0 reads)) /\
      Z.of_nat (List.length (files evs)) = (n - _ctr a)%Z.
Proof.
  intros fs d0 reads d w a n R0 Rd Hlen Ha Hn Hc _ Hw.
  destruct (loop_reaches fs d0 reads d w a n R0 Rd Hlen Ha Hn Hc Hw)
    as (d' & evs & E & F).
  exists d', evs. repeat split; try assumption.
  rewrite F, numbered_length, length_firstn. lia.
Qed.

(** X18. The loop when a write raises: if the file of the detected row of
    rank [j] cannot be written (and the limit is not met before it), the
    loop does not run until the interrupt; it ends with the exception of
    that write, which [main] does not catch, and the files are those of the
    [j] detected rows before it. *)
Theorem loop_ends_when_write_fails :
  forall (fs : file_system) (d0 : PowerDetector) (reads : list read)
         (d : PowerDetector) (w : PowerDetectorWriter) (a : attrs) (j : nat)
         (e : io_error),
    reachable i0 buff seg_len dec thresh_db samp d0 ->
    reachable i0 buff seg_len dec thresh_db samp d ->
    Forall (fun r => List.length (samples r) = List.length buff) reads ->
    _attrs w = Some a ->
    (j < List.length (recorded d0 reads))%nat ->
    reaches (_ctr a + Z.of_nat j) (_num_files w) = false ->
    writable fs a (_ctr a) j ->
    open_w fs (file_path a (_ctr a + Z.of_nat j)) = Some e ->
    exists d' evs,
      main_loop fs d w reads
      = (d',
         mkWriter (_num_files w)
           (Some (mkAttrs (_output_path a) (_label a) (_ctr a + Z.of_nat j))),
         evs, Stopped (Failed e)) /\
      files evs = numbered a (_ctr a) (firstn j (recorded d0 reads)) /\
      List.length (files evs) = j.
Proof.
  intros fs d0 reads d w a j e R0 Rd Hlen Ha Hj Hr Hw He.
  destruct (loop_fails fs d0 reads d w a j e R0 Rd Hlen Ha Hj Hr Hw He)
    as (d' & evs & E & F).
  exists d', evs. repeat split; try assumption.
  rewrite F, numbered_length, length_firstn. lia.
Qed.

End Loop.

End RecorderFacts.

(** ** Examples of the recording loop *)

Module RecorderExamples.

Import String Writer Recorder.

(** With [samp_above_thresh = -1] both segments of the all-zero buffer are
    detected. *)
Lemma zero_buff_detected :
  detected (demo zero_buff 0 (-1)) zero_buff
  = [repeat Czero 4; repeat Czero 4].
Proof.
  set (d := demo zero_buff 0 (-1)).
  assert (Hr : reachable i0_series zero_buff 4 2 0 (-1) d)
    by (apply demo_reachable; [reflexivity | lia]).
  destruct (reachable_inv i0_series _ _ _ _ _ _ Hr)
    as (I1 & _ & _ & _ & I5 & I6 & _).
  assert (HT : 0 < _thresh d) by (rewrite I5; apply exp_pos).
  assert (Hdet : detect d zero_buff = Ok (called (detect d zero_buff)))
    by (apply demo_detect; [reflexivity | lia | reflexivity]).
  unfold detected. destruct (called (detect d zero_buff)) as [d' y]. simpl.
  destruct (detect_zero _ _ _ _ Hdet zero_buff_zero HT) as (_ & _ & Hf).
  rewrite I6 in Hf.
  pose proof (detect_Ok _ _ _ _ Hdet)
    as (_ & _ & x_mat & _ & _ & _ & _ & H5 & H6 & _).
  rewrite I1 in H5.
  assert (Hm : Np.reshape zero_buff 4 = Ok [repeat Czero 4; repeat Czero 4])
    by reflexivity.
  rewrite Hm in H5. injection H5 as <-.
  unfold Np.bool_index in H6.
  match type of H6 with
  | (if ?c then _ else _) = _ => destruct c eqn:L; [|discriminate]
  end.
  apply Nat.eqb_eq in L. simpl in L.
  injection H6 as Hy. unfold det_index in Hf.
  destruct (_seg_det_index d') as [|f1 [|f2 [|f3 l]]]; try discriminate.
  inversion Hf as [|? ? E1 Hf1]; subst. inversion Hf1 as [|? ? E2 _]; subst.
  reflexivity.
Qed.

Lemma recorded_two_reads :
  recorded (demo zero_buff 0 (-1)) [mkRead 8 zero_buff; mkRead 8 zero_buff]
  = repeat (repeat Czero 4) 4.
Proof.
  rewrite !RecorderFacts.recorded_kept by reflexivity.
  cbn [samples]. now rewrite zero_buff_detected.
Qed.

Lemma loop_records_detected_segments_witness :
  let d0 := demo zero_buff 0 (-1) in
  let w := fst (fst (Writer.__init__ fs_ok "recordings" "car" Infinite)) in
  let a := mkAttrs "recordings/car" "car" 0 in
  let reads := [mkRead (-4) demo_buff; mkRead 8 zero_buff] in
  exists d' evs,
    main_loop fs_ok d0 w reads
    = (d',
       mkWriter (_num_files w)
         (Some (mkAttrs (_output_path a) (_label a)
                  (_ctr a + Z.of_nat (List.length (recorded d0 reads))))),
       evs, Interrupted) /\
    reachable i0_series zero_buff 4 2 0 (-1) d' /\
    files evs = numbered a (_ctr a) (recorded d0 reads) /\
    map snd (files evs) = recorded d0 reads /\
    NoDup (map fst (files evs)).
Proof.
  intros d0 w a reads.
  assert (Hr : reachable i0_series zero_buff 4 2 0 (-1) d0)
    by (apply demo_reachable; [reflexivity | lia]).
  assert (Hrec : recorded d0 reads = repeat (repeat Czero 4) 2).
  { unfold reads. rewrite RecorderFacts.recorded_overflow by reflexivity.
    rewrite RecorderFacts.recorded_kept by reflexivity.
    cbn [samples]. unfold d0. now rewrite zero_buff_detected. }
  apply (RecorderFacts.loop_records_detected_segments i0_series zero_buff 4 2 0
           (-1) fs_ok d0 reads d0 w a Hr Hr).
  - repeat constructor.
  - reflexivity.
  - rewrite Hrec. split; [simpl; lia | vm_compute; discriminate].
  - reflexivity.
  - apply WriterFacts.fs_ok_writable.
Defined.

Lemma loop_stops_at_limit_witness :
  let d0 := demo zero_buff 0 (-1) in
  let w := fst (fst (Writer.__init__ fs_ok "recordings" "car" (Finite 1))) in
  let a := mkAttrs "recordings/car" "car" 0 in
  let reads := [mkRead 8 zero_buff; mkRead 8 zero_buff] in
  exists d' evs,
    main_loop fs_ok d0 w reads
    = (d', mkWriter (Finite 1) (Some (mkAttrs (_output_path a) (_label a) 1)),
       evs, Stopped (SystemExit 0)) /\
    files evs
    = numbered a (_ctr a) (firstn (Z.to_nat (1 - _ctr a)) (recorded d0 reads)) /\
    Z.of_nat (List.length (files evs)) = (1 - _ctr a)%Z.
Proof.
  intros d0 w a reads.
  assert (Hr : reachable i0_series zero_buff 4 2 0 (-1) d0)
    by (apply demo_reachable; [reflexivity | lia]).
  apply (RecorderFacts.loop_stops_at_limit i0_series zero_buff 4 2 0 (-1) fs_ok
           d0 reads d0 w a 1 Hr Hr).
  - repeat constructor.
  - reflexivity.
  - reflexivity.
  - unfold reads, d0. rewrite recorded_two_reads. simpl. lia.
  - split; [simpl; lia | vm_compute; discriminate].
  - apply WriterFacts.fs_ok_writable.
Defined.

Lemma loop_ends_when_write_fails_witness :
  let d0 := demo zero_buff 0 (-1) in
  let w := fst (fst (Writer.__init__ fs_full "recordings" "car" Infinite)) in
  let a := mkAttrs "recordings/car" "car" 0 in
  let reads := [mkRead 8 zero_buff; mkRead 8 zero_buff] in
  exists d' evs,
    main_loop fs_full d0 w reads
    = (d',
       mkWriter (_num_files w)
         (Some (mkAttrs (_output_path a) (_label a) (_ctr a + Z.of_nat 1))),
       evs, Stopped (Failed (OSError 28))) /\
    files evs = numbered a (_ctr a) (firstn 1 (recorded d0 reads)) /\
    List.length (files evs) = 1%nat.
Proof.
  intros d0 w a reads.
  assert (Hr : reachable i0_series zero_buff 4 2 0 (-1) d0)
    by (apply demo_reachable; [reflexivity | lia]).
  apply (RecorderFacts.loop_ends_when_write_fails i0_series zero_buff 4 2 0 (-1)
           fs_full d0 reads d0 w a 1 (OSError 28) Hr Hr).
  - repeat constructor.
  - reflexivity.
  - unfold reads, d0. rewrite recorded_two_reads. simpl. lia.
  - reflexivity.
  - intros j Hj. assert (j = 0%nat) by lia. subst j. reflexivity.
  - reflexivity.
Defined.

End RecorderExamples.

(** ** Beyond the claims: more power, no fewer detections *)

Section MorePower.

Import Np NpFacts Cusignal CusignalFacts.

Variable i0 : R -> R.
Hypothesis i0_pos : forall t, 0 < i0 t.















End MorePower.

